(** * The suspend/resume coordination core of vcml (debugging/suspender)

    A shallow embedding of [suspend_manager] (the process-wide gate) and
    of [suspender] (the per-controller handle), followed by the
    properties of the two that the specification states.

    Every member function is one state transformer over [world]: the
    registry accesses are serialised by [suspender_lock], so the calls of
    the controller threads are interleaved at the granularity of whole
    member functions.  The only function that gives up control in the
    middle is [handle_requests], which waits on [sysc_notify]; the calls
    other threads make between the steps of its wait and while it is
    blocked are handed to it as a schedule. *)

From stdpp Require Import gmap strings list sorting.

Local Open Scope Z_scope.

(** ** Data model *)

(** [std::mutex]. *)
Inductive mutex := Unlocked | Locked.

(** [std::condition_variable_any], seen from its only waiter, the thread
    that runs [handle_requests]. *)
Inductive condvar := NoWaiter | Waiting | Notified.

(** [struct suspend_manager]; a [suspender*] is the address of the object. *)
Record suspend_manager := {
  is_suspended : bool;
  sysc_lock : mutex;
  sysc_notify : condvar;
  suspender_lock : mutex;
  suspenders : list nat;
}.

(** Modelled from the spec: the declaration of [class suspender]
    (suspender.h) is not among the sources; "identity, display name, a
    back-reference to an owning context (non-owning), and a nesting
    counter".  The constructor and [resume] show the members [m_pcount],
    [m_name] and [m_owner]; [m_pcount] is tested for [< 0], a signed
    counter, kept here as an integer without bound.  The owner is kept
    by its name. *)
Record suspender := {
  m_pcount : Z;
  m_name : string;
  m_owner : option string;
}.

Definition with_pcount (n : Z) (o : suspender) : suspender :=
  {| m_pcount := n; m_name := m_name o; m_owner := m_owner o |}.

(** The SystemC object hierarchy: [get_child_objects] of every object,
    and whether [dynamic_cast<module*>] succeeds on it. *)
#[local] Unset Elimination Schemes.
Inductive sc_object :=
  SCObject (name : string) (is_module : bool) (children : list sc_object).
#[local] Set Elimination Schemes.

(** What the hierarchy is told: [session_suspend] and [session_resume]
    of the module of that name (what a module does then is its own
    business). *)
Inductive callback :=
| session_suspend (mod_name : string)
| session_resume (mod_name : string).

(** The process: the static [g_manager], the live [suspender] objects by
    address, the SystemC kernel ([sc_is_running],
    [sc_get_top_level_objects]) and the callbacks made so far, oldest
    first. *)
Record world := {
  g_manager : suspend_manager;
  objects : gmap nat suspender;
  sc_running : bool;
  top_level : list sc_object;
  callbacks : list callback;
}.

Definition with_manager (f : suspend_manager -> suspend_manager) (w : world) : world :=
  {| g_manager := f (g_manager w); objects := objects w;
     sc_running := sc_running w; top_level := top_level w; callbacks := callbacks w |}.

Definition with_objects (f : gmap nat suspender -> gmap nat suspender) (w : world) : world :=
  {| g_manager := g_manager w; objects := f (objects w);
     sc_running := sc_running w; top_level := top_level w; callbacks := callbacks w |}.

Definition with_running (b : bool) (w : world) : world :=
  {| g_manager := g_manager w; objects := objects w;
     sc_running := b; top_level := top_level w; callbacks := callbacks w |}.

Definition with_callbacks (f : list callback -> list callback) (w : world) : world :=
  {| g_manager := g_manager w; objects := objects w;
     sc_running := sc_running w; top_level := top_level w; callbacks := f (callbacks w) |}.

Definition set_is_suspended (b : bool) (g : suspend_manager) : suspend_manager :=
  {| is_suspended := b; sysc_lock := sysc_lock g; sysc_notify := sysc_notify g;
     suspender_lock := suspender_lock g; suspenders := suspenders g |}.

Definition set_sysc_lock (m : mutex) (g : suspend_manager) : suspend_manager :=
  {| is_suspended := is_suspended g; sysc_lock := m; sysc_notify := sysc_notify g;
     suspender_lock := suspender_lock g; suspenders := suspenders g |}.

Definition set_sysc_notify (c : condvar) (g : suspend_manager) : suspend_manager :=
  {| is_suspended := is_suspended g; sysc_lock := sysc_lock g; sysc_notify := c;
     suspender_lock := suspender_lock g; suspenders := suspenders g |}.

Definition set_suspender_lock (m : mutex) (g : suspend_manager) : suspend_manager :=
  {| is_suspended := is_suspended g; sysc_lock := sysc_lock g; sysc_notify := sysc_notify g;
     suspender_lock := m; suspenders := suspenders g |}.

Definition set_suspenders (v : list nat) (g : suspend_manager) : suspend_manager :=
  {| is_suspended := is_suspended g; sysc_lock := sysc_lock g; sysc_notify := sysc_notify g;
     suspender_lock := suspender_lock g; suspenders := v |}.

(** ** Calls: state, reports and blocking *)

(** How a call ends: it returns, it raises a report ([VCML_ERROR]), it
    is still blocked on a mutex or on the condition variable, or it has
    no defined behaviour (a member function of a destroyed object). *)
Inductive outcome (A : Type) :=
| Ok (a : A)
| Throw (msg : string)
| Block
| Undef.
Arguments Ok {A} a.
Arguments Throw {A} msg.
Arguments Block {A}.
Arguments Undef {A}.

Definition M (A : Type) : Type := world -> outcome A * world.

Definition ret {A} (a : A) : M A := fun w => (Ok a, w).

Definition bind {A B} (m : M A) (k : A -> M B) : M B := fun w =>
  match m w with
  | (Ok a, w') => k a w'
  | (Throw msg, w') => (Throw msg, w')
  | (Block, w') => (Block, w')
  | (Undef, w') => (Undef, w')
  end.

Notation "x <- c1 ;; c2" := (bind c1 (fun x => c2))
  (at level 100, c1 at next level, right associativity).
Notation "c1 ;; c2" := (bind c1 (fun _ => c2))
  (at level 100, right associativity).

Definition gets {A} (f : world -> A) : M A := fun w => (Ok (f w), w).
Definition modify (f : world -> world) : M unit := fun w => (Ok tt, f w).
Definition blocked {A} : M A := fun w => (Block, w).

(** Modelled from the spec: the macros [VCML_ERROR] and [VCML_ERROR_ON]
    (report.h) are not among the sources; protocol violations "terminate
    the current operation with a fatal report". *)
Definition VCML_ERROR {A} (msg : string) : M A := fun w => (Throw msg, w).
Definition VCML_ERROR_ON (cond : bool) (msg : string) : M unit :=
  if cond then VCML_ERROR msg else ret tt.

Definition when (b : bool) (m : M unit) : M unit := if b then m else ret tt.

(** [for (auto x : l) body(x);] *)
Definition for_each {A} (body : A -> M unit) : list A -> M unit :=
  fix each (l : list A) : M unit :=
    match l with
    | [] => ret tt
    | x :: l' => body x ;; each l'
    end.

Fixpoint repeat_call (n : nat) (m : M unit) : M unit :=
  match n with
  | O => ret tt
  | S n' => m ;; repeat_call n' m
  end.

(** The state a call leaves behind, however it ends. *)
Definition state_after {A} (m : M A) (w : world) : world := snd (m w).
Definition result_of {A} (m : M A) (w : world) : outcome A := fst (m w).

(** Calls made by other threads, one after the other.  A report or a
    blocked call stays in its own thread; its effects on the shared
    state remain. *)
Fixpoint concurrently (others : list (M unit)) : M unit :=
  match others with
  | [] => ret tt
  | a :: rest => fun w => concurrently rest (state_after a w)
  end.

(** ** Helpers of vcml/common/utils.h *)

(** Modelled from the spec: [stl_contains] is not among the sources;
    "point-in-time registry membership test". *)
Definition stl_contains (v : list nat) (t : nat) : bool := bool_decide (t ∈ v).

(** Modelled from the spec: [stl_add_unique] is not among the sources;
    "idempotent insert of id into the registry", "insertion order
    preserved; an identity appears at most once". *)
Definition stl_add_unique (v : list nat) (t : nat) : list nat :=
  if stl_contains v t then v else v ++ [t].

(** Modelled from the spec: [stl_remove_erase] is not among the sources;
    "idempotent removal of id", the order of the others preserved. *)
Definition stl_remove_erase (v : list nat) (t : nat) : list nat :=
  filter (λ x, x ≠ t) v.

(** ** Synchronisation primitives *)

(** [lock_guard<mutex> guard(suspender_lock)] around [body]: the guard
    is released on every way out of the scope. *)
Definition lock_guard {A} (body : M A) : M A := fun w =>
  match suspender_lock (g_manager w) with
  | Locked => (Block, w)
  | Unlocked =>
      let '(r, w') := body (with_manager (set_suspender_lock Locked) w) in
      (r, with_manager (set_suspender_lock Unlocked) w')
  end.

(** [sysc_lock.lock()], [sysc_lock.try_lock()], [sysc_lock.unlock()]. *)
Definition sysc_lock_lock : M unit := fun w =>
  match sysc_lock (g_manager w) with
  | Locked => (Block, w)
  | Unlocked => (Ok tt, with_manager (set_sysc_lock Locked) w)
  end.

Definition sysc_lock_try_lock : M bool := fun w =>
  match sysc_lock (g_manager w) with
  | Locked => (Ok false, w)
  | Unlocked => (Ok true, with_manager (set_sysc_lock Locked) w)
  end.

Definition sysc_lock_unlock : M unit :=
  modify (with_manager (set_sysc_lock Unlocked)).

(** [sysc_notify.notify_all()]: a waiting thread becomes runnable; with
    nobody waiting the notification is dropped. *)
Definition notify_all : M unit :=
  modify (with_manager (fun g =>
    match sysc_notify g with
    | Waiting => set_sysc_notify Notified g
    | NoWaiter | Notified => g
    end)).

(** One [sysc_notify.wait(sysc_lock)], first half: release the lock and
    sleep. *)
Definition cv_block : M unit :=
  sysc_lock_unlock ;; modify (with_manager (set_sysc_notify Waiting)).

(** Second half: woken, take the lock again. *)
Definition cv_wake : M unit :=
  modify (with_manager (set_sysc_notify NoWaiter)) ;; sysc_lock_lock.

(** [sysc_notify.wait(sysc_lock, pred)], that is
    [while (!pred()) wait(sysc_lock)].  [pred] takes and releases
    [suspender_lock] only, and so do the threads that notify: between
    the return of a false [pred()] and the moment [wait(sysc_lock)] has
    released [sysc_lock] and blocks, other threads run, and what they
    notify then finds no waiter.

    [during] is what the other threads do, one element per stretch.
    For [cv_wait], which starts at [pred()], the first element is the
    stretch between a false [pred()] and the block; for [cv_sleep],
    which starts with the thread blocked, each element is a stretch
    until the blocked thread is scheduled again: it wakes if it was
    notified, and is then at [pred()] again.  (A call made between the
    wake-up and [pred()] leaves the same state as at the end of the
    stretch before.)  When [during] runs out the thread is blocked. *)
Fixpoint cv_wait (pred : M bool) (during : list (list (M unit))) {struct during} : M unit :=
  p <- pred ;;
  if p then ret tt
  else
    match during with
    | [] => cv_block ;; blocked
    | gap :: rest => concurrently gap ;; cv_block ;; cv_sleep pred rest
    end
with cv_sleep (pred : M bool) (during : list (list (M unit))) {struct during} : M unit :=
  match during with
  | [] => blocked
  | others :: rest =>
      concurrently others ;;
      n <- gets (fun w => sysc_notify (g_manager w)) ;;
      match n with
      | Notified => cv_wake ;; cv_wait pred rest
      | _ => cv_sleep pred rest
      end
  end.

(** A spurious wake-up, which [wait] permits. *)
Definition spurious_wakeup : M unit := notify_all.

(** ** The gate: [suspend_manager] *)

Module suspend_manager.

Definition sc_is_running : M bool := gets sc_running.

Definition request_pause (s : nat) : M unit :=
  running <- sc_is_running ;;
  when (negb running) (VCML_ERROR "cannot suspend, simulation not running") ;;
  lock_guard
    (modify (with_manager (fun g => set_suspenders (stl_add_unique (suspenders g) s) g))).

Definition request_resume (s : nat) : M unit :=
  lock_guard
    (modify (with_manager (fun g => set_suspenders (stl_remove_erase (suspenders g) s) g)) ;;
     v <- gets (fun w => suspenders (g_manager w)) ;;
     match v with
     | [] => notify_all
     | _ :: _ => ret tt
     end).

Definition is_suspending (s : nat) : M bool :=
  lock_guard (gets (fun w => stl_contains (suspenders (g_manager w)) s)).

Definition count : M nat :=
  lock_guard (gets (fun w => length (suspenders (g_manager w)))).

(** [nullptr] is [None]. *)
Definition current : M (option nat) :=
  got <- sysc_lock_try_lock ;;
  if negb got then ret None
  else
    sysc_lock_unlock ;;
    lock_guard
      (v <- gets (fun w => suspenders (g_manager w)) ;;
       match v with
       | [] => ret None
       | front :: _ => ret (Some front)
       end).

Definition force_resume : M unit :=
  lock_guard
    (modify (with_manager (set_suspenders [])) ;;
     notify_all).

(** [notify_suspend(obj)] for an object: the children first, then, if
    the object is a module, its own [session_suspend]. *)
Fixpoint notify_suspend_obj (obj : sc_object) : M unit :=
  match obj with
  | SCObject name is_mod children =>
      for_each notify_suspend_obj children ;;
      when is_mod (modify (with_callbacks (fun t => t ++ [session_suspend name])))
  end.

(** [notify_suspend(obj)]; [None] is the default argument [nullptr]. *)
Definition notify_suspend (obj : option sc_object) : M unit :=
  match obj with
  | Some o => notify_suspend_obj o
  | None =>
      children <- gets top_level ;;
      for_each notify_suspend_obj children
  end.

Fixpoint notify_resume_obj (obj : sc_object) : M unit :=
  match obj with
  | SCObject name is_mod children =>
      for_each notify_resume_obj children ;;
      when is_mod (modify (with_callbacks (fun t => t ++ [session_resume name])))
  end.

Definition notify_resume (obj : option sc_object) : M unit :=
  match obj with
  | Some o => notify_resume_obj o
  | None =>
      children <- gets top_level ;;
      for_each notify_resume_obj children
  end.

(** The predicate of the wait, [[&]() -> bool { return count() == 0; }]. *)
Definition no_requests : M bool :=
  n <- count ;; ret (n =? 0)%nat.

(** [handle_requests], run by the SystemC thread on each delta cycle.
    [before] are the calls other threads complete between the first
    [count()] and the wait, [during] the ones they make during the
    wait, stretch by stretch (see [cv_wait]). *)
Definition handle_requests
    (before : list (M unit)) (during : list (list (M unit))) : M unit :=
  n <- count ;;
  if (n =? 0)%nat then ret tt
  else
    modify (with_manager (set_is_suspended true)) ;;
    notify_suspend None ;;
    concurrently before ;;
    cv_wait no_requests during ;;
    notify_resume None ;;
    modify (with_manager (set_is_suspended false)).

(** The constructor: [is_suspended(false)], the rest default-initialised,
    then [sysc_lock.lock()].  ([on_each_delta_cycle] hands
    [handle_requests] to the kernel, which calls it from then on.) *)
Definition init : suspend_manager :=
  {| is_suspended := false; sysc_lock := Locked; sysc_notify := NoWaiter;
     suspender_lock := Unlocked; suspenders := [] |}.

End suspend_manager.

(** ** The handle: [suspender] *)

(** The calling thread: the loop thread or any other. *)
Inductive thread := sysc_thread | other_thread.

(** Modelled from the spec: [thctl_is_sysc_thread] (thctl.h) is not
    among the sources; "if the caller is the loop thread". *)
Definition thctl_is_sysc_thread (t : thread) : bool :=
  match t with sysc_thread => true | other_thread => false end.

(** [SC_HIERARCHY_CHAR] of SystemC. *)
Definition SC_HIERARCHY_CHAR : string := ".".

Module suspender.

(** [this] must point to a live object. *)
Definition deref (this : nat) : M suspender := fun w =>
  match objects w !! this with
  | Some o => (Ok o, w)
  | None => (Undef, w)
  end.

Definition set_pcount (this : nat) (n : Z) : M unit :=
  o <- deref this ;;
  modify (with_objects <[this := with_pcount n o]>).

(** [m_pcount++] gives the old value, [--m_pcount] the new one. *)
Definition pcount_post_increment (this : nat) : M Z :=
  o <- deref this ;;
  set_pcount this (m_pcount o + 1) ;;
  ret (m_pcount o).

Definition pcount_pre_decrement (this : nat) : M Z :=
  o <- deref this ;;
  set_pcount this (m_pcount o - 1) ;;
  ret (m_pcount o - 1).

(** The constructor, placed at the free address [this];
    [hierarchy_top] is the name of [hierarchy_top()], if any. *)
Definition ctor (this : nat) (name : string) (hierarchy_top : option string) : M unit :=
  fun w =>
  match objects w !! this with
  | Some _ => (Undef, w)
  | None =>
      let full :=
        match hierarchy_top with
        | Some owner => (owner +:+ SC_HIERARCHY_CHAR) +:+ name
        | None => name
        end in
      (Ok tt, with_objects
         <[this := {| m_pcount := 0; m_name := full; m_owner := hierarchy_top |}]> w)
  end.

Definition is_suspending (this : nat) : M bool :=
  suspend_manager.is_suspending this.

Definition suspend (this : nat) (wait : bool) (caller : thread) : M unit :=
  old <- pcount_post_increment this ;;
  when (old =? 0) (suspend_manager.request_pause this) ;;
  when (wait && negb (thctl_is_sysc_thread caller))
    (sysc_lock_lock ;; sysc_lock_unlock).

Definition resume (this : nat) : M unit :=
  new <- pcount_pre_decrement this ;;
  when (new =? 0) (suspend_manager.request_resume this) ;;
  now <- deref this ;;
  VCML_ERROR_ON (m_pcount now <? 0) "unmatched resume".

(** The destructor; the storage of the object is gone afterwards. *)
Definition dtor (this : nat) : M unit :=
  deref this ;;
  active <- is_suspending this ;;
  when active (resume this) ;;
  modify (with_objects (delete this)).

Definition current : M (option nat) := suspend_manager.current.

Definition force_resume : M unit := suspend_manager.force_resume.

Definition simulation_suspended : M bool :=
  gets (fun w => is_suspended (g_manager w)).

Definition handle_requests
    (before : list (M unit)) (during : list (list (M unit))) : M unit :=
  suspend_manager.handle_requests before during.

End suspender.

(** ** Threads other than the SystemC thread *)

(** What a controller thread can do to the core; and the condition
    variable may wake its waiter for no reason. *)
Inductive call :=
| Construct (this : nat) (name : string) (hierarchy_top : option string)
| Destroy (this : nat)
| Suspend (this : nat) (wait : bool)
| Resume (this : nat)
| IsSuspending (this : nat)
| Current
| ForceResume
| SimulationSuspended
| SpuriousWakeup.

Definition perform (c : call) : M unit :=
  match c with
  | Construct this name top => suspender.ctor this name top
  | Destroy this => suspender.dtor this
  | Suspend this wait => suspender.suspend this wait other_thread
  | Resume this => suspender.resume this
  | IsSuspending this => suspender.is_suspending this ;; ret tt
  | Current => suspender.current ;; ret tt
  | ForceResume => suspender.force_resume
  | SimulationSuspended => suspender.simulation_suspended ;; ret tt
  | SpuriousWakeup => spurious_wakeup
  end.

(** The calls of controller threads, as a schedule for
    [handle_requests]. *)
Definition by_others (cs : list call) : list (M unit) := map perform cs.

(** The process after static initialisation: [g_manager] constructed,
    no handle yet, nothing notified. *)
Definition boot (running : bool) (top : list sc_object) : world :=
  {| g_manager := suspend_manager.init; objects := ∅; sc_running := running;
     top_level := top; callbacks := [] |}.

(** No thread is inside a block guarded by [suspender_lock]; this holds
    between any two calls. *)
Definition idle (w : world) : Prop := suspender_lock (g_manager w) = Unlocked.

(** ** The effect of the gate's operations, in closed form *)

(** [notify_all] seen by the waiter. *)
Definition woken (c : condvar) : condvar :=
  match c with
  | Waiting => Notified
  | _ => c
  end.

Definition wake (g : suspend_manager) : suspend_manager :=
  set_sysc_notify (woken (sysc_notify g)) g.

(** [stl_add_unique(suspenders, s)]. *)
Definition register_in (s : nat) (g : suspend_manager) : suspend_manager :=
  set_suspenders (stl_add_unique (suspenders g) s) g.

(** [stl_remove_erase(suspenders, s)], and [notify_all] if that leaves
    the registry empty. *)
Definition unregister_in (s : nat) (g : suspend_manager) : suspend_manager :=
  match stl_remove_erase (suspenders g) s with
  | [] => wake (set_suspenders [] g)
  | v => set_suspenders v g
  end.

(** [suspenders.clear()] and [notify_all]. *)
Definition clear_in (g : suspend_manager) : suspend_manager :=
  wake (set_suspenders [] g).

Definition register (s : nat) : world -> world := with_manager (register_in s).
Definition unregister (s : nat) : world -> world := with_manager (unregister_in s).
Definition clear_all : world -> world := with_manager clear_in.

(** What [lock_guard<mutex> lock(g_manager.sysc_lock)] at the end of
    [suspend] does to the caller. *)
Definition await_pause (wait : bool) (caller : thread) (w : world) : outcome unit :=
  if wait && negb (thctl_is_sysc_thread caller)
  then match sysc_lock (g_manager w) with Locked => Block | Unlocked => Ok tt end
  else Ok tt.

(** ** Notions the properties are stated with *)

(** The loop thread is paused when it sleeps in the wait of
    [handle_requests], that is when it does not hold the loop-block
    indicator [sysc_lock]. *)
Definition loop_paused (w : world) : Prop := sysc_lock (g_manager w) = Unlocked.

(** *** The hierarchy *)

(** The modules below an object in the order the code visits them:
    the children, in order, before the object itself. *)
Fixpoint modules_children_first (obj : sc_object) : list string :=
  match obj with
  | SCObject name is_mod children =>
      flat_map modules_children_first children ++ (if is_mod then [name] else [])
  end.

(** The order the specification asks of the pause notification, root to
    leaf: the object before its children. *)
Fixpoint modules_root_first (obj : sc_object) : list string :=
  match obj with
  | SCObject name is_mod children =>
      (if is_mod then [name] else []) ++ flat_map modules_root_first children
  end.

(** The callbacks of one pause and of one resume notification. *)
Definition pause_callbacks (top : list sc_object) : list callback :=
  session_suspend <$> flat_map modules_children_first top.

Definition resume_callbacks (top : list sc_object) : list callback :=
  session_resume <$> flat_map modules_children_first top.

(** *** Counters and registry *)

(** The identities whose nesting counter is greater than 0. *)
Definition active_identities (w : world) : gset nat :=
  dom (filter (λ kv, 0 < m_pcount kv.2) (objects w)).

(** The registry holds exactly those, each once. *)
Definition registry_matches_counters (w : world) : Prop :=
  NoDup (suspenders (g_manager w))
  ∧ ∀ s, s ∈ suspenders (g_manager w) ↔ s ∈ active_identities w.

(** The calls after which the registry still matches the counters:
    no [force_resume], no [suspend] from counter 0 while the simulation
    is not running, no destructor at depth 2 or more. *)
Definition within_protocol (c : call) (w : world) : Prop :=
  match c with
  | ForceResume => False
  | Suspend this _ =>
      ∀ o, objects w !! this = Some o → m_pcount o = 0 → sc_running w = true
  | Destroy this =>
      ∀ o, objects w !! this = Some o → m_pcount o ≤ 1
  | _ => True
  end.

(** What happens to the process, one step at a time: a controller
    thread completes a call; the loop thread runs one of the four
    stretches of [handle_requests] (up to the wait, going to sleep in
    it, waking in it, after it); the kernel starts or stops the
    simulation. *)
Inductive step :=
| ByController (c : call)
| LoopEnters
| LoopSleeps
| LoopWakes
| LoopLeaves
| Kernel (running : bool).

Definition do_step (e : step) : M unit :=
  match e with
  | ByController c => perform c
  | LoopEnters =>
      modify (with_manager (set_is_suspended true)) ;;
      suspend_manager.notify_suspend None
  | LoopSleeps => cv_block
  | LoopWakes => cv_wake
  | LoopLeaves =>
      suspend_manager.notify_resume None ;;
      modify (with_manager (set_is_suspended false))
  | Kernel running => modify (with_running running)
  end.

(** The steps of the loop thread. *)
Definition loop_step (e : step) : bool :=
  match e with
  | LoopEnters | LoopSleeps | LoopWakes | LoopLeaves => true
  | ByController _ | Kernel _ => false
  end.

(** A history of steps, with how each one ended.  A blocked call has
    done all it does to the state; it returns once the lock is free. *)
Fixpoint run_history (history : list step) (w : world) : list (outcome unit) * world :=
  match history with
  | [] => ([], w)
  | e :: rest =>
      let '(r, w1) := do_step e w in
      let '(rs, w') := run_history rest w1 in
      (r :: rs, w')
  end.

Definition step_within_protocol (e : step) (w : world) : Prop :=
  match e with
  | ByController c => within_protocol c w
  | _ => True
  end.

(** The states reachable from static initialisation, by any steps and
    by steps within the protocol. *)
Inductive reachable : world → Prop :=
| reachable_boot running top : reachable (boot running top)
| reachable_step e w : reachable w → reachable (state_after (do_step e) w).

Inductive reachable_within_protocol : world → Prop :=
| within_boot running top : reachable_within_protocol (boot running top)
| within_step e w :
    reachable_within_protocol w → step_within_protocol e w →
    reachable_within_protocol (state_after (do_step e) w).

(** *** Registration times *)

(** The time each registered identity entered the registry: after a
    step at time [now] that leaves the registry [registry], the members
    that had a time keep it and the new members get [now]. *)
Definition stamp_step (now : nat) (registry : list nat) (since : gmap nat nat) : gmap nat nat :=
  list_to_map ((λ s, (s, default now (since !! s))) <$> registry).

Fixpoint run_stamped (history : list step) (now : nat) (since : gmap nat nat) (w : world)
    : gmap nat nat * world :=
  match history with
  | [] => (since, w)
  | e :: rest =>
      let w' := state_after (do_step e) w in
      run_stamped rest (S now) (stamp_step now (suspenders (g_manager w')) since) w'
  end.

(** [s] is registered and no registered identity entered earlier. *)
Definition earliest_registered (since : gmap nat nat) (s : nat) : Prop :=
  ∃ t, since !! s = Some t ∧ ∀ s' t', since !! s' = Some t' → (t ≤ t')%nat.

(** *** What one call can do to the gate *)

Inductive gate_change (g : suspend_manager) : suspend_manager → Prop :=
| gate_unchanged : gate_change g g
| gate_registered s : gate_change g (register_in s g)
| gate_unregistered s : gate_change g (unregister_in s g)
| gate_cleared : gate_change g (clear_in g)
| gate_notified : gate_change g (wake g).

Definition call_effect (w w' : world) : Prop :=
  gate_change (g_manager w) (g_manager w')
  ∧ sc_running w' = sc_running w
  ∧ top_level w' = top_level w
  ∧ callbacks w' = callbacks w.

(** *** Notions used in the proofs *)

(** What a run of calls of other threads leaves of the state the loop
    thread relies on. *)
Definition others_effect (w w' : world) : Prop :=
  idle w'
  ∧ sysc_lock (g_manager w') = sysc_lock (g_manager w)
  ∧ is_suspended (g_manager w') = is_suspended (g_manager w)
  ∧ top_level w' = top_level w
  ∧ callbacks w' = callbacks w
  ∧ (sysc_notify (g_manager w) = NoWaiter → sysc_notify (g_manager w') = NoWaiter)
  ∧ (sysc_notify (g_manager w) = Notified → sysc_notify (g_manager w') = Notified)
  ∧ (sysc_notify (g_manager w) = Waiting →
     sysc_notify (g_manager w') = Notified
     ∨ (sysc_notify (g_manager w') = Waiting
        ∧ (suspenders (g_manager w) ≠ [] → suspenders (g_manager w') ≠ []))).

(** The two ways the wait can end: still blocked, the lock released
    (whatever the registry holds) ... *)
Definition still_asleep (w' : world) : Prop :=
  sysc_lock (g_manager w') = Unlocked
  ∧ sysc_notify (g_manager w') = Waiting.

(** ... or woken with the registry empty, the lock taken again. *)
Definition woke_on_empty (w' : world) : Prop :=
  suspenders (g_manager w') = []
  ∧ sysc_lock (g_manager w') = Locked
  ∧ sysc_notify (g_manager w') = NoWaiter.

(** What the wait, run as [m] from [w], leaves of the state of the
    loop thread, and how it ends. *)
Definition wait_ends (m : M unit) (w : world) : Prop :=
  idle (state_after m w)
  ∧ is_suspended (g_manager (state_after m w)) = is_suspended (g_manager w)
  ∧ top_level (state_after m w) = top_level w
  ∧ callbacks (state_after m w) = callbacks w
  ∧ ((result_of m w = Block ∧ still_asleep (state_after m w))
     ∨ (result_of m w = Ok tt ∧ woke_on_empty (state_after m w))).

(** [registry_matches_counters] on the registry and the objects alone. *)
Definition matches (reg : list nat) (objs : gmap nat suspender) : Prop :=
  NoDup reg ∧ ∀ s, s ∈ reg ↔ ∃ o, objs !! s = Some o ∧ 0 < m_pcount o.

(** [a] entered the registry before [b]. *)
Definition entered_before (since : gmap nat nat) (a b : nat) : Prop :=
  ∃ ta tb, since !! a = Some ta ∧ since !! b = Some tb ∧ (ta < tb)%nat.

(** The registry lists the registered identities in the order they
    entered, all before [now]. *)
Definition stamped (now : nat) (since : gmap nat nat) (reg : list nat) : Prop :=
  (∀ s, is_Some (since !! s) ↔ s ∈ reg)
  ∧ (∀ s t, since !! s = Some t → (t < now)%nat)
  ∧ StronglySorted (entered_before since) reg.

(** The four things a step can do to the registry. *)
Definition registry_step (reg reg' : list nat) : Prop :=
  reg' = reg
  ∨ (∃ s, reg' = stl_add_unique reg s)
  ∨ (∃ s, reg' = stl_remove_erase reg s)
  ∨ reg' = [].

(** ** Further notions: the handle and the gate *)

(** Every registered identity is a live handle whose counter is greater
    than 0. *)
Definition registered_are_active (w : world) : Prop :=
  ∀ s, s ∈ suspenders (g_manager w) →
       ∃ o, objects w !! s = Some o ∧ 0 < m_pcount o.

(** A step that is not the destructor of a handle at depth 2 or more. *)
Definition releases_on_destroy (e : step) (w : world) : Prop :=
  match e with
  | ByController (Destroy this) =>
      ∀ o, objects w !! this = Some o → m_pcount o ≤ 1
  | _ => True
  end.

(** The states reached when no handle is destroyed at depth 2 or more;
    [force_resume] and refused calls are allowed. *)
Inductive reachable_releasing : world → Prop :=
| releasing_boot running top : reachable_releasing (boot running top)
| releasing_step e w :
    reachable_releasing w → releases_on_destroy e w →
    reachable_releasing (state_after (do_step e) w).


(** * vcml/common/bitops.cpp *)

Module bitops.

(** Unsigned integers of 8, 16 and 32 bits are values of [Z]; the
    conversion to such a type keeps the low bits. *)
Definition u8 (x : Z) : Z := x mod 2 ^ 8.
Definition u16 (x : Z) : Z := x mod 2 ^ 16.
Definition u32 (x : Z) : Z := x mod 2 ^ 32.

(** [table[i]] for an index within the table. *)
Definition table_at (table : list Z) (i : Z) : Z := nth (Z.to_nat i) table 0.

(** [[i] = bit_reverse(i)] *)
Definition bitrev_table : list Z :=
  [
    0x00; 0x80; 0x40; 0xc0; 0x20; 0xa0; 0x60; 0xe0;
    0x10; 0x90; 0x50; 0xd0; 0x30; 0xb0; 0x70; 0xf0;
    0x08; 0x88; 0x48; 0xc8; 0x28; 0xa8; 0x68; 0xe8;
    0x18; 0x98; 0x58; 0xd8; 0x38; 0xb8; 0x78; 0xf8;
    0x04; 0x84; 0x44; 0xc4; 0x24; 0xa4; 0x64; 0xe4;
    0x14; 0x94; 0x54; 0xd4; 0x34; 0xb4; 0x74; 0xf4;
    0x0c; 0x8c; 0x4c; 0xcc; 0x2c; 0xac; 0x6c; 0xec;
    0x1c; 0x9c; 0x5c; 0xdc; 0x3c; 0xbc; 0x7c; 0xfc;
    0x02; 0x82; 0x42; 0xc2; 0x22; 0xa2; 0x62; 0xe2;
    0x12; 0x92; 0x52; 0xd2; 0x32; 0xb2; 0x72; 0xf2;
    0x0a; 0x8a; 0x4a; 0xca; 0x2a; 0xaa; 0x6a; 0xea;
    0x1a; 0x9a; 0x5a; 0xda; 0x3a; 0xba; 0x7a; 0xfa;
    0x06; 0x86; 0x46; 0xc6; 0x26; 0xa6; 0x66; 0xe6;
    0x16; 0x96; 0x56; 0xd6; 0x36; 0xb6; 0x76; 0xf6;
    0x0e; 0x8e; 0x4e; 0xce; 0x2e; 0xae; 0x6e; 0xee;
    0x1e; 0x9e; 0x5e; 0xde; 0x3e; 0xbe; 0x7e; 0xfe;
    0x01; 0x81; 0x41; 0xc1; 0x21; 0xa1; 0x61; 0xe1;
    0x11; 0x91; 0x51; 0xd1; 0x31; 0xb1; 0x71; 0xf1;
    0x09; 0x89; 0x49; 0xc9; 0x29; 0xa9; 0x69; 0xe9;
    0x19; 0x99; 0x59; 0xd9; 0x39; 0xb9; 0x79; 0xf9;
    0x05; 0x85; 0x45; 0xc5; 0x25; 0xa5; 0x65; 0xe5;
    0x15; 0x95; 0x55; 0xd5; 0x35; 0xb5; 0x75; 0xf5;
    0x0d; 0x8d; 0x4d; 0xcd; 0x2d; 0xad; 0x6d; 0xed;
    0x1d; 0x9d; 0x5d; 0xdd; 0x3d; 0xbd; 0x7d; 0xfd;
    0x03; 0x83; 0x43; 0xc3; 0x23; 0xa3; 0x63; 0xe3;
    0x13; 0x93; 0x53; 0xd3; 0x33; 0xb3; 0x73; 0xf3;
    0x0b; 0x8b; 0x4b; 0xcb; 0x2b; 0xab; 0x6b; 0xeb;
    0x1b; 0x9b; 0x5b; 0xdb; 0x3b; 0xbb; 0x7b; 0xfb;
    0x07; 0x87; 0x47; 0xc7; 0x27; 0xa7; 0x67; 0xe7;
    0x17; 0x97; 0x57; 0xd7; 0x37; 0xb7; 0x77; 0xf7;
    0x0f; 0x8f; 0x4f; 0xcf; 0x2f; 0xaf; 0x6f; 0xef;
    0x1f; 0x9f; 0x5f; 0xdf; 0x3f; 0xbf; 0x7f; 0xff
  ].

Definition crc7_table : list Z :=
  [
    0x00; 0x12; 0x24; 0x36; 0x48; 0x5a; 0x6c; 0x7e;
    0x90; 0x82; 0xb4; 0xa6; 0xd8; 0xca; 0xfc; 0xee;
    0x32; 0x20; 0x16; 0x04; 0x7a; 0x68; 0x5e; 0x4c;
    0xa2; 0xb0; 0x86; 0x94; 0xea; 0xf8; 0xce; 0xdc;
    0x64; 0x76; 0x40; 0x52; 0x2c; 0x3e; 0x08; 0x1a;
    0xf4; 0xe6; 0xd0; 0xc2; 0xbc; 0xae; 0x98; 0x8a;
    0x56; 0x44; 0x72; 0x60; 0x1e; 0x0c; 0x3a; 0x28;
    0xc6; 0xd4; 0xe2; 0xf0; 0x8e; 0x9c; 0xaa; 0xb8;
    0xc8; 0xda; 0xec; 0xfe; 0x80; 0x92; 0xa4; 0xb6;
    0x58; 0x4a; 0x7c; 0x6e; 0x10; 0x02; 0x34; 0x26;
    0xfa; 0xe8; 0xde; 0xcc; 0xb2; 0xa0; 0x96; 0x84;
    0x6a; 0x78; 0x4e; 0x5c; 0x22; 0x30; 0x06; 0x14;
    0xac; 0xbe; 0x88; 0x9a; 0xe4; 0xf6; 0xc0; 0xd2;
    0x3c; 0x2e; 0x18; 0x0a; 0x74; 0x66; 0x50; 0x42;
    0x9e; 0x8c; 0xba; 0xa8; 0xd6; 0xc4; 0xf2; 0xe0;
    0x0e; 0x1c; 0x2a; 0x38; 0x46; 0x54; 0x62; 0x70;
    0x82; 0x90; 0xa6; 0xb4; 0xca; 0xd8; 0xee; 0xfc;
    0x12; 0x00; 0x36; 0x24; 0x5a; 0x48; 0x7e; 0x6c;
    0xb0; 0xa2; 0x94; 0x86; 0xf8; 0xea; 0xdc; 0xce;
    0x20; 0x32; 0x04; 0x16; 0x68; 0x7a; 0x4c; 0x5e;
    0xe6; 0xf4; 0xc2; 0xd0; 0xae; 0xbc; 0x8a; 0x98;
    0x76; 0x64; 0x52; 0x40; 0x3e; 0x2c; 0x1a; 0x08;
    0xd4; 0xc6; 0xf0; 0xe2; 0x9c; 0x8e; 0xb8; 0xaa;
    0x44; 0x56; 0x60; 0x72; 0x0c; 0x1e; 0x28; 0x3a;
    0x4a; 0x58; 0x6e; 0x7c; 0x02; 0x10; 0x26; 0x34;
    0xda; 0xc8; 0xfe; 0xec; 0x92; 0x80; 0xb6; 0xa4;
    0x78; 0x6a; 0x5c; 0x4e; 0x30; 0x22; 0x14; 0x06;
    0xe8; 0xfa; 0xcc; 0xde; 0xa0; 0xb2; 0x84; 0x96;
    0x2e; 0x3c; 0x0a; 0x18; 0x66; 0x74; 0x42; 0x50;
    0xbe; 0xac; 0x9a; 0x88; 0xf6; 0xe4; 0xd2; 0xc0;
    0x1c; 0x0e; 0x38; 0x2a; 0x54; 0x46; 0x70; 0x62;
    0x8c; 0x9e; 0xa8; 0xba; 0xc4; 0xd6; 0xe0; 0xf2
  ].

(** [crc7(buffer, len, crc)]: the bytes of [buffer] in order. *)
Fixpoint crc7 (buffer : list Z) (crc : Z) : Z :=
  match buffer with
  | [] => crc
  | b :: rest => crc7 rest (table_at crc7_table (Z.lxor crc b))
  end.

Definition crc16_table : list Z :=
  [
    0x0000; 0x1021; 0x2042; 0x3063; 0x4084; 0x50a5; 0x60c6; 0x70e7;
    0x8108; 0x9129; 0xa14a; 0xb16b; 0xc18c; 0xd1ad; 0xe1ce; 0xf1ef;
    0x1231; 0x0210; 0x3273; 0x2252; 0x52b5; 0x4294; 0x72f7; 0x62d6;
    0x9339; 0x8318; 0xb37b; 0xa35a; 0xd3bd; 0xc39c; 0xf3ff; 0xe3de;
    0x2462; 0x3443; 0x0420; 0x1401; 0x64e6; 0x74c7; 0x44a4; 0x5485;
    0xa56a; 0xb54b; 0x8528; 0x9509; 0xe5ee; 0xf5cf; 0xc5ac; 0xd58d;
    0x3653; 0x2672; 0x1611; 0x0630; 0x76d7; 0x66f6; 0x5695; 0x46b4;
    0xb75b; 0xa77a; 0x9719; 0x8738; 0xf7df; 0xe7fe; 0xd79d; 0xc7bc;
    0x48c4; 0x58e5; 0x6886; 0x78a7; 0x0840; 0x1861; 0x2802; 0x3823;
    0xc9cc; 0xd9ed; 0xe98e; 0xf9af; 0x8948; 0x9969; 0xa90a; 0xb92b;
    0x5af5; 0x4ad4; 0x7ab7; 0x6a96; 0x1a71; 0x0a50; 0x3a33; 0x2a12;
    0xdbfd; 0xcbdc; 0xfbbf; 0xeb9e; 0x9b79; 0x8b58; 0xbb3b; 0xab1a;
    0x6ca6; 0x7c87; 0x4ce4; 0x5cc5; 0x2c22; 0x3c03; 0x0c60; 0x1c41;
    0xedae; 0xfd8f; 0xcdec; 0xddcd; 0xad2a; 0xbd0b; 0x8d68; 0x9d49;
    0x7e97; 0x6eb6; 0x5ed5; 0x4ef4; 0x3e13; 0x2e32; 0x1e51; 0x0e70;
    0xff9f; 0xefbe; 0xdfdd; 0xcffc; 0xbf1b; 0xaf3a; 0x9f59; 0x8f78;
    0x9188; 0x81a9; 0xb1ca; 0xa1eb; 0xd10c; 0xc12d; 0xf14e; 0xe16f;
    0x1080; 0x00a1; 0x30c2; 0x20e3; 0x5004; 0x4025; 0x7046; 0x6067;
    0x83b9; 0x9398; 0xa3fb; 0xb3da; 0xc33d; 0xd31c; 0xe37f; 0xf35e;
    0x02b1; 0x1290; 0x22f3; 0x32d2; 0x4235; 0x5214; 0x6277; 0x7256;
    0xb5ea; 0xa5cb; 0x95a8; 0x8589; 0xf56e; 0xe54f; 0xd52c; 0xc50d;
    0x34e2; 0x24c3; 0x14a0; 0x0481; 0x7466; 0x6447; 0x5424; 0x4405;
    0xa7db; 0xb7fa; 0x8799; 0x97b8; 0xe75f; 0xf77e; 0xc71d; 0xd73c;
    0x26d3; 0x36f2; 0x0691; 0x16b0; 0x6657; 0x7676; 0x4615; 0x5634;
    0xd94c; 0xc96d; 0xf90e; 0xe92f; 0x99c8; 0x89e9; 0xb98a; 0xa9ab;
    0x5844; 0x4865; 0x7806; 0x6827; 0x18c0; 0x08e1; 0x3882; 0x28a3;
    0xcb7d; 0xdb5c; 0xeb3f; 0xfb1e; 0x8bf9; 0x9bd8; 0xabbb; 0xbb9a;
    0x4a75; 0x5a54; 0x6a37; 0x7a16; 0x0af1; 0x1ad0; 0x2ab3; 0x3a92;
    0xfd2e; 0xed0f; 0xdd6c; 0xcd4d; 0xbdaa; 0xad8b; 0x9de8; 0x8dc9;
    0x7c26; 0x6c07; 0x5c64; 0x4c45; 0x3ca2; 0x2c83; 0x1ce0; 0x0cc1;
    0xef1f; 0xff3e; 0xcf5d; 0xdf7c; 0xaf9b; 0xbfba; 0x8fd9; 0x9ff8;
    0x6e17; 0x7e36; 0x4e55; 0x5e74; 0x2e93; 0x3eb2; 0x0ed1; 0x1ef0
  ].

(** [crc] is promoted to [int] for the shifts and converted back to
    [u16] by the assignment. *)
Fixpoint crc16 (buffer : list Z) (crc : Z) : Z :=
  match buffer with
  | [] => crc
  | b :: rest =>
      crc16 rest
        (u16 (Z.lxor (Z.shiftl crc 8)
                (table_at crc16_table
                   (Z.land (Z.lxor (Z.shiftr crc 8) b) 0xff))))
  end.

Definition CRC32_POLY : Z := 0x04c11db7.

(** One turn of the inner loop of [crc32], on the lowest bit of
    [byte]. *)
Definition crc32_bit (crc byte : Z) : Z :=
  if negb (Z.land (Z.lxor (Z.shiftr crc 31) byte) 1 =? 0)
  then Z.lxor (u32 (Z.shiftl crc 1)) CRC32_POLY
  else u32 (Z.shiftl crc 1).

(** The inner loop with [j] turns to go: [j++, byte >>= 1]. *)
Fixpoint crc32_byte (j : nat) (crc byte : Z) : Z :=
  match j with
  | O => crc
  | S j' => crc32_byte j' (crc32_bit crc byte) (Z.shiftr byte 1)
  end.

Fixpoint crc32 (buffer : list Z) (crc : Z) : Z :=
  match buffer with
  | [] => crc
  | b :: rest => crc32 rest (crc32_byte 8 crc b)
  end.

(** A value of type [u8]. *)
Definition is_u8 (b : Z) : Prop := 0 <= b < 256.

End bitops.

(** * vcml/protocols/eth.h *)

Module eth.

(** [size_t] arithmetic wraps at 64 bits. *)
Definition size_t (x : Z) : Z := x mod 2 ^ 64.

(** [array<u8, 6> bytes] *)
Record mac_addr := { bytes : list Z }.

(** [mac_addr(pkt, offset)]: the check, then [std::copy] of
    [bytes.size()] elements from [pkt.begin() + offset]; copying from
    beyond the end of [pkt] has no defined behaviour. *)
Definition mac_addr_of (pkt : list Z) (offset : Z) : outcome mac_addr :=
  if size_t (6 + offset) >? Z.of_nat (length pkt) then Throw "packet too small"
  else if offset + 6 >? Z.of_nat (length pkt) then Undef
  else Ok {| bytes := take 6 (drop (Z.to_nat offset) pkt) |}.

Definition is_multicast (a : mac_addr) : bool :=
  negb (Z.land (nth 0 (bytes a) 0) 1 =? 0).

Definition is_broadcast (a : mac_addr) : bool :=
  (fix loop (vals : list Z) : bool :=
     match vals with
     | [] => true
     | val :: rest => if negb (val =? 0xff) then false else loop rest
     end) (bytes a).

(** [eth_frame] is a [vector<u8>]. *)
Definition FRAME_HEADER_SIZE : Z := 14.
Definition FRAME_MIN_SIZE : Z := 64.
Definition FRAME_MAX_SIZE : Z := 1522.

Definition size (frame : list Z) : Z := Z.of_nat (length frame).

Definition payload_size (frame : list Z) : Z := size_t (size frame - FRAME_HEADER_SIZE).

Definition destination (frame : list Z) : outcome mac_addr := mac_addr_of frame 0.
Definition source (frame : list Z) : outcome mac_addr := mac_addr_of frame 6.

(** A member function of the address a frame function has built. *)
Definition of_address {A} (addr : outcome mac_addr) (f : mac_addr → A) : outcome A :=
  match addr with
  | Ok a => Ok (f a)
  | Throw msg => Throw msg
  | Block => Block
  | Undef => Undef
  end.

Definition frame_is_multicast (frame : list Z) : outcome bool :=
  of_address (destination frame) is_multicast.
Definition frame_is_broadcast (frame : list Z) : outcome bool :=
  of_address (destination frame) is_broadcast.

Definition valid (frame : list Z) : bool :=
  (size frame >=? FRAME_MIN_SIZE) && (size frame <=? FRAME_MAX_SIZE).

End eth.

(** * vcml/models/generic/memory.cpp *)

Module memory.

Inductive tlm_response_status :=
| TLM_OK_RESPONSE
| TLM_ADDRESS_ERROR_RESPONSE
| TLM_COMMAND_ERROR_RESPONSE.

(** The members of [range] and of [tlm_sbi] that [read] and [write]
    use: [addr.start], [addr.end], [addr.length()] and
    [info.is_debug]. *)
Record range := { start : Z; end_ : Z; length : Z }.
Record tlm_sbi := { is_debug : bool }.

(** The model: the [size] bytes at [m_memory] and the properties
    [size], [discard_writes] and [readonly]. *)
Record memory := {
  m_memory : list Z;
  size : Z;
  discard_writes : bool;
  readonly : bool
}.

Definition with_memory (contents : list Z) (m : memory) : memory :=
  {| m_memory := contents; size := size m;
     discard_writes := discard_writes m; readonly := readonly m |}.

Definition u64 (x : Z) : Z := x mod 2 ^ 64.

(** [memcpy(dest + off, src, n)] on the contents of the two buffers:
    [None] when it would leave one of them. *)
Definition memcpy_into (dest : list Z) (off : Z) (src : list Z) (n : Z) : option (list Z) :=
  if (0 <=? off) && (0 <=? n)
     && (off + n <=? Z.of_nat (List.length dest))
     && (n <=? Z.of_nat (List.length src))
  then Some (take (Z.to_nat off) dest ++ take (Z.to_nat n) src
             ++ drop (Z.to_nat (off + n)) dest)
  else None.

(** [read(addr, data, info)]: the status and the buffer [data]
    afterwards. *)
Definition read (m : memory) (addr : range) (data : list Z) (info : tlm_sbi)
    : outcome (tlm_response_status * list Z) :=
  if end_ addr >=? size m then Ok (TLM_ADDRESS_ERROR_RESPONSE, data)
  else
    match memcpy_into data 0 (drop (Z.to_nat (start addr)) (m_memory m)) (length addr) with
    | Some data' => Ok (TLM_OK_RESPONSE, data')
    | None => Undef
    end.

(** [write(addr, data, info)]: the status and the memory afterwards. *)
Definition write (m : memory) (addr : range) (data : list Z) (info : tlm_sbi)
    : outcome (tlm_response_status * memory) :=
  if end_ addr >=? size m then Ok (TLM_ADDRESS_ERROR_RESPONSE, m)
  else if negb (is_debug info) && discard_writes m then Ok (TLM_OK_RESPONSE, m)
  else if negb (is_debug info) && readonly m then Ok (TLM_COMMAND_ERROR_RESPONSE, m)
  else
    match memcpy_into (m_memory m) (start addr) data (length addr) with
    | Some contents => Ok (TLM_OK_RESPONSE, with_memory contents m)
    | None => Undef
    end.

(** [copy_image(image, sz, off)]; the first report is given with its
    format string. *)
Definition copy_image (m : memory) (image : list Z) (sz off : Z) : outcome memory :=
  if off >=? size m then Throw "offset 0x%lx exceeds memory size"
  else if u64 (sz + off) >? size m then Throw "image too big for memory"
  else
    match memcpy_into (m_memory m) off image sz with
    | Some contents => Ok (with_memory contents m)
    | None => Undef
    end.

(** The constructor's mapping: [mmap] is asked for [size + extra]
    bytes and answers [MAP_FAILED] ([None]) or with the address
    [m_base]; [m_memory] is computed from it. *)
Record mapping := { m_base : Z; mapped : Z; m_memory_at : Z }.

Definition ctor (sz alignment : Z) (mmap : Z → option Z) : outcome mapping :=
  if sz =? 0 then Throw "memory size cannot be 0"
  else if alignment >=? 64 then Throw "requested alignment too big"
  else
    let extra := u64 (u64 (Z.shiftl 1 alignment) - 1) in
    match mmap (u64 (sz + extra)) with
    | None => Throw "mmap failed: %s"
    | Some base =>
        Ok {| m_base := base; mapped := u64 (sz + extra);
              m_memory_at := Z.land (u64 (base + extra)) (u64 (Z.lnot extra)) |}
    end.

(** A range whose [length()] is the number of addresses from [start]
    to [end], both included. *)
Definition covers (addr : range) : Prop :=
  0 <= start addr <= end_ addr /\ length addr = end_ addr - start addr + 1.

(** The memory holds [size] bytes. *)
Definition allocated (m : memory) : Prop :=
  Z.of_nat (List.length (m_memory m)) = size m.

End memory.
(** ** Proof support *)

Ltac open_world w :=
  let g := fresh "g" in
  destruct w as [g ? ? ? ?]; destruct g as [? ? ? ? ?];
  unfold idle in *; cbn in *; subst.

Ltac unfold_gate :=
  unfold suspend_manager.request_pause, suspend_manager.request_resume,
    suspend_manager.is_suspending, suspend_manager.count,
    suspend_manager.current, suspend_manager.force_resume,
    suspend_manager.sc_is_running, spurious_wakeup,
    register, unregister, clear_all, register_in, unregister_in, clear_in,
    wake, woken, await_pause,
    lock_guard, sysc_lock_lock, sysc_lock_unlock, sysc_lock_try_lock,
    notify_all, cv_block, cv_wake, VCML_ERROR_ON, VCML_ERROR, when,
    state_after, result_of, bind, ret, gets, modify, blocked,
    with_manager, with_objects, with_callbacks, with_running,
    set_is_suspended, set_sysc_lock, set_sysc_notify, set_suspender_lock,
    set_suspenders in *.

Lemma stl_contains_true v t : stl_contains v t = true ↔ t ∈ v.
Proof. unfold stl_contains. apply bool_decide_eq_true. Qed.

Lemma stl_contains_false v t : stl_contains v t = false ↔ t ∉ v.
Proof. unfold stl_contains. apply bool_decide_eq_false. Qed.

Lemma stl_remove_erase_absent v t : t ∉ v → stl_remove_erase v t = v.
Proof.
  unfold stl_remove_erase. induction v as [|x v IH]; intros Hnot; [done|].
  apply not_elem_of_cons in Hnot as [Hne Hv].
  rewrite filter_cons_True by congruence. by rewrite IH.
Qed.

Lemma elem_of_stl_remove_erase v t x : x ∈ stl_remove_erase v t ↔ x ∈ v ∧ x ≠ t.
Proof. unfold stl_remove_erase. rewrite list_elem_of_filter. tauto. Qed.

Lemma elem_of_stl_add_unique v t x : x ∈ stl_add_unique v t ↔ x ∈ v ∨ x = t.
Proof.
  unfold stl_add_unique. destruct (stl_contains v t) eqn:E.
  - apply stl_contains_true in E. split; [auto|]. intros [?| ->]; done.
  - rewrite elem_of_app, list_elem_of_singleton. tauto.
Qed.

(** *** The gate's operations between calls *)

Section gate_equations.
Variable w : world.
Hypothesis Hidle : idle w.

Lemma request_pause_eq s :
  suspend_manager.request_pause s w =
  if sc_running w then (Ok tt, register s w)
  else (Throw "cannot suspend, simulation not running", w).
Proof using Hidle. open_world w. unfold_gate. cbn. by destruct sc_running0. Qed.

Lemma request_resume_eq s :
  suspend_manager.request_resume s w = (Ok tt, unregister s w).
Proof using Hidle.
  open_world w. unfold_gate. cbn.
  destruct (filter _ suspenders0) eqn:E; cbn; [|done].
  by destruct sysc_notify0.
Qed.

Lemma is_suspending_eq s :
  suspend_manager.is_suspending s w =
  (Ok (stl_contains (suspenders (g_manager w)) s), w).
Proof using Hidle. open_world w. by unfold_gate. Qed.

Lemma count_eq :
  suspend_manager.count w = (Ok (length (suspenders (g_manager w))), w).
Proof using Hidle. open_world w. by unfold_gate. Qed.

Lemma current_eq :
  suspend_manager.current w =
  (Ok (match sysc_lock (g_manager w) with
       | Locked => None
       | Unlocked => head (suspenders (g_manager w))
       end), w).
Proof using Hidle.
  open_world w. unfold_gate. cbn.
  destruct sysc_lock0; cbn; [|done]. by destruct suspenders0.
Qed.

Lemma force_resume_eq :
  suspend_manager.force_resume w = (Ok tt, clear_all w).
Proof using Hidle. open_world w. unfold_gate. cbn. by destruct sysc_notify0. Qed.

End gate_equations.

Lemma request_pause_stopped s w :
  sc_running w = false →
  suspend_manager.request_pause s w =
  (Throw "cannot suspend, simulation not running", w).
Proof. intros H. unfold_gate. by rewrite H. Qed.

Lemma idle_unregister s w : idle (unregister s w) ↔ idle w.
Proof.
  unfold idle, unregister, unregister_in, wake. cbn.
  by destruct (stl_remove_erase (suspenders (g_manager w)) s).
Qed.

Lemma idle_clear_all w : idle (clear_all w) ↔ idle w.
Proof. done. Qed.

(** *** The handle's operations between calls *)

Section handle_equations.
Variables (this : nat) (w : world) (o : suspender).
Hypothesis Hidle : idle w.
Hypothesis Hobj : objects w !! this = Some o.

Lemma deref_eq : suspender.deref this w = (Ok o, w).
Proof using Hobj. unfold suspender.deref. by rewrite Hobj. Qed.

Lemma set_pcount_eq n :
  suspender.set_pcount this n w =
  (Ok tt, with_objects <[this := with_pcount n o]> w).
Proof using Hobj. unfold suspender.set_pcount, bind. by rewrite deref_eq. Qed.

Lemma pcount_post_increment_eq :
  suspender.pcount_post_increment this w =
  (Ok (m_pcount o), with_objects <[this := with_pcount (m_pcount o + 1) o]> w).
Proof using Hobj.
  unfold suspender.pcount_post_increment, bind.
  by rewrite deref_eq, set_pcount_eq.
Qed.

Lemma pcount_pre_decrement_eq :
  suspender.pcount_pre_decrement this w =
  (Ok (m_pcount o - 1), with_objects <[this := with_pcount (m_pcount o - 1) o]> w).
Proof using Hobj.
  unfold suspender.pcount_pre_decrement, bind.
  by rewrite deref_eq, set_pcount_eq.
Qed.

(** [suspend]: the counter goes up; on the step from 0 the identity is
    registered, unless the simulation is not running. *)
Lemma suspend_eq wait caller :
  suspender.suspend this wait caller w =
  let w1 := with_objects <[this := with_pcount (m_pcount o + 1) o]> w in
  if m_pcount o =? 0 then
    if sc_running w then (await_pause wait caller w, register this w1)
    else (Throw "cannot suspend, simulation not running", w1)
  else (await_pause wait caller w, w1).
Proof using Hidle Hobj.
  unfold suspender.suspend, bind. rewrite pcount_post_increment_eq.
  assert (Hwait : ∀ w', sysc_lock (g_manager w') = sysc_lock (g_manager w) →
    when (wait && negb (thctl_is_sysc_thread caller))
      (sysc_lock_lock ;; sysc_lock_unlock) w' = (await_pause wait caller w, w')).
  { intros w' Hsame. unfold await_pause, when. rewrite <- Hsame.
    destruct (wait && negb _); [|done].
    unfold bind, sysc_lock_lock, sysc_lock_unlock, modify.
    destruct (sysc_lock (g_manager w')) eqn:E; [|done].
    destruct w' as [[? ? ? ? ?] ? ? ? ?]. cbn in *. by subst. }
  cbn zeta. destruct (m_pcount o =? 0); unfold when at 1.
  - rewrite request_pause_eq by done.
    change (sc_running (with_objects _ w)) with (sc_running w).
    destruct (sc_running w); [|done]. by rewrite Hwait.
  - unfold ret at 1. by rewrite Hwait.
Qed.

(** [resume]: the counter goes down; on reaching 0 the identity is
    removed; a counter below 0 is reported. *)
Lemma resume_eq :
  suspender.resume this w =
  let w1 := with_objects <[this := with_pcount (m_pcount o - 1) o]> w in
  if m_pcount o - 1 =? 0 then (Ok tt, unregister this w1)
  else if m_pcount o - 1 <? 0 then (Throw "unmatched resume", w1)
  else (Ok tt, w1).
Proof using Hidle Hobj.
  unfold suspender.resume, bind. rewrite pcount_pre_decrement_eq. cbn zeta.
  destruct (m_pcount o - 1 =? 0) eqn:Hz; unfold when.
  - rewrite request_resume_eq by done.
    unfold suspender.deref.
    change (objects (unregister this ?x)) with (objects x). cbn [objects with_objects].
    rewrite lookup_insert_eq. cbn.
    apply Z.eqb_eq in Hz. rewrite Hz. done.
  - unfold ret at 1. unfold suspender.deref. cbn [objects with_objects].
    rewrite lookup_insert_eq. cbn. by destruct (m_pcount o - 1 <? 0).
Qed.

(** The destructor: one [resume] if the identity is registered, then
    the object is gone. *)
Lemma dtor_eq :
  suspender.dtor this w =
  if stl_contains (suspenders (g_manager w)) this then
    let w1 := with_objects <[this := with_pcount (m_pcount o - 1) o]> w in
    if m_pcount o - 1 =? 0 then (Ok tt, with_objects (delete this) (unregister this w))
    else if m_pcount o - 1 <? 0 then (Throw "unmatched resume", w1)
    else (Ok tt, with_objects (delete this) w)
  else (Ok tt, with_objects (delete this) w).
Proof using Hidle Hobj.
  unfold suspender.dtor, suspender.is_suspending, bind.
  rewrite deref_eq, is_suspending_eq by done.
  destruct (stl_contains _ _); unfold when.
  - rewrite resume_eq. cbn zeta.
    destruct (m_pcount o - 1 =? 0).
    + unfold modify, unregister, with_objects, with_manager. cbn.
      by rewrite delete_insert_eq.
    + destruct (m_pcount o - 1 <? 0); [done|].
      unfold modify, with_objects. cbn. by rewrite delete_insert_eq.
  - done.
Qed.

End handle_equations.

Lemma deref_dead this w :
  objects w !! this = None → suspender.deref this w = (Undef, w).
Proof. intros H. unfold suspender.deref. by rewrite H. Qed.

Lemma count_result_frame w w' :
  g_manager w' = g_manager w →
  result_of suspend_manager.count w' = result_of suspend_manager.count w.
Proof.
  intros Hg. unfold result_of, suspend_manager.count, lock_guard, gets.
  cbn. rewrite Hg. destruct (suspender_lock (g_manager w)); cbn; by rewrite ?Hg.
Qed.

(** *** Sequencing *)

Lemma repeat_call_add a b m w :
  repeat_call (a + b) m w = (repeat_call a m ;; repeat_call b m) w.
Proof.
  revert w. induction a as [|a IH]; intros w; [done|].
  cbn [repeat_call Nat.add]. unfold bind.
  destruct (m w) as [[| | |] w1]; done.
Qed.

Lemma with_pcount_same o : with_pcount (m_pcount o) o = o.
Proof. by destruct o. Qed.

Lemma suspenders_unregister s w :
  suspenders (g_manager (unregister s w)) = stl_remove_erase (suspenders (g_manager w)) s.
Proof.
  unfold unregister, unregister_in, wake. cbn.
  by destruct (stl_remove_erase (suspenders (g_manager w)) s) eqn:E.
Qed.

Lemma sysc_lock_unregister s w :
  sysc_lock (g_manager (unregister s w)) = sysc_lock (g_manager w).
Proof.
  unfold unregister, unregister_in, wake. cbn.
  by destruct (stl_remove_erase (suspenders (g_manager w)) s).
Qed.

Lemma suspenders_clear_all w : suspenders (g_manager (clear_all w)) = [].
Proof. done. Qed.

(** Nested [suspend] and [resume] move the counter only. *)
Lemma suspend_nested this wait caller k w o :
  idle w → objects w !! this = Some o → 0 < m_pcount o →
  await_pause wait caller w = Ok tt →
  ∃ w', repeat_call k (suspender.suspend this wait caller) w = (Ok tt, w')
    ∧ g_manager w' = g_manager w
    ∧ objects w' = <[this := with_pcount (m_pcount o + Z.of_nat k) o]> (objects w).
Proof.
  revert w o. induction k as [|k IH]; intros w o Hidle Hobj Hpos Hgo.
  - exists w. split; [done|]. split; [done|].
    rewrite Z.add_0_r, with_pcount_same. by rewrite insert_id.
  - cbn [repeat_call]. unfold bind.
    rewrite (suspend_eq this w o Hidle Hobj). cbn zeta.
    destruct (Z.eqb_spec (m_pcount o) 0) as [?|_]; [lia|]. rewrite Hgo.
    destruct (IH (with_objects <[this := with_pcount (m_pcount o + 1) o]> w)
                 (with_pcount (m_pcount o + 1) o)) as (w' & Hrun & Hg & Hobjs).
    + done.
    + cbn. by rewrite lookup_insert_eq.
    + cbn. lia.
    + done.
    + exists w'. split; [done|]. split; [done|].
      rewrite Hobjs. cbn. rewrite insert_insert_eq. f_equal.
      unfold with_pcount. cbn. f_equal. lia.
Qed.

Lemma resume_nested this k w o :
  idle w → objects w !! this = Some o → Z.of_nat k < m_pcount o →
  ∃ w', repeat_call k (suspender.resume this) w = (Ok tt, w')
    ∧ g_manager w' = g_manager w
    ∧ objects w' = <[this := with_pcount (m_pcount o - Z.of_nat k) o]> (objects w).
Proof.
  revert w o. induction k as [|k IH]; intros w o Hidle Hobj Hlt.
  - exists w. split; [done|]. split; [done|].
    rewrite Z.sub_0_r, with_pcount_same. by rewrite insert_id.
  - cbn [repeat_call]. unfold bind.
    rewrite (resume_eq this w o Hidle Hobj). cbn zeta.
    destruct (Z.eqb_spec (m_pcount o - 1) 0) as [?|_]; [lia|].
    destruct (Z.ltb_spec (m_pcount o - 1) 0) as [?|_]; [lia|].
    destruct (IH (with_objects <[this := with_pcount (m_pcount o - 1) o]> w)
                 (with_pcount (m_pcount o - 1) o)) as (w' & Hrun & Hg & Hobjs).
    + done.
    + cbn. by rewrite lookup_insert_eq.
    + cbn. lia.
    + exists w'. split; [done|]. split; [done|].
      rewrite Hobjs. cbn. rewrite insert_insert_eq. f_equal.
      unfold with_pcount. cbn. f_equal. lia.
Qed.

(** *** The hierarchy *)

Lemma sc_object_ind (P : sc_object → Prop) :
  (∀ name is_mod children, Forall P children → P (SCObject name is_mod children)) →
  ∀ obj, P obj.
Proof.
  intros Hnode. fix IH 1. intros [name is_mod children]. apply Hnode.
  induction children as [|c cs IHcs]; constructor; [apply IH|apply IHcs].
Qed.

Lemma with_callbacks_app a b w :
  with_callbacks (λ t, t ++ b) (with_callbacks (λ t, t ++ a) w) =
  with_callbacks (λ t, t ++ (a ++ b)) w.
Proof. unfold with_callbacks. cbn. by rewrite app_assoc. Qed.

Lemma with_callbacks_nil w : with_callbacks (λ t, t ++ []) w = w.
Proof. destruct w. unfold with_callbacks. cbn. by rewrite app_nil_r. Qed.

(** A traversal that tells each module once, children first. *)
Lemma for_each_callbacks (visit : sc_object → M unit) (tell : string → callback) objs :
  Forall (λ obj, ∀ w, visit obj w =
            (Ok tt, with_callbacks (λ t, t ++ (tell <$> modules_children_first obj)) w)) objs →
  ∀ w, for_each visit objs w =
       (Ok tt, with_callbacks (λ t, t ++ (tell <$> flat_map modules_children_first objs)) w).
Proof.
  induction 1 as [|obj objs Hobj _ IH]; intros w; cbn [for_each flat_map].
  - unfold ret. by rewrite with_callbacks_nil.
  - unfold bind. rewrite Hobj. fold (for_each visit objs).
    by rewrite IH, with_callbacks_app, fmap_app.
Qed.

Lemma notify_suspend_obj_eq obj w :
  suspend_manager.notify_suspend_obj obj w =
  (Ok tt, with_callbacks (λ t, t ++ (session_suspend <$> modules_children_first obj)) w).
Proof.
  revert w. induction obj as [name is_mod children IH] using sc_object_ind. intros w.
  cbn [suspend_manager.notify_suspend_obj modules_children_first]. unfold bind.
  rewrite (for_each_callbacks _ session_suspend children IH).
  rewrite fmap_app. destruct is_mod; unfold when, modify, ret.
  - by rewrite with_callbacks_app.
  - by rewrite app_nil_r.
Qed.

Lemma notify_resume_obj_eq obj w :
  suspend_manager.notify_resume_obj obj w =
  (Ok tt, with_callbacks (λ t, t ++ (session_resume <$> modules_children_first obj)) w).
Proof.
  revert w. induction obj as [name is_mod children IH] using sc_object_ind. intros w.
  cbn [suspend_manager.notify_resume_obj modules_children_first]. unfold bind.
  rewrite (for_each_callbacks _ session_resume children IH).
  rewrite fmap_app. destruct is_mod; unfold when, modify, ret.
  - by rewrite with_callbacks_app.
  - by rewrite app_nil_r.
Qed.

Lemma notify_suspend_eq w :
  suspend_manager.notify_suspend None w =
  (Ok tt, with_callbacks (λ t, t ++ pause_callbacks (top_level w)) w).
Proof.
  unfold suspend_manager.notify_suspend, bind, gets, pause_callbacks.
  apply for_each_callbacks, Forall_forall. intros obj _ w'. apply notify_suspend_obj_eq.
Qed.

Lemma notify_resume_eq w :
  suspend_manager.notify_resume None w =
  (Ok tt, with_callbacks (λ t, t ++ resume_callbacks (top_level w)) w).
Proof.
  unfold suspend_manager.notify_resume, bind, gets, resume_callbacks.
  apply for_each_callbacks, Forall_forall. intros obj _ w'. apply notify_resume_obj_eq.
Qed.

Lemma modules_orders_permutation obj :
  modules_children_first obj ≡ₚ modules_root_first obj.
Proof.
  induction obj as [name is_mod children IH] using sc_object_ind.
  cbn [modules_children_first modules_root_first].
  rewrite (comm (++) (flat_map _ _)). f_equiv.
  induction IH as [|c cs Hc _ IHcs]; cbn [flat_map]; [done|].
  by rewrite Hc, IHcs.
Qed.

Lemma forest_orders_permutation objs :
  flat_map modules_children_first objs ≡ₚ flat_map modules_root_first objs.
Proof.
  induction objs as [|c cs IH]; cbn [flat_map]; [done|].
  by rewrite modules_orders_permutation, IH.
Qed.

(** *** What one call of a controller thread can do *)

Lemma notify_all_eq w : notify_all w = (Ok tt, with_manager wake w).
Proof.
  destruct w as [[? ? n ? ?] ? ? ? ?]. unfold notify_all, modify, with_manager, wake, woken.
  cbn. by destruct n.
Qed.

Lemma perform_effect c w : idle w → call_effect w (state_after (perform c) w).
Proof.
  intros Hidle. unfold call_effect, state_after.
  destruct c as [this name top|this|this wait|this|this| | | |]; cbn [perform].
  - unfold suspender.ctor. destruct (objects w !! this); cbn;
      repeat split; first [done|constructor].
  - destruct (objects w !! this) as [o|] eqn:Hobj.
    + rewrite (dtor_eq this w o Hidle Hobj).
      destruct (stl_contains _ _); cbn zeta;
        [destruct (_ =? 0); [|destruct (_ <? 0)]|]; cbn;
        repeat split; first [done|constructor].
    + unfold suspender.dtor, bind. rewrite deref_dead by done.
      cbn. repeat split; first [done|constructor].
  - destruct (objects w !! this) as [o|] eqn:Hobj.
    + rewrite (suspend_eq this w o Hidle Hobj). cbn zeta.
      destruct (_ =? 0); [destruct (sc_running w) eqn:Hrun|]; cbn;
        repeat split; first [done|constructor].
    + unfold suspender.suspend, suspender.pcount_post_increment, bind.
      rewrite deref_dead by done. cbn. repeat split; first [done|constructor].
  - destruct (objects w !! this) as [o|] eqn:Hobj.
    + rewrite (resume_eq this w o Hidle Hobj). cbn zeta.
      destruct (_ =? 0); [|destruct (_ <? 0)]; cbn;
        repeat split; first [done|constructor].
    + unfold suspender.resume, suspender.pcount_pre_decrement, bind.
      rewrite deref_dead by done. cbn. repeat split; first [done|constructor].
  - unfold suspender.is_suspending, bind. rewrite is_suspending_eq by done.
    cbn. repeat split; first [done|constructor].
  - unfold suspender.current, bind. rewrite current_eq by done.
    cbn. repeat split; first [done|constructor].
  - unfold suspender.force_resume. rewrite force_resume_eq by done.
    cbn. repeat split; first [done|constructor].
  - cbn. repeat split; first [done|constructor].
  - unfold spurious_wakeup. rewrite notify_all_eq. cbn.
    repeat split; first [done|constructor].
Qed.

Lemma gate_change_facts g g' :
  suspender_lock g = Unlocked →
  gate_change g g' →
  suspender_lock g' = Unlocked
  ∧ sysc_lock g' = sysc_lock g
  ∧ is_suspended g' = is_suspended g
  ∧ (sysc_notify g' = sysc_notify g ∨ sysc_notify g' = woken (sysc_notify g))
  ∧ (suspenders g' = [] → suspenders g ≠ [] → sysc_notify g' = woken (sysc_notify g))
  ∧ (suspenders g' = suspenders g
     ∨ (∃ s, suspenders g' = stl_add_unique (suspenders g) s)
     ∨ (∃ s, suspenders g' = stl_remove_erase (suspenders g) s)
     ∨ suspenders g' = []).
Proof.
  intros Hlock [|s|s| |]; cbn.
  - repeat split; try done; auto.
  - repeat split; try done; [auto| |eauto].
    intros Hnil Hne. unfold stl_add_unique in Hnil.
    destruct (stl_contains _ _); [done|]. by destruct (suspenders g).
  - unfold unregister_in.
    destruct (stl_remove_erase (suspenders g) s) eqn:E; cbn;
      repeat split; try done; auto; right; right; left; exists s; by rewrite E.
  - repeat split; try done; auto.
  - repeat split; try done; auto.
Qed.

(** *** Other threads, while the loop thread is inside [handle_requests] *)

Lemma others_effect_refl w : idle w → others_effect w w.
Proof. intros H. unfold others_effect. repeat split; auto. Qed.

Lemma perform_others_effect c w :
  idle w → others_effect w (state_after (perform c) w).
Proof.
  intros Hidle. destruct (perform_effect c w Hidle) as (Hgate & _ & Htop & Hcalls).
  destruct (gate_change_facts _ _ Hidle Hgate)
    as (Hidle' & Hlock & Hflag & Hnotify & Hwake & _).
  unfold others_effect. repeat split; try done.
  - intros Hn. rewrite Hn in Hnotify. by destruct Hnotify.
  - intros Hn. rewrite Hn in Hnotify. by destruct Hnotify.
  - intros Hn. rewrite Hn in Hnotify, Hwake. cbn in *.
    destruct Hnotify as [Hsame|Hwoken]; [|by left].
    right. split; [done|]. intros Hne Hnil.
    specialize (Hwake Hnil Hne). congruence.
Qed.

Lemma others_effect_trans w1 w2 w3 :
  others_effect w1 w2 → others_effect w2 w3 → others_effect w1 w3.
Proof.
  intros (Hi1 & Hl1 & Hf1 & Ht1 & Hc1 & Hn1 & Hd1 & Hw1)
         (Hi2 & Hl2 & Hf2 & Ht2 & Hc2 & Hn2 & Hd2 & Hw2).
  unfold others_effect. repeat split; try congruence; auto.
  intros Hwait. destruct (Hw1 Hwait) as [Hnot|[Hstill Hne]]; [left; auto|].
  destruct (Hw2 Hstill) as [Hnot|[Hstill' Hne']]; [by left|].
  right. split; auto.
Qed.

Lemma concurrently_calls cs w :
  idle w →
  result_of (concurrently (by_others cs)) w = Ok tt
  ∧ others_effect w (state_after (concurrently (by_others cs)) w).
Proof.
  revert w. induction cs as [|c cs IH]; intros w Hidle.
  - split; [done|]. by apply others_effect_refl.
  - pose proof (perform_others_effect c w Hidle) as Hc.
    destruct (IH (state_after (perform c) w)) as [Hres Hrest]; [apply Hc|].
    split; [exact Hres|]. exact (others_effect_trans _ _ _ Hc Hrest).
Qed.

(** The predicate of the wait: [count() == 0]. *)
Lemma no_requests_eq w :
  idle w →
  suspend_manager.no_requests w =
  (Ok (bool_decide (suspenders (g_manager w) = [])), w).
Proof.
  intros Hidle. unfold suspend_manager.no_requests, bind. rewrite count_eq by done. unfold ret.
  by destruct (suspenders (g_manager w)).
Qed.

Lemma cv_block_eq w :
  cv_block w =
  (Ok tt, with_manager (λ g, set_sysc_notify Waiting (set_sysc_lock Unlocked g)) w).
Proof. done. Qed.

Lemma cv_wake_eq w :
  sysc_lock (g_manager w) = Unlocked →
  cv_wake w =
  (Ok tt, with_manager (λ g, set_sysc_lock Locked (set_sysc_notify NoWaiter g)) w).
Proof.
  intros Hlock. unfold cv_wake, bind, modify, sysc_lock_lock. cbn. by rewrite Hlock.
Qed.

(** The two halves of the wait, unfolded once. *)
Lemma cv_wait_eq pred during :
  cv_wait pred during =
  (p <- pred ;;
   if p then ret tt
   else
     match during with
     | [] => cv_block ;; blocked
     | gap :: rest => concurrently gap ;; cv_block ;; cv_sleep pred rest
     end).
Proof. by destruct during. Qed.

Lemma cv_sleep_cons pred others rest :
  cv_sleep pred (others :: rest) =
  (concurrently others ;;
   n <- gets (fun w => sysc_notify (g_manager w)) ;;
   match n with
   | Notified => cv_wake ;; cv_wait pred rest
   | _ => cv_sleep pred rest
   end).
Proof. done. Qed.

(** The wait from its two starting points: at [pred()], the loop thread
    holding [sysc_lock] and not waiting; and blocked. *)
Lemma cv_wait_sleep_spec (during : list (list call)) :
  (∀ w, idle w →
        sysc_lock (g_manager w) = Locked →
        sysc_notify (g_manager w) = NoWaiter →
        wait_ends (cv_wait suspend_manager.no_requests (map by_others during)) w)
  ∧ (∀ w, idle w →
          sysc_lock (g_manager w) = Unlocked →
          sysc_notify (g_manager w) = Waiting →
          wait_ends (cv_sleep suspend_manager.no_requests (map by_others during)) w).
Proof.
  induction during as [|chunk during [IHwait IHsleep]].
  - split; intros w Hidle Hlock Hnotify.
    + unfold wait_ends, result_of, state_after.
      destruct (cv_wait _ _ w) as [r w'] eqn:Hrun. cbn [fst snd].
      cbn [map] in Hrun. rewrite cv_wait_eq in Hrun. unfold bind at 1 in Hrun.
      rewrite no_requests_eq in Hrun by done.
      destruct (bool_decide_reflect (suspenders (g_manager w) = [])) as [Hnil|Hsome].
      * injection Hrun as <- <-. repeat split; try done. right. by repeat split.
      * unfold bind in Hrun. rewrite cv_block_eq in Hrun. injection Hrun as <- <-.
        repeat split; try done. left. by repeat split.
    + unfold wait_ends. cbn. repeat split; try done. left. by repeat split.
  - split; intros w Hidle Hlock Hnotify.
    + unfold wait_ends, result_of, state_after.
      destruct (cv_wait _ _ w) as [r w'] eqn:Hrun. cbn [fst snd].
      cbn [map] in Hrun. rewrite cv_wait_eq in Hrun. unfold bind at 1 in Hrun.
      rewrite no_requests_eq in Hrun by done.
      destruct (bool_decide_reflect (suspenders (g_manager w) = [])) as [Hnil|Hsome].
      * injection Hrun as <- <-. repeat split; try done. right. by repeat split.
      * unfold bind at 1 in Hrun.
        destruct (concurrently_calls chunk w Hidle) as [Hres Hothers].
        unfold result_of, state_after in Hres, Hothers.
        destruct (concurrently (by_others chunk) w) as [r1 w1]. cbn in Hres, Hothers.
        subst r1.
        destruct Hothers as (Hidle1 & Hlock1 & Hflag1 & Htop1 & Hcalls1 & _).
        unfold bind at 1 in Hrun. rewrite cv_block_eq in Hrun.
        set (w2 := with_manager _ w1) in Hrun.
        destruct (IHsleep w2) as (Hi & Hf & Ht & Hc & Hend); try done.
        unfold result_of, state_after in Hi, Hf, Ht, Hc, Hend.
        rewrite Hrun in Hi, Hf, Ht, Hc, Hend. cbn [fst snd] in Hi, Hf, Ht, Hc, Hend.
        split; [done|]. split; [by rewrite Hf|]. split; [by rewrite Ht|].
        split; [by rewrite Hc|done].
    + unfold wait_ends, result_of, state_after.
      destruct (cv_sleep _ _ w) as [r w'] eqn:Hrun. cbn [fst snd].
      cbn [map] in Hrun. rewrite cv_sleep_cons in Hrun. unfold bind at 1 in Hrun.
      destruct (concurrently_calls chunk w Hidle) as [Hres Hothers].
      unfold result_of, state_after in Hres, Hothers.
      destruct (concurrently (by_others chunk) w) as [r1 w1]. cbn in Hres, Hothers.
      subst r1.
      destruct Hothers as (Hidle1 & Hlock1 & Hflag1 & Htop1 & Hcalls1 & _ & _ & Hwake).
      rewrite Hlock in Hlock1.
      unfold bind at 1, gets at 1 in Hrun.
      destruct (Hwake Hnotify) as [Hnot|[Hstill _]].
      * (* notified: wake up, back at the predicate *)
        rewrite Hnot in Hrun. unfold bind at 1 in Hrun.
        rewrite cv_wake_eq in Hrun by done.
        set (w2 := with_manager _ w1) in Hrun.
        destruct (IHwait w2) as (Hi & Hf & Ht & Hc & Hend); try done.
        unfold result_of, state_after in Hi, Hf, Ht, Hc, Hend.
        rewrite Hrun in Hi, Hf, Ht, Hc, Hend. cbn [fst snd] in Hi, Hf, Ht, Hc, Hend.
        split; [done|]. split; [by rewrite Hf|]. split; [by rewrite Ht|].
        split; [by rewrite Hc|done].
      * (* not notified: blocked on *)
        rewrite Hstill in Hrun.
        destruct (IHsleep w1) as (Hi & Hf & Ht & Hc & Hend); try done.
        unfold result_of, state_after in Hi, Hf, Ht, Hc, Hend.
        rewrite Hrun in Hi, Hf, Ht, Hc, Hend. cbn [fst snd] in Hi, Hf, Ht, Hc, Hend.
        split; [done|]. split; [congruence|]. split; [congruence|].
        split; [congruence|done].
Qed.

Lemma cv_sleep_spec (during : list (list call)) w :
  idle w →
  sysc_lock (g_manager w) = Unlocked →
  sysc_notify (g_manager w) = Waiting →
  wait_ends (cv_sleep suspend_manager.no_requests (map by_others during)) w.
Proof. apply cv_wait_sleep_spec. Qed.


(** A call that returns hands its result and state to what follows. *)
Lemma bind_ok {A B} (m : M A) (k : A → M B) w a w' :
  m w = (Ok a, w') → bind m k w = k a w'.
Proof. intros H. unfold bind. by rewrite H. Qed.

(** With no call of another thread the blocked thread stays blocked. *)
Lemma cv_sleep_quiet n w :
  sysc_notify (g_manager w) = Waiting →
  cv_sleep suspend_manager.no_requests (map by_others (replicate n [])) w = (Block, w).
Proof.
  intros Hwait. induction n as [|n IH]; [done|].
  cbn [replicate map]. rewrite cv_sleep_cons. unfold bind. cbn [by_others map concurrently].
  unfold ret, gets. by rewrite Hwait.
Qed.

(** Releasing the only registered identity empties the registry and
    notifies. *)
Lemma unregister_last s w :
  suspenders (g_manager w) = [s] →
  unregister s w = with_manager (λ g, wake (set_suspenders [] g)) w.
Proof.
  intros Hreg. unfold unregister, with_manager, unregister_in.
  unfold stl_remove_erase. rewrite Hreg, filter_cons_False by tauto.
  by rewrite filter_nil.
Qed.

(** *** Registry and counters *)

Lemma elem_of_active_identities w s :
  s ∈ active_identities w ↔ ∃ o, objects w !! s = Some o ∧ 0 < m_pcount o.
Proof.
  unfold active_identities. rewrite elem_of_dom. unfold is_Some.
  setoid_rewrite map_lookup_filter_Some. cbn. reflexivity.
Qed.

Lemma registry_matches_counters_alt w :
  registry_matches_counters w ↔ matches (suspenders (g_manager w)) (objects w).
Proof.
  unfold registry_matches_counters, matches.
  by setoid_rewrite elem_of_active_identities.
Qed.

Lemma NoDup_stl_add_unique reg s : NoDup reg → NoDup (stl_add_unique reg s).
Proof.
  intros Hnd. unfold stl_add_unique. destruct (stl_contains reg s) eqn:E; [done|].
  apply stl_contains_false in E. apply NoDup_app. split; [done|].
  split; [|apply NoDup_singleton]. intros x Hx ->%list_elem_of_singleton. done.
Qed.

Lemma NoDup_stl_remove_erase reg s : NoDup reg → NoDup (stl_remove_erase reg s).
Proof. apply NoDup_filter. Qed.

Lemma matches_keep reg objs this o n :
  matches reg objs →
  objs !! this = Some o → (0 < m_pcount o ↔ 0 < n) →
  matches reg (<[this := with_pcount n o]> objs).
Proof.
  intros [Hnd Hiff] Hobj Hsame. split; [done|]. intros s.
  rewrite Hiff. destruct (decide (s = this)) as [->|Hne].
  - rewrite lookup_insert_eq, Hobj. cbn. split; intros (o' & [= <-] & Hpos); eexists;
      (split; [done|]); cbn in *; tauto.
  - by rewrite lookup_insert_ne.
Qed.

Lemma matches_activate reg objs this o n :
  matches reg objs →
  objs !! this = Some o → 0 < n →
  matches (stl_add_unique reg this) (<[this := with_pcount n o]> objs).
Proof.
  intros [Hnd Hiff] Hobj Hpos.
  split; [by apply NoDup_stl_add_unique|]. intros s.
  rewrite elem_of_stl_add_unique, Hiff. destruct (decide (s = this)) as [->|Hne].
  - rewrite lookup_insert_eq. split; [|auto]. intros _. by eexists.
  - rewrite lookup_insert_ne by done. tauto.
Qed.

Lemma matches_deactivate reg objs this o n :
  matches reg objs →
  objs !! this = Some o → n ≤ 0 →
  matches (stl_remove_erase reg this) (<[this := with_pcount n o]> objs).
Proof.
  intros [Hnd Hiff] Hobj Hle.
  split; [by apply NoDup_stl_remove_erase|]. intros s.
  rewrite elem_of_stl_remove_erase, Hiff. destruct (decide (s = this)) as [->|Hne].
  - rewrite lookup_insert_eq. split; [tauto|]. intros (o' & [= <-] & Hpos). cbn in Hpos. lia.
  - rewrite lookup_insert_ne by done. tauto.
Qed.

Lemma matches_delete reg objs this :
  matches reg objs →
  matches (stl_remove_erase reg this) (delete this objs).
Proof.
  intros [Hnd Hiff].
  split; [by apply NoDup_stl_remove_erase|]. intros s.
  rewrite elem_of_stl_remove_erase, Hiff. destruct (decide (s = this)) as [->|Hne].
  - rewrite lookup_delete_eq. split; [tauto|]. by intros (o & ? & _).
  - rewrite lookup_delete_ne by done. tauto.
Qed.

Lemma matches_new reg objs this o :
  matches reg objs →
  objs !! this = None → m_pcount o ≤ 0 → matches reg (<[this := o]> objs).
Proof.
  intros [Hnd Hiff] Hfree Hle. split; [done|]. intros s.
  rewrite Hiff. destruct (decide (s = this)) as [->|Hne].
  - rewrite lookup_insert_eq, Hfree. split; [by intros (o' & ? & _)|].
    intros (o' & [= <-] & Hpos). lia.
  - by rewrite lookup_insert_ne.
Qed.


Lemma matches_delete_absent reg objs this :
  matches reg objs → this ∉ reg → matches reg (delete this objs).
Proof.
  intros Hm Hnot. rewrite <- (stl_remove_erase_absent reg this Hnot).
  by apply matches_delete.
Qed.

(** A call within the protocol keeps the registry equal to the set of
    active identities. *)
Lemma perform_keeps_match c w :
  idle w → within_protocol c w →
  matches (suspenders (g_manager w)) (objects w) →
  matches (suspenders (g_manager (state_after (perform c) w)))
          (objects (state_after (perform c) w)).
Proof.
  intros Hidle Hproto Hm. unfold state_after.
  destruct c as [this name top|this|this wait|this|this| | | |]; cbn [perform].
  - unfold suspender.ctor. destruct (objects w !! this) eqn:Hobj; cbn; [done|].
    by apply matches_new.
  - destruct (objects w !! this) as [o|] eqn:Hobj.
    + rewrite (dtor_eq this w o Hidle Hobj).
      destruct (stl_contains _ _) eqn:Hin; cbn zeta.
      * apply stl_contains_true, (proj2 Hm) in Hin as (o' & Ho' & Hpos).
        assert (o' = o) as -> by congruence.
        specialize (Hproto o Hobj). cbn in Hproto.
        destruct (Z.eqb_spec (m_pcount o - 1) 0) as [_|?]; [|lia].
        cbn [snd objects with_objects g_manager]. rewrite suspenders_unregister.
        by apply matches_delete.
      * apply stl_contains_false in Hin. cbn. by apply matches_delete_absent.
    + unfold suspender.dtor, bind. by rewrite deref_dead.
  - destruct (objects w !! this) as [o|] eqn:Hobj.
    + rewrite (suspend_eq this w o Hidle Hobj). cbn zeta.
      destruct (Z.eqb_spec (m_pcount o) 0) as [Hz|Hnz].
      * rewrite (Hproto o Hobj Hz). cbn. apply matches_activate; [done..|lia].
      * cbn. apply matches_keep; [done..|lia].
    + unfold suspender.suspend, suspender.pcount_post_increment, bind.
      by rewrite deref_dead.
  - destruct (objects w !! this) as [o|] eqn:Hobj.
    + rewrite (resume_eq this w o Hidle Hobj). cbn zeta.
      destruct (Z.eqb_spec (m_pcount o - 1) 0) as [Hz|Hnz].
      * cbn [snd]. rewrite suspenders_unregister. cbn.
        apply matches_deactivate; [done..|lia].
      * destruct (_ <? 0); cbn; apply matches_keep; try done; lia.
    + unfold suspender.resume, suspender.pcount_pre_decrement, bind.
      by rewrite deref_dead.
  - unfold suspender.is_suspending, bind. by rewrite is_suspending_eq.
  - unfold suspender.current, bind. by rewrite current_eq.
  - done.
  - done.
  - unfold spurious_wakeup. by rewrite notify_all_eq.
Qed.

(** The steps of the loop thread and of the kernel touch neither. *)
Lemma do_step_frame e w :
  idle w →
  idle (state_after (do_step e) w)
  ∧ (match e with ByController _ => True | _ =>
       suspenders (g_manager (state_after (do_step e) w)) = suspenders (g_manager w)
       ∧ objects (state_after (do_step e) w) = objects w
     end).
Proof.
  intros Hidle. unfold state_after. destruct e as [c| | | | |b]; cbn [do_step].
  - split; [|done]. destruct (perform_effect c w Hidle) as (Hgate & _).
    by destruct (gate_change_facts _ _ Hidle Hgate) as (? & _).
  - unfold bind, modify. by rewrite notify_suspend_eq.
  - by rewrite cv_block_eq.
  - unfold cv_wake, bind, modify, sysc_lock_lock. cbn.
    by destruct (sysc_lock (g_manager w)).
  - unfold bind, modify. by rewrite notify_resume_eq.
  - done.
Qed.

Lemma within_protocol_invariant w :
  reachable_within_protocol w →
  idle w ∧ matches (suspenders (g_manager w)) (objects w).
Proof.
  induction 1 as [running top|e w Hreach [Hidle Hm] Hproto].
  - split; [done|]. split; [constructor|]. intros s. cbn. rewrite lookup_empty.
    split; [by intros ?%elem_of_nil|by intros (o & ? & _)].
  - destruct (do_step_frame e w Hidle) as [Hidle' Hframe]. split; [done|].
    destruct e as [c| | | | |b]; [by apply perform_keeps_match|..];
      by destruct Hframe as [-> ->].
Qed.

Lemma matches_length reg w :
  matches reg (objects w) → length reg = size (active_identities w).
Proof.
  intros [Hnd Hiff]. rewrite <- (size_list_to_set (C := gset nat) reg Hnd). f_equal.
  apply set_eq. intros s.
  by rewrite elem_of_list_to_set, elem_of_active_identities.
Qed.

(** *** Registration order *)

Lemma stamp_step_lookup now reg since s :
  stamp_step now reg since !! s =
  if decide (s ∈ reg) then Some (default now (since !! s)) else None.
Proof.
  unfold stamp_step. induction reg as [|x reg IH]; cbn [fmap list_fmap].
  - rewrite list_to_map_nil, lookup_empty.
    by rewrite decide_False by apply not_elem_of_nil.
  - rewrite list_to_map_cons, lookup_insert. destruct (decide (x = s)) as [->|Hne].
    + by rewrite decide_True by apply list_elem_of_here.
    + rewrite IH. destruct (decide (s ∈ reg)) as [Hin|Hnot].
      * by rewrite decide_True by (by apply list_elem_of_further).
      * rewrite decide_False; [done|]. intros [?|?]%elem_of_cons; congruence.
Qed.

Lemma StronglySorted_mono_on {A} (R R' : relation A) l :
  StronglySorted R l →
  (∀ a b, a ∈ l → b ∈ l → R a b → R' a b) →
  StronglySorted R' l.
Proof.
  induction 1 as [|x l Hl IH Hx]; intros Hmono; constructor.
  - apply IH. intros a b Ha Hb. apply Hmono; by apply list_elem_of_further.
  - rewrite Forall_forall in Hx |- *. intros b Hb.
    apply Hmono; [apply list_elem_of_here|by apply list_elem_of_further|by apply Hx].
Qed.

Lemma StronglySorted_filter {A} (R : relation A) (P : A → Prop)
    `{!∀ x, Decision (P x)} l :
  StronglySorted R l → StronglySorted R (filter P l).
Proof.
  induction 1 as [|x l Hl IH Hx]; [constructor|].
  destruct (decide (P x)).
  - rewrite filter_cons_True by done. constructor; [done|].
    rewrite Forall_forall in Hx |- *. intros b [_ Hb]%list_elem_of_filter. by apply Hx.
  - by rewrite filter_cons_False.
Qed.

Lemma do_step_registry e w :
  idle w →
  registry_step (suspenders (g_manager w))
                (suspenders (g_manager (state_after (do_step e) w))).
Proof.
  intros Hidle. destruct (do_step_frame e w Hidle) as [_ Hframe].
  destruct e as [c| | | | |b];
    [|left; by destruct Hframe as [-> _]..].
  destruct (perform_effect c w Hidle) as (Hgate & _).
  by destruct (gate_change_facts _ _ Hidle Hgate) as (_ & _ & _ & _ & _ & Hshape).
Qed.

Lemma stamped_step now since reg reg' :
  stamped now since reg →
  registry_step reg reg' →
  stamped (S now) (stamp_step now reg' since) reg'.
Proof.
  intros (Hdom & Hbound & Hsorted) Hstep.
  assert (Hkeep : ∀ a, a ∈ reg → a ∈ reg' →
            stamp_step now reg' since !! a = since !! a).
  { intros a Ha Ha'. rewrite stamp_step_lookup, decide_True by done.
    apply Hdom in Ha as [t Ht]. by rewrite Ht. }
  assert (Hmono : ∀ a b, a ∈ reg → b ∈ reg → a ∈ reg' → b ∈ reg' →
            entered_before since a b →
            entered_before (stamp_step now reg' since) a b).
  { intros a b Ha Hb Ha' Hb' (ta & tb & Hta & Htb & Hlt).
    exists ta, tb. by rewrite !Hkeep. }
  split; [|split].
  - intros s. rewrite stamp_step_lookup. destruct (decide (s ∈ reg')); [|split; [|done]].
    + split; [done|]. intros _. by eexists.
    + by intros [? ?].
  - intros s t. rewrite stamp_step_lookup. destruct (decide (s ∈ reg')); [|done].
    intros [= <-]. destruct (since !! s) as [t|] eqn:Hs; cbn; [|lia].
    apply Hbound in Hs. lia.
  - assert (Hsame : reg' = reg →
              StronglySorted (entered_before (stamp_step now reg' since)) reg').
    { intros ->. apply (StronglySorted_mono_on _ _ _ Hsorted). auto. }
    destruct Hstep as [Heq|[[s Heq]|[[s Heq]|Heq]]]; [by apply Hsame| | |].
    + unfold stl_add_unique in Heq. destruct (stl_contains reg s) eqn:Hin;
        [by apply Hsame|].
      apply stl_contains_false in Hin. rewrite Heq at 2.
      assert (Hmem : ∀ a, a ∈ reg → a ∈ reg').
      { intros a Ha. rewrite Heq. apply elem_of_app. by left. }
      apply StronglySorted_app. split; [|split].
      * intros a b Ha ->%list_elem_of_singleton.
        destruct (proj2 (Hdom a) Ha) as [ta Hta].
        exists ta, now. rewrite Hkeep by auto. split; [done|].
        split; [|by apply Hbound in Hta].
        rewrite stamp_step_lookup, decide_True.
        -- destruct (since !! s) as [tb|] eqn:Hs; [|done].
           exfalso. apply Hin, Hdom. by eexists.
        -- rewrite Heq. apply elem_of_app. right. by apply list_elem_of_singleton.
      * apply (StronglySorted_mono_on _ _ _ Hsorted). auto.
      * repeat constructor.
    + rewrite Heq at 2. unfold stl_remove_erase.
      eapply StronglySorted_mono_on; [by apply StronglySorted_filter|].
      intros a b Ha Hb Hab.
      assert (Ha' : a ∈ reg') by (by rewrite Heq).
      assert (Hb' : b ∈ reg') by (by rewrite Heq).
      apply list_elem_of_filter in Ha as [_ Ha].
      apply list_elem_of_filter in Hb as [_ Hb].
      by apply Hmono.
    + rewrite Heq at 2. constructor.
Qed.

Lemma run_stamped_invariant history now since w :
  idle w →
  stamped now since (suspenders (g_manager w)) →
  idle (run_stamped history now since w).2
  ∧ ∃ now', stamped now' (run_stamped history now since w).1
                    (suspenders (g_manager (run_stamped history now since w).2)).
Proof.
  revert now since w. induction history as [|e history IH]; intros now since w Hidle Hst.
  - split; [done|]. by exists now.
  - cbn [run_stamped]. apply IH.
    + by apply do_step_frame.
    + apply stamped_step with (reg := suspenders (g_manager w)); [done|].
      by apply do_step_registry.
Qed.

Lemma stamped_head now since reg s :
  stamped now since reg → head reg = Some s → earliest_registered since s.
Proof.
  intros (Hdom & _ & Hsorted) [rest ->]%head_Some.
  apply StronglySorted_cons in Hsorted as [Hfirst _].
  destruct (proj2 (Hdom s)) as [t Ht]; [apply list_elem_of_here|].
  exists t. split; [done|]. intros s' t' Hs'.
  assert (Hin : s' ∈ s :: rest) by (apply Hdom; by eexists).
  apply elem_of_cons in Hin as [->|Hin].
  - assert (t' = t) by congruence. lia.
  - rewrite Forall_forall in Hfirst.
    destruct (Hfirst s' Hin) as (ta & tb & Hta & Htb & Hlt).
    assert (ta = t) by congruence. assert (tb = t') by congruence. lia.
Qed.

Lemma stl_add_unique_fresh v t : t ∉ v → stl_add_unique v t = v ++ [t].
Proof. intros H%stl_contains_false. unfold stl_add_unique. by rewrite H. Qed.

(** *** The steps cover [handle_requests] *)

Lemma reachable_idle w : reachable w → idle w.
Proof.
  induction 1 as [running top|e w _ IH]; [done|]. by apply do_step_frame.
Qed.

Lemma reachable_by_others cs w :
  reachable w → reachable (state_after (concurrently (by_others cs)) w).
Proof.
  revert w. induction cs as [|c cs IH]; intros w Hw; [done|].
  apply (IH (state_after (perform c) w)), (reachable_step (ByController c)), Hw.
Qed.

Lemma reachable_cv_wait_sleep (during : list (list call)) :
  (∀ w, reachable w →
        reachable (state_after (cv_wait suspend_manager.no_requests (map by_others during)) w))
  ∧ (∀ w, reachable w →
          reachable (state_after (cv_sleep suspend_manager.no_requests (map by_others during)) w)).
Proof.
  induction during as [|chunk during [IHwait IHsleep]].
  - split; intros w Hw; [|done].
    unfold state_after. cbn [map]. rewrite cv_wait_eq. unfold bind.
    rewrite no_requests_eq by (by apply reachable_idle).
    destruct (bool_decide _); [done|]. rewrite cv_block_eq.
    apply (reachable_step LoopSleeps w Hw).
  - split; intros w Hw.
    + unfold state_after. cbn [map]. rewrite cv_wait_eq. unfold bind at 1.
      rewrite no_requests_eq by (by apply reachable_idle).
      destruct (bool_decide _); [done|]. unfold bind.
      pose proof (reachable_by_others chunk w Hw) as Hw1.
      destruct (concurrently_calls chunk w (reachable_idle w Hw)) as [Hres _].
      unfold result_of, state_after in Hres, Hw1.
      destruct (concurrently (by_others chunk) w) as [r w1]. cbn in Hres, Hw1. subst r.
      rewrite cv_block_eq. apply IHsleep, (reachable_step LoopSleeps w1 Hw1).
    + unfold state_after. cbn [map]. rewrite cv_sleep_cons. unfold bind.
      pose proof (reachable_by_others chunk w Hw) as Hw1.
      destruct (concurrently_calls chunk w (reachable_idle w Hw)) as [Hres _].
      unfold result_of, state_after in Hres, Hw1.
      destruct (concurrently (by_others chunk) w) as [r w1]. cbn in Hres, Hw1. subst r.
      unfold gets.
      destruct (sysc_notify (g_manager w1)); [by apply IHsleep|by apply IHsleep|].
      pose proof (reachable_step LoopWakes w1 Hw1) as Hw2.
      unfold state_after in Hw2. cbn [do_step] in Hw2.
      destruct (cv_wake w1) as [[[]| | |] w2]; try done. cbn [snd] in Hw2.
      by apply IHwait.
Qed.

(** A state [handle_requests] leaves behind is reached by the steps. *)
Lemma reachable_handle_requests before during w :
  reachable w →
  reachable (state_after
    (suspend_manager.handle_requests (by_others before) (map by_others during)) w).
Proof.
  intros Hw. pose proof (reachable_idle w Hw) as Hidle.
  unfold suspend_manager.handle_requests, state_after, bind.
  rewrite count_eq by done.
  destruct (length (suspenders (g_manager w)) =? 0)%nat; [done|].
  unfold modify at 1. rewrite notify_suspend_eq.
  set (w2 := with_callbacks _ _).
  assert (Hw2 : reachable w2).
  { pose proof (reachable_step LoopEnters w Hw) as H.
    unfold state_after, do_step, bind, modify in H. by rewrite notify_suspend_eq in H. }
  pose proof (reachable_by_others before w2 Hw2) as Hw3.
  destruct (concurrently_calls before w2 (reachable_idle w2 Hw2)) as [Hres _].
  unfold result_of, state_after in Hres, Hw3.
  destruct (concurrently (by_others before) w2) as [r w3]. cbn in Hres, Hw3. subst r.
  pose proof (proj1 (reachable_cv_wait_sleep during) w3 Hw3) as Hw4.
  unfold state_after in Hw4.
  destruct (cv_wait _ _ w3) as [[[]| | |] w4]; try done. cbn [snd] in Hw4.
  pose proof (reachable_step LoopLeaves w4 Hw4) as H.
  unfold state_after, do_step, bind, modify in H. unfold modify.
  by destruct (suspend_manager.notify_resume None w4) as [[[]| | |] w5].
Qed.

(** At depth 1 the destructor releases the handle. *)
Lemma dtor_single_releases this w o :
  idle w → objects w !! this = Some o → m_pcount o = 1 →
  this ∈ suspenders (g_manager w) →
  suspender.dtor this w = (Ok tt, with_objects (delete this) (unregister this w))
  ∧ this ∉ suspenders (g_manager (state_after (suspender.dtor this) w)).
Proof.
  intros Hidle Hobj Hone Hin%stl_contains_true.
  assert (Heq : suspender.dtor this w =
    (Ok tt, with_objects (delete this) (unregister this w))).
  { by rewrite (dtor_eq this w o Hidle Hobj), Hin, Hone. }
  split; [done|]. unfold state_after. rewrite Heq. cbn [snd g_manager with_objects].
  rewrite suspenders_unregister, elem_of_stl_remove_erase. tauto.
Qed.

Lemma suspender_is_suspending_eq this w :
  idle w →
  suspender.is_suspending this w =
  (Ok (stl_contains (suspenders (g_manager w)) this), w).
Proof. intros H. unfold suspender.is_suspending. by rewrite is_suspending_eq. Qed.

(** *** Matched pairs, with the loop thread running alongside *)

Lemma loop_step_frame e w :
  loop_step e = true → idle w →
  idle (state_after (do_step e) w)
  ∧ suspenders (g_manager (state_after (do_step e) w)) = suspenders (g_manager w)
  ∧ objects (state_after (do_step e) w) = objects w
  ∧ sc_running (state_after (do_step e) w) = sc_running w
  ∧ (result_of (do_step e) w = Ok tt ∨ result_of (do_step e) w = Block).
Proof.
  intros Hloop Hidle. unfold state_after, result_of.
  destruct e as [c| | | | |b]; try discriminate; cbn [do_step].
  - unfold bind, modify. rewrite notify_suspend_eq. cbn. auto 10.
  - rewrite cv_block_eq. cbn. auto 10.
  - unfold cv_wake, bind, modify, sysc_lock_lock. cbn.
    destruct (sysc_lock (g_manager w)); cbn; auto 10.
  - unfold bind, modify. rewrite notify_resume_eq. cbn. auto 10.
Qed.

Lemma await_pause_cases wait caller w :
  await_pause wait caller w = Ok tt ∨ await_pause wait caller w = Block.
Proof.
  unfold await_pause. destruct (wait && _); [|by left].
  destruct (sysc_lock (g_manager w)); auto.
Qed.

(** With [a] suspends and then [b] resumes still to come on a handle
    whose counter is [b - a], the counter ends at 0 and the identity
    out of the registry, whatever the loop thread does in between. *)
Lemma matched_pairs_history this wait history : ∀ (a b : nat) w o,
  idle w → sc_running w = true →
  objects w !! this = Some o →
  m_pcount o + Z.of_nat a = Z.of_nat b →
  (b = 0%nat → this ∉ suspenders (g_manager w)) →
  filter (λ e, loop_step e = false) history =
    ByController <$> (replicate a (Suspend this wait) ++ replicate b (Resume this)) →
  Forall (λ r, r = Ok tt ∨ r = Block) (run_history history w).1
  ∧ idle (run_history history w).2
  ∧ m_pcount <$> objects (run_history history w).2 !! this = Some 0
  ∧ this ∉ suspenders (g_manager (run_history history w).2).
Proof.
  induction history as [|e history IH]; intros a b w o Hidle Hrun Hobj Hcount Hreg Hcalls.
  - destruct a; [|done]. destruct b; [|done]. cbn.
    split; [constructor|]. split; [done|]. rewrite Hobj. cbn.
    split; [f_equal; lia|auto].
  - assert (Hgo : ∀ a' b' r w1 o1,
      idle w1 → sc_running w1 = true → objects w1 !! this = Some o1 →
      m_pcount o1 + Z.of_nat a' = Z.of_nat b' →
      (b' = 0%nat → this ∉ suspenders (g_manager w1)) →
      filter (λ e, loop_step e = false) history =
        ByController <$> (replicate a' (Suspend this wait) ++ replicate b' (Resume this)) →
      r = Ok tt ∨ r = Block →
      do_step e w = (r, w1) →
      Forall (λ r, r = Ok tt ∨ r = Block) (run_history (e :: history) w).1
      ∧ idle (run_history (e :: history) w).2
      ∧ m_pcount <$> objects (run_history (e :: history) w).2 !! this = Some 0
      ∧ this ∉ suspenders (g_manager (run_history (e :: history) w).2)).
    { intros a' b' r w1 o1 Hi Hr Ho Hc Hg Hf Hres Hstep.
      cbn [run_history]. rewrite Hstep.
      destruct (IH a' b' w1 o1 Hi Hr Ho Hc Hg Hf) as (Hok & Hrest).
      destruct (run_history history w1) as [rs w']. cbn [fst snd] in *.
      split; [by constructor|done]. }
    destruct (loop_step e) eqn:Hloop.
    + (* a step of the loop thread *)
      rewrite filter_cons_False in Hcalls by (by rewrite Hloop).
      destruct (loop_step_frame e w Hloop Hidle) as (Hidle1 & Hreg1 & Hobj1 & Hrun1 & Hres).
      unfold state_after, result_of in Hidle1, Hreg1, Hobj1, Hrun1, Hres.
      destruct (do_step e w) as [r w1] eqn:Hstep. cbn [fst snd] in *.
      apply (Hgo a b r w1 o); try done; try congruence. by rewrite Hreg1.
    + (* the next call on the handle *)
      rewrite filter_cons_True in Hcalls by done.
      destruct a as [|a]; [destruct b as [|b]; [done|]|];
        cbn [replicate app fmap list_fmap] in Hcalls;
        injection Hcalls as -> Hcalls.
      * (* resume *)
        pose proof (resume_eq this w o Hidle Hobj) as Hstep. cbn zeta in Hstep.
        revert Hstep. destruct (Z.eqb_spec (m_pcount o - 1) 0) as [Hz|Hnz]; intros Hstep.
        -- eapply (Hgo 0%nat b); [| | | | |exact Hcalls| |exact Hstep].
           ++ by apply idle_unregister.
           ++ done.
           ++ cbn. by rewrite lookup_insert_eq.
           ++ cbn. lia.
           ++ intros _. rewrite suspenders_unregister, elem_of_stl_remove_erase. tauto.
           ++ by left.
        -- revert Hstep. destruct (Z.ltb_spec (m_pcount o - 1) 0) as [?|_]; [lia|].
           intros Hstep.
           eapply (Hgo 0%nat b); [| | | | |exact Hcalls| |exact Hstep].
           ++ done.
           ++ done.
           ++ cbn. by rewrite lookup_insert_eq.
           ++ cbn. lia.
           ++ intros ->. cbn in *. lia.
           ++ by left.
      * (* suspend *)
        pose proof (suspend_eq this w o Hidle Hobj wait other_thread) as Hstep.
        cbn zeta in Hstep. rewrite Hrun in Hstep.
        revert Hstep. destruct (Z.eqb_spec (m_pcount o) 0) as [Hz|Hnz]; intros Hstep;
          (eapply (Hgo a b); [| | | | |exact Hcalls| |exact Hstep]).
        -- done.
        -- done.
        -- cbn. by rewrite lookup_insert_eq.
        -- cbn. lia.
        -- intros ->. lia.
        -- apply await_pause_cases.
        -- done.
        -- done.
        -- cbn. by rewrite lookup_insert_eq.
        -- cbn. lia.
        -- exact Hreg.
        -- apply await_pause_cases.
Qed.

(** ** Properties *)

(** C9: [suspend] on a handle whose counter is 0, while the simulation
    is not running, raises "cannot suspend, simulation not running"
    after the counter was incremented: the handle is left with counter 1
    instead of 0, and the gate is untouched. *)
Theorem suspend_not_running_leaves_counter
    (this : nat) (wait : bool) (caller : thread) (w : world) (o : suspender) :
  objects w !! this = Some o →
  m_pcount o = 0 →
  sc_running w = false →
  suspender.suspend this wait caller w =
    (Throw "cannot suspend, simulation not running",
     with_objects <[this := with_pcount 1 o]> w)
  ∧ m_pcount <$> objects (state_after (suspender.suspend this wait caller) w) !! this = Some 1
  ∧ m_pcount <$> objects w !! this = Some 0
  ∧ g_manager (state_after (suspender.suspend this wait caller) w) = g_manager w.
Proof.
  intros Hobj Hzero Hrun.
  assert (Heq : suspender.suspend this wait caller w =
    (Throw "cannot suspend, simulation not running",
     with_objects <[this := with_pcount 1 o]> w)).
  { unfold suspender.suspend, bind.
    rewrite (pcount_post_increment_eq this w o Hobj), Hzero. cbn [Z.eqb when Z.add].
    by rewrite request_pause_stopped. }
  split; [exact Heq|].
  unfold state_after. rewrite Heq. cbn [snd objects with_objects g_manager].
  rewrite lookup_insert_eq, Hobj. cbn. by rewrite Hzero.
Qed.

Lemma suspend_not_running_leaves_counter_witness :
  suspender.suspend 7 true other_thread
    (state_after (suspender.ctor 7 "dbg" None) (boot false [])) =
    (Throw "cannot suspend, simulation not running",
     with_objects
       <[7%nat := with_pcount 1 {| m_pcount := 0; m_name := "dbg"; m_owner := None |}]>
       (state_after (suspender.ctor 7 "dbg" None) (boot false []))).
Proof.
  refine (proj1 (suspend_not_running_leaves_counter 7 true other_thread
    (state_after (suspender.ctor 7 "dbg" None) (boot false []))
    {| m_pcount := 0; m_name := "dbg"; m_owner := None |} _ _ _));
  reflexivity.
Defined.

(** C10: destroying a handle whose identity is not in the registry
    (counter 0, or cleared by [force_resume]) does nothing to the gate:
    the registry, [count()] and the paused flag are as before; only the
    object itself goes away. *)
Theorem dtor_unregistered_frame (this : nat) (w : world) :
  this ∉ suspenders (g_manager w) →
  g_manager (state_after (suspender.dtor this) w) = g_manager w
  ∧ suspenders (g_manager (state_after (suspender.dtor this) w)) = suspenders (g_manager w)
  ∧ result_of suspend_manager.count (state_after (suspender.dtor this) w)
      = result_of suspend_manager.count w
  ∧ is_suspended (g_manager (state_after (suspender.dtor this) w)) = is_suspended (g_manager w)
  ∧ (idle w → is_Some (objects w !! this) →
     suspender.dtor this w = (Ok tt, with_objects (delete this) w)).
Proof.
  intros Hnot. apply stl_contains_false in Hnot.
  assert (Hrun : idle w → is_Some (objects w !! this) →
     suspender.dtor this w = (Ok tt, with_objects (delete this) w)).
  { intros Hidle [o Hobj]. by rewrite (dtor_eq this w o Hidle Hobj), Hnot. }
  assert (Hg : g_manager (state_after (suspender.dtor this) w) = g_manager w).
  { unfold state_after.
    destruct (objects w !! this) as [o|] eqn:Hobj.
    - destruct (suspender_lock (g_manager w)) eqn:Hlock.
      + by rewrite Hrun.
      + unfold suspender.dtor, suspender.is_suspending, bind.
        rewrite (deref_eq this w o Hobj).
        unfold suspend_manager.is_suspending, lock_guard. by rewrite Hlock.
    - unfold suspender.dtor, bind. by rewrite deref_dead. }
  split; [exact Hg|]. split; [by rewrite Hg|].
  split; [by apply count_result_frame|].
  split; [by rewrite Hg|exact Hrun].
Qed.

Lemma dtor_unregistered_frame_witness :
  g_manager (state_after (suspender.dtor 3)
    (state_after (suspender.ctor 3 "idle" None) (boot true []))) =
  g_manager (state_after (suspender.ctor 3 "idle" None) (boot true [])).
Proof.
  refine (proj1 (dtor_unregistered_frame 3
    (state_after (suspender.ctor 3 "idle" None) (boot true [])) _)).
  vm_compute. by intros ?%elem_of_nil.
Defined.

(** C1: a handle destroyed at nesting depth 2 or more is not released.
    The destructor calls [resume] once, the counter only drops to
    depth - 1, [request_resume] is not reached, and the address of the
    destroyed object stays in the registry with [count()] unchanged. *)
Theorem dtor_nested_keeps_registration (this : nat) (w : world) (o : suspender) :
  idle w →
  objects w !! this = Some o →
  2 ≤ m_pcount o →
  this ∈ suspenders (g_manager w) →
  suspender.dtor this w = (Ok tt, with_objects (delete this) w)
  ∧ objects (state_after (suspender.dtor this) w) !! this = None
  ∧ this ∈ suspenders (g_manager (state_after (suspender.dtor this) w))
  ∧ result_of suspend_manager.count (state_after (suspender.dtor this) w)
      = result_of suspend_manager.count w.
Proof.
  intros Hidle Hobj Hdepth Hin.
  assert (Heq : suspender.dtor this w = (Ok tt, with_objects (delete this) w)).
  { apply stl_contains_true in Hin.
    rewrite (dtor_eq this w o Hidle Hobj), Hin. cbn zeta.
    destruct (Z.eqb_spec (m_pcount o - 1) 0) as [?|_]; [lia|].
    destruct (Z.ltb_spec (m_pcount o - 1) 0) as [?|_]; [lia|]. done. }
  unfold state_after. rewrite Heq. cbn [snd objects with_objects g_manager].
  split; [reflexivity|]. split; [by rewrite lookup_delete_eq|].
  split; [exact Hin|by apply count_result_frame].
Qed.

Lemma dtor_nested_keeps_registration_witness :
  let w := state_after
    (suspender.ctor 1 "dbg" None ;;
     suspender.suspend 1 false other_thread ;;
     suspender.suspend 1 false other_thread) (boot true []) in
  suspenders (g_manager w) = [1%nat]
  ∧ suspender.dtor 1 w = (Ok tt, with_objects (delete 1%nat) w)
  ∧ suspenders (g_manager (state_after (suspender.dtor 1) w)) = [1%nat].
Proof.
  intros w. split; [reflexivity|]. split; [|reflexivity].
  refine (proj1 (dtor_nested_keeps_registration 1 w
    {| m_pcount := 2; m_name := "dbg"; m_owner := None |} _ _ _ _)).
  - reflexivity.
  - reflexivity.
  - cbn. lia.
  - vm_compute. apply list_elem_of_singleton. reflexivity.
Defined.

(** C2, as the specification words it, fails: with the loop-block
    indicator free (the probe succeeds) and identity 1 registered,
    [current()] is 1 and not none; with the indicator held (the probe
    fails) it is none and not the first entry. *)
Lemma current_probe_counterexample :
  let running := state_after
    (suspender.ctor 1 "dbg" None ;; suspender.suspend 1 false other_thread)
    (boot true []) in
  let paused := state_after (suspender.handle_requests [] []) running in
  (result_of sysc_lock_try_lock paused = Ok true
   ∧ result_of suspend_manager.current paused = Ok (Some 1%nat)
   ∧ result_of suspend_manager.current paused ≠ Ok None)
  ∧ (result_of sysc_lock_try_lock running = Ok false
     ∧ head (suspenders (g_manager running)) = Some 1%nat
     ∧ result_of suspend_manager.current running = Ok None
     ∧ result_of suspend_manager.current running
         ≠ Ok (head (suspenders (g_manager running)))).
Proof. vm_compute. repeat split; congruence. Qed.

(** C2, amended: if the non-blocking probe of the loop-block indicator
    fails (the loop thread holds it, the loop is not paused), [current()]
    is none whatever the registry holds; if the probe succeeds,
    [current()] is the first registry entry, or none when the registry
    is empty.  The call leaves the state as it was. *)
Theorem current_probe (w : world) :
  idle w →
  (result_of sysc_lock_try_lock w = Ok false →
   suspend_manager.current w = (Ok None, w))
  ∧ (result_of sysc_lock_try_lock w = Ok true →
     suspend_manager.current w = (Ok (head (suspenders (g_manager w))), w)).
Proof.
  intros Hidle. rewrite (current_eq w Hidle).
  unfold result_of, sysc_lock_try_lock.
  destruct (sysc_lock (g_manager w)); cbn; split; intros Hprobe;
    try discriminate; reflexivity.
Qed.

Lemma current_probe_witness :
  let running := state_after
    (suspender.ctor 1 "dbg" None ;; suspender.suspend 1 false other_thread)
    (boot true []) in
  let paused := state_after (suspender.handle_requests [] []) running in
  suspend_manager.current running = (Ok None, running)
  ∧ suspend_manager.current paused = (Ok (Some 1%nat), paused).
Proof.
  intros running paused. split.
  - refine (proj1 (current_probe running _) _); reflexivity.
  - refine (proj2 (current_probe paused _) _); reflexivity.
Defined.

(** C7: [force_resume] empties the whole registry and notifies the
    loop thread (a waiting loop thread becomes runnable), whatever the
    registry held and whatever the counters are.  A later [resume] on a
    handle cleared this way (counter still greater than 0, identity no
    longer registered) returns normally and leaves the registry as it
    is; so do all the resumes that match the outstanding suspends. *)
Theorem force_resume_tolerated (this : nat) (w : world) (o : suspender) (k : nat) :
  idle w →
  objects w !! this = Some o →
  (1 ≤ k)%nat →
  Z.of_nat k ≤ m_pcount o →
  let cleared := state_after suspender.force_resume w in
  let resumed := state_after (repeat_call k (suspender.resume this)) cleared in
  suspender.force_resume w = (Ok tt, cleared)
  ∧ suspenders (g_manager cleared) = []
  ∧ sysc_notify (g_manager cleared) = woken (sysc_notify (g_manager w))
  ∧ objects cleared = objects w
  ∧ result_of (repeat_call k (suspender.resume this)) cleared = Ok tt
  ∧ suspenders (g_manager resumed) = []
  ∧ m_pcount <$> objects resumed !! this = Some (m_pcount o - Z.of_nat k)
  ∧ (∀ w' o', idle w' → this ∉ suspenders (g_manager w') →
       objects w' !! this = Some o' → 0 < m_pcount o' →
       result_of (suspender.resume this) w' = Ok tt
       ∧ suspenders (g_manager (state_after (suspender.resume this) w'))
           = suspenders (g_manager w')).
Proof.
  intros Hidle Hobj Hk Hle cleared resumed.
  assert (Hone : ∀ w' o', idle w' → this ∉ suspenders (g_manager w') →
       objects w' !! this = Some o' → 0 < m_pcount o' →
       result_of (suspender.resume this) w' = Ok tt
       ∧ suspenders (g_manager (state_after (suspender.resume this) w'))
           = suspenders (g_manager w')).
  { intros w' o' Hidle' Hnot Hobj' Hpos. unfold result_of, state_after.
    rewrite (resume_eq this w' o' Hidle' Hobj'). cbn zeta.
    destruct (Z.eqb_spec (m_pcount o' - 1) 0) as [Hz|Hnz].
    - cbn [fst snd]. split; [done|].
      rewrite suspenders_unregister. cbn. by apply stl_remove_erase_absent.
    - destruct (Z.ltb_spec (m_pcount o' - 1) 0) as [?|_]; [lia|]. done. }
  assert (Hclear : suspender.force_resume w = (Ok tt, clear_all w))
    by apply (force_resume_eq w Hidle).
  assert (Hcleared : cleared = clear_all w).
  { unfold cleared, state_after. by rewrite Hclear. }
  rewrite Hclear, <- Hcleared.
  assert (Hreg : suspenders (g_manager cleared) = []).
  { rewrite Hcleared. apply suspenders_clear_all. }
  assert (Hidle1 : idle cleared) by (rewrite Hcleared; by apply idle_clear_all).
  assert (Hobj1 : objects cleared !! this = Some o) by (by rewrite Hcleared).
  split; [done|]. split; [done|].
  split; [by rewrite Hcleared|].
  split; [by rewrite Hcleared|].
  (* the first k - 1 resumes stay above 0, the last one may reach it *)
  destruct k as [|k]; [lia|]. unfold resumed. clear resumed.
  replace (S k) with (k + 1)%nat in * by lia.
  destruct (resume_nested this k cleared o Hidle1 Hobj1) as (w2 & Hrun & Hg & Hobjs); [lia|].
  assert (Hidle2 : idle w2) by (unfold idle; by rewrite Hg).
  assert (Hobj2 : objects w2 !! this = Some (with_pcount (m_pcount o - Z.of_nat k) o)).
  { rewrite Hobjs. apply lookup_insert_eq. }
  assert (Hnot2 : this ∉ suspenders (g_manager w2)).
  { rewrite Hg, Hreg. apply not_elem_of_nil. }
  destruct (Hone w2 _ Hidle2 Hnot2 Hobj2) as [Hres Hsame]; [cbn; lia|].
  assert (Hlast : (repeat_call k (suspender.resume this) ;;
                   repeat_call 1 (suspender.resume this)) cleared
                  = suspender.resume this w2).
  { unfold bind at 1. rewrite Hrun. cbn [repeat_call]. unfold bind, ret.
    by destruct (suspender.resume this w2) as [[[]| | |] ?]. }
  assert (Hresumed : state_after (repeat_call (k + 1) (suspender.resume this)) cleared
                     = state_after (suspender.resume this) w2).
  { unfold state_after. by rewrite repeat_call_add, Hlast. }
  rewrite Hresumed. unfold result_of. rewrite repeat_call_add, Hlast.
  split; [exact Hres|]. split; [by rewrite Hsame, Hg|].
  split; [|exact Hone].
  unfold state_after.
  rewrite (resume_eq this w2 _ Hidle2 Hobj2). cbn zeta. cbn [m_pcount with_pcount].
  destruct (_ =? 0); [|destruct (_ <? 0)]; cbn [snd objects with_objects unregister with_manager];
    rewrite lookup_insert_eq; cbn; f_equal; lia.
Qed.

Lemma force_resume_tolerated_witness :
  let w := state_after
    (suspender.ctor 1 "dbg" None ;;
     suspender.suspend 1 false other_thread ;;
     suspender.suspend 1 false other_thread) (boot true []) in
  let cleared := state_after suspender.force_resume w in
  suspenders (g_manager w) = [1%nat]
  ∧ suspenders (g_manager cleared) = []
  ∧ result_of (repeat_call 2 (suspender.resume 1)) cleared = Ok tt.
Proof.
  intros w cleared. split; [reflexivity|].
  pose proof (force_resume_tolerated 1 w
    {| m_pcount := 2; m_name := "dbg"; m_owner := None |} 2) as H.
  destruct H as (_ & Hreg & _ & _ & Hres & _).
  - reflexivity.
  - reflexivity.
  - lia.
  - cbn. lia.
  - split; [exact Hreg|exact Hres].
Defined.

(** C8: on a handle whose counter is 0, while the simulation is
    running, n >= 1 calls of [suspend] followed by n calls of [resume]
    bring the counter back to 0, leave the identity out of the registry
    and [is_suspending()] false, and none of them raises a report.
    First for calls that return at once ([wait] is off, or the caller is
    the loop thread, or the loop is paused): each returns.  Then for the
    calls of a controller thread with the loop thread taking any of its
    steps in between: each call returns, or is a [suspend] still waiting
    for the loop thread to pause. *)
Theorem matched_suspend_resume
    (n : nat) (this : nat) (wait : bool) (caller : thread) (w : world) (o : suspender) :
  (1 ≤ n)%nat →
  idle w →
  sc_running w = true →
  objects w !! this = Some o →
  m_pcount o = 0 →
  let pairs := (repeat_call n (suspender.suspend this wait caller) ;;
                repeat_call n (suspender.resume this)) in
  (wait = false ∨ caller = sysc_thread ∨ loop_paused w →
   result_of pairs w = Ok tt
   ∧ m_pcount <$> objects (state_after pairs w) !! this = Some 0
   ∧ (this ∉ suspenders (g_manager (state_after pairs w)))
   ∧ result_of (suspender.is_suspending this) (state_after pairs w) = Ok false)
  ∧ (∀ history,
       filter (λ e, loop_step e = false) history =
         ByController <$> (replicate n (Suspend this wait) ++ replicate n (Resume this)) →
       Forall (λ r, r = Ok tt ∨ r = Block) (run_history history w).1
       ∧ m_pcount <$> objects (run_history history w).2 !! this = Some 0
       ∧ (this ∉ suspenders (g_manager (run_history history w).2))
       ∧ result_of (suspender.is_suspending this) (run_history history w).2 = Ok false).
Proof.
  intros Hn Hidle Hrunning Hobj Hzero pairs. split.
  - intros Hgo.
    assert (Hawait : ∀ w', sysc_lock (g_manager w') = sysc_lock (g_manager w) →
              await_pause wait caller w' = Ok tt).
    { intros w' Hsame. unfold await_pause. rewrite Hsame.
      destruct Hgo as [->|[->|Hp]]; [done|by rewrite andb_false_r|].
      unfold loop_paused in Hp. rewrite Hp. by destruct (_ && _). }
    destruct n as [|n]; [lia|].
    (* the first suspend registers *)
    set (w1 := register this (with_objects <[this := with_pcount (m_pcount o + 1) o]> w)).
    assert (Hfirst : suspender.suspend this wait caller w = (Ok tt, w1)).
    { rewrite (suspend_eq this w o Hidle Hobj). cbn zeta.
      rewrite Hrunning, (Hawait w eq_refl).
      destruct (Z.eqb_spec (m_pcount o) 0) as [_|?]; [done|lia]. }
    assert (Hidle1 : idle w1) by done.
    assert (Hobj1 : objects w1 !! this = Some (with_pcount (m_pcount o + 1) o)).
    { cbn. apply lookup_insert_eq. }
    (* n nested suspends, n nested resumes *)
    destruct (suspend_nested this wait caller n w1 _ Hidle1 Hobj1)
      as (w2 & Hrun2 & Hg2 & Hobjs2).
    { cbn. lia. }
    { by apply Hawait. }
    assert (Hidle2 : idle w2) by (unfold idle; by rewrite Hg2).
    assert (Hobj2 : objects w2 !! this = Some (with_pcount (1 + Z.of_nat n) o)).
    { rewrite Hobjs2. cbn. rewrite lookup_insert_eq, Hzero. done. }
    destruct (resume_nested this n w2 _ Hidle2 Hobj2) as (w3 & Hrun3 & Hg3 & Hobjs3).
    { cbn. lia. }
    assert (Hidle3 : idle w3) by (unfold idle; by rewrite Hg3).
    assert (Hobj3 : objects w3 !! this = Some (with_pcount 1 o)).
    { rewrite Hobjs3. cbn. rewrite lookup_insert_eq. unfold with_pcount. cbn.
      do 2 f_equal. lia. }
    (* the last resume releases *)
    set (w4 := unregister this (with_objects <[this := with_pcount 0 o]> w3)).
    assert (Hlast : suspender.resume this w3 = (Ok tt, w4)).
    { rewrite (resume_eq this w3 _ Hidle3 Hobj3). done. }
    assert (Hpairs : pairs w = (Ok tt, w4)).
    { assert (Hsus : repeat_call (S n) (suspender.suspend this wait caller) w = (Ok tt, w2)).
      { cbn [repeat_call]. unfold bind. by rewrite Hfirst. }
      assert (Hres : repeat_call (S n) (suspender.resume this) w2 = (Ok tt, w4)).
      { replace (S n) with (n + 1)%nat by lia.
        rewrite repeat_call_add. unfold bind at 1. rewrite Hrun3.
        cbn [repeat_call]. unfold bind, ret. by rewrite Hlast. }
      unfold pairs, bind. by rewrite Hsus. }
    assert (Hout : this ∉ suspenders (g_manager w4)).
    { unfold w4. rewrite suspenders_unregister, elem_of_stl_remove_erase. tauto. }
    unfold result_of, state_after. rewrite Hpairs. cbn [fst snd].
    split; [done|]. split; [|split; [done|]].
    + unfold w4. change (objects (unregister this ?x)) with (objects x).
      cbn. by rewrite lookup_insert_eq.
    + rewrite is_suspending_eq.
      * cbn [fst]. f_equal. by apply stl_contains_false.
      * unfold w4. by apply idle_unregister.
  - intros history Hcalls.
    destruct (matched_pairs_history this wait history n n w o)
      as (Hok & Hidle' & Hcount & Hout); try done.
    { lia. } { intros ->. lia. }
    split; [done|]. split; [done|]. split; [done|].
    unfold result_of. rewrite suspender_is_suspending_eq by done.
    cbn [fst]. f_equal. by apply stl_contains_false.
Qed.

Lemma matched_suspend_resume_witness :
  let w := state_after (suspender.ctor 1 "dbg" None) (boot true []) in
  let pairs := (repeat_call 3 (suspender.suspend 1 true sysc_thread) ;;
                repeat_call 3 (suspender.resume 1)) in
  let history :=
    [ByController (Suspend 1 true); LoopEnters; LoopSleeps;
     ByController (Suspend 1 true); ByController (Resume 1);
     ByController (Resume 1); LoopWakes; LoopLeaves] in
  (result_of pairs w = Ok tt
   ∧ m_pcount <$> objects (state_after pairs w) !! 1%nat = Some 0)
  ∧ ((run_history history w).1 = [Block; Ok tt; Ok tt; Ok tt; Ok tt; Ok tt; Ok tt; Ok tt]
     ∧ m_pcount <$> objects (run_history history w).2 !! 1%nat = Some 0).
Proof.
  intros w pairs history.
  pose proof (matched_suspend_resume 2 1 true other_thread w
    {| m_pcount := 0; m_name := "dbg"; m_owner := None |}) as Hany.
  pose proof (matched_suspend_resume 3 1 true sysc_thread w
    {| m_pcount := 0; m_name := "dbg"; m_owner := None |}) as Hnow.
  split.
  - destruct Hnow as [H _].
    + lia.
    + reflexivity.
    + reflexivity.
    + reflexivity.
    + reflexivity.
    + destruct H as (Hres & Hcount & _).
      * right. left. reflexivity.
      * split; [exact Hres|exact Hcount].
  - split; [reflexivity|].
    destruct Hany as [_ H].
    + lia.
    + reflexivity.
    + reflexivity.
    + reflexivity.
    + reflexivity.
    + destruct (H history) as (_ & Hcount & _).
      * reflexivity.
      * exact Hcount.
Defined.

(** C5, as the specification words it, fails on the order: for a
    module "top" with a child module "cpu" the pause notification calls
    [session_suspend] of "cpu" before that of "top", leaf to root, not
    root to leaf. *)
Lemma notify_suspend_order_counterexample :
  let top := [SCObject "top" true [SCObject "cpu" true []]] in
  let told := callbacks (state_after (suspend_manager.notify_suspend None) (boot true top)) in
  told = [session_suspend "cpu"; session_suspend "top"]
  ∧ session_suspend <$> flat_map modules_root_first top
      = [session_suspend "top"; session_suspend "cpu"]
  ∧ told ≠ session_suspend <$> flat_map modules_root_first top.
Proof. vm_compute. repeat split; congruence. Qed.

(** C5, amended: for every hierarchy, the pause notification calls
    [session_suspend] once per module, the children of an object before
    the object itself (leaf to root); the resume notification calls
    [session_resume] once per module in the same order, so both cover
    the same modules; and these are the modules of the hierarchy, each
    once (a rearrangement of their root-to-leaf enumeration). *)
Theorem notify_traversals (w : world) :
  let visited := flat_map modules_children_first (top_level w) in
  suspend_manager.notify_suspend None w =
    (Ok tt, with_callbacks (λ t, t ++ (session_suspend <$> visited)) w)
  ∧ suspend_manager.notify_resume None w =
    (Ok tt, with_callbacks (λ t, t ++ (session_resume <$> visited)) w)
  ∧ visited ≡ₚ flat_map modules_root_first (top_level w)
  ∧ (∀ name is_mod children,
       modules_children_first (SCObject name is_mod children) =
       flat_map modules_children_first children ++ (if is_mod then [name] else []))
  ∧ (∀ name,
       session_suspend name ∈ pause_callbacks (top_level w)
       ↔ session_resume name ∈ resume_callbacks (top_level w)).
Proof.
  split; [apply notify_suspend_eq|]. split; [apply notify_resume_eq|].
  split; [apply forest_orders_permutation|]. split; [done|].
  intros name. unfold pause_callbacks, resume_callbacks.
  rewrite !list_elem_of_fmap. split; intros (x & Hx & Hin); exists x; split; congruence.
Qed.

(** C4: the wait of the boundary hook [handle_requests] can lose a
    wake-up.  With one identity registered at depth 1, the hook sets
    the paused flag, makes the pause notification and finds the
    registry not empty.  If the [resume] of that identity falls between
    this test and the moment the loop thread blocks, its notification
    finds no waiter: the loop thread blocks on an empty registry, with
    the paused flag set and only the pause notification made, and stays
    blocked however often it is scheduled while the other threads make
    no call.  The same [resume] made once the loop thread is blocked
    wakes it, and the hook returns. *)
Theorem handle_requests_lost_wakeup
    (this : nat) (w : world) (o : suspender) (n : nat) (rest : list (list call)) :
  idle w →
  sysc_lock (g_manager w) = Locked →
  sysc_notify (g_manager w) = NoWaiter →
  suspenders (g_manager w) = [this] →
  objects w !! this = Some o →
  m_pcount o = 1 →
  let lost := suspend_manager.handle_requests (by_others [])
                (map by_others ([Resume this] :: replicate n [])) in
  let heard := suspend_manager.handle_requests (by_others [])
                 (map by_others ([] :: [Resume this] :: rest)) in
  result_of lost w = Block
  ∧ suspenders (g_manager (state_after lost w)) = []
  ∧ sysc_lock (g_manager (state_after lost w)) = Unlocked
  ∧ sysc_notify (g_manager (state_after lost w)) = Waiting
  ∧ is_suspended (g_manager (state_after lost w)) = true
  ∧ callbacks (state_after lost w) = callbacks w ++ pause_callbacks (top_level w)
  ∧ result_of heard w = Ok tt
  ∧ suspenders (g_manager (state_after heard w)) = [].
Proof.
  intros Hidle Hlock Hnotify Hreg Hobj Hone lost heard.
  (* up to the wait: the flag and the pause notification *)
  set (w1 := with_manager (set_is_suspended true) w).
  set (w2 := with_callbacks (λ t, t ++ pause_callbacks (top_level w1)) w1).
  assert (Hstart : ∀ during,
    suspend_manager.handle_requests (by_others []) during w =
    (cv_wait suspend_manager.no_requests during ;;
     suspend_manager.notify_resume None ;;
     modify (with_manager (set_is_suspended false))) w2).
  { intros during. unfold suspend_manager.handle_requests.
    rewrite (bind_ok _ _ w _ w (count_eq w Hidle)). rewrite Hreg. cbn [length Nat.eqb].
    rewrite (bind_ok _ _ w tt w1) by done.
    rewrite (bind_ok _ _ w1 tt w2) by apply notify_suspend_eq.
    by rewrite (bind_ok _ _ w2 tt w2). }
  assert (Hidle2 : idle w2) by done.
  assert (Hpred : suspend_manager.no_requests w2 = (Ok false, w2)).
  { rewrite no_requests_eq by done.
    change (suspenders (g_manager w2)) with (suspenders (g_manager w)).
    by rewrite Hreg. }
  (* the resume, made with the loop thread at state [v] *)
  assert (Hresume : ∀ v, idle v → objects v = objects w →
    suspenders (g_manager v) = [this] →
    concurrently (by_others [Resume this]) v =
    (Ok tt, with_manager (λ g, wake (set_suspenders [] g))
              (with_objects <[this := with_pcount (m_pcount o - 1) o]> v))).
  { intros v Hv Hobjs Hregv. cbn [by_others map concurrently perform].
    unfold state_after.
    rewrite (resume_eq this v o Hv) by (by rewrite Hobjs). cbn zeta. rewrite Hone.
    change (1 - 1 =? 0) with true. cbn iota. cbn [snd]. by rewrite unregister_last. }
  (* lost: the resume before the loop thread blocks *)
  set (w3 := with_manager (λ g, wake (set_suspenders [] g))
               (with_objects <[this := with_pcount (m_pcount o - 1) o]> w2)).
  set (w4 := with_manager (λ g, set_sysc_notify Waiting (set_sysc_lock Unlocked g)) w3).
  assert (Hlost : lost w = (Block, w4)).
  { unfold lost. rewrite Hstart. cbn [map]. unfold bind at 1.
    rewrite cv_wait_eq, (bind_ok _ _ _ _ _ Hpred). cbv beta iota.
    rewrite (bind_ok _ _ w2 tt w3) by (by apply Hresume).
    rewrite (bind_ok _ _ w3 tt w4) by apply cv_block_eq.
    by rewrite cv_sleep_quiet. }
  (* heard: the same resume with the loop thread blocked *)
  set (v3 := with_manager (λ g, set_sysc_notify Waiting (set_sysc_lock Unlocked g)) w2).
  set (v4 := with_manager (λ g, wake (set_suspenders [] g))
               (with_objects <[this := with_pcount (m_pcount o - 1) o]> v3)).
  set (v5 := with_manager (λ g, set_sysc_lock Locked (set_sysc_notify NoWaiter g)) v4).
  assert (Hheard : ∃ v, heard w = (Ok tt, v) ∧ suspenders (g_manager v) = []).
  { unfold heard. rewrite Hstart. cbn [map].
    assert (Hwait : cv_wait suspend_manager.no_requests
        (by_others [] :: by_others [Resume this] :: map by_others rest) w2 = (Ok tt, v5)).
    { rewrite cv_wait_eq, (bind_ok _ _ _ _ _ Hpred). cbv beta iota.
      rewrite (bind_ok _ _ w2 tt w2) by done.
      rewrite (bind_ok _ _ w2 tt v3) by apply cv_block_eq.
      rewrite cv_sleep_cons.
      rewrite (bind_ok _ _ v3 tt v4) by (by apply Hresume).
      rewrite (bind_ok _ _ v4 Notified v4) by done. cbv beta iota.
      rewrite (bind_ok _ _ v4 tt v5) by (by apply cv_wake_eq).
      rewrite cv_wait_eq.
      rewrite (bind_ok _ _ v5 true v5) by (by rewrite no_requests_eq). done. }
    rewrite (bind_ok _ _ _ _ _ Hwait).
    rewrite (bind_ok _ _ v5 tt _ (notify_resume_eq v5)).
    eexists. split; [reflexivity|done]. }
  destruct Hheard as (v & Hheard & Hempty).
  unfold result_of, state_after. rewrite Hlost, Hheard. cbn [fst snd].
  repeat split; done.
Qed.

Lemma handle_requests_lost_wakeup_witness :
  let top := [SCObject "top" true [SCObject "cpu" true []]] in
  let w := state_after
    (suspender.ctor 1 "dbg" None ;; suspender.suspend 1 false other_thread)
    (boot true top) in
  let lost := suspend_manager.handle_requests (by_others [])
                (map by_others ([Resume 1] :: replicate 3 [])) in
  let heard := suspend_manager.handle_requests (by_others [])
                 (map by_others ([] :: [Resume 1] :: [])) in
  suspenders (g_manager w) = [1%nat]
  ∧ result_of lost w = Block
  ∧ suspenders (g_manager (state_after lost w)) = []
  ∧ callbacks (state_after lost w) = [session_suspend "cpu"; session_suspend "top"]
  ∧ result_of heard w = Ok tt.
Proof.
  intros top w lost heard. split; [reflexivity|].
  destruct (handle_requests_lost_wakeup 1 w
    {| m_pcount := 1; m_name := "dbg"; m_owner := None |} 3 [])
    as (Hblock & Hreg & _ & _ & _ & Hcalls & Hheard & _); [reflexivity..|].
  split; [exact Hblock|]. split; [exact Hreg|]. split; [exact Hcalls|exact Hheard].
Defined.

(** C3, as the specification words it, fails: after a handle is
    constructed and suspended, [force_resume] leaves its counter at 1
    while the registry is empty, so [count()] is 0 and the number of
    identities with counter greater than 0 is 1. *)
Lemma registry_counters_counterexample :
  let w := state_after (do_step (ByController ForceResume))
    (state_after (do_step (ByController (Suspend 1 false)))
      (state_after (do_step (ByController (Construct 1 "dbg" None)))
        (boot true []))) in
  reachable w
  ∧ result_of suspend_manager.count w = Ok 0%nat
  ∧ size (active_identities w) = 1%nat
  ∧ m_pcount <$> objects w !! 1%nat = Some 1
  ∧ ¬ registry_matches_counters w.
Proof.
  intros w. split; [do 3 apply reachable_step; apply reachable_boot|].
  split; [reflexivity|]. split; [by vm_compute|]. split; [reflexivity|].
  intros [_ Hiff]. specialize (Hiff 1%nat). rewrite elem_of_active_identities in Hiff.
  assert (Hactive : ∃ o, objects w !! 1%nat = Some o ∧ 0 < m_pcount o).
  { eexists. split; [reflexivity|]. cbn. lia. }
  apply Hiff in Hactive. by apply elem_of_nil in Hactive.
Qed.

(** C3, amended: in every state reached from static initialisation by
    steps of the loop thread and of the kernel and by calls of
    controller threads other than [force_resume], a [suspend] from
    counter 0 while the simulation is not running, and the destructor at
    depth 2 or more, the registry holds exactly the identities whose
    counter is greater than 0, each once, and [count()] is their
    number. *)
Theorem registry_counters_within_protocol (w : world) :
  reachable_within_protocol w →
  registry_matches_counters w
  ∧ result_of suspend_manager.count w = Ok (size (active_identities w)).
Proof.
  intros [Hidle Hm]%within_protocol_invariant.
  split; [by apply registry_matches_counters_alt|].
  unfold result_of. rewrite count_eq by done. cbn [fst]. f_equal.
  by apply matches_length.
Qed.

Lemma registry_counters_within_protocol_witness :
  let w := state_after (do_step (ByController (Resume 1)))
    (state_after (do_step (ByController (Suspend 2 false)))
      (state_after (do_step (ByController (Suspend 1 false)))
        (state_after (do_step (ByController (Construct 2 "gdb" None)))
          (state_after (do_step (ByController (Construct 1 "dbg" None)))
            (boot true []))))) in
  suspenders (g_manager w) = [2%nat]
  ∧ registry_matches_counters w
  ∧ result_of suspend_manager.count w = Ok (size (active_identities w)).
Proof.
  intros w. split; [reflexivity|].
  apply (registry_counters_within_protocol w).
  repeat (apply within_step; [|cbn; try done; intros; reflexivity]).
  apply within_boot.
Defined.

(** C6: after any history of steps from static initialisation, with
    the time each registered identity entered the registry kept along:
    the registered identities are the ones that are still active; while
    the loop is paused and the registry is not empty, [current()] is a
    registered identity that no other registered identity entered
    before; when the registry is empty or the loop is not paused,
    [current()] is none.  In particular, if A registers, then B, and the
    loop pauses, [current()] is A; after A resumes, with B still
    registered, [current()] is B. *)
Theorem current_earliest_registered
    (running : bool) (top : list sc_object) (history : list step) :
  let since := (run_stamped history 0 ∅ (boot running top)).1 in
  let w := (run_stamped history 0 ∅ (boot running top)).2 in
  (∀ s, s ∈ suspenders (g_manager w) ↔ is_Some (since !! s))
  ∧ (loop_paused w → suspenders (g_manager w) ≠ [] →
     ∃ s, suspend_manager.current w = (Ok (Some s), w)
          ∧ earliest_registered since s)
  ∧ (suspenders (g_manager w) = [] ∨ ¬ loop_paused w →
     suspend_manager.current w = (Ok None, w))
  ∧ (∀ (A B : nat) (w0 : world),
       A ≠ B → idle w0 → sc_running w0 = true → suspenders (g_manager w0) = [] →
       let both := state_after cv_block
         (state_after (suspend_manager.request_pause B)
           (state_after (suspend_manager.request_pause A) w0)) in
       let only_b := state_after (suspend_manager.request_resume A) both in
       result_of suspend_manager.current both = Ok (Some A)
       ∧ result_of suspend_manager.current only_b = Ok (Some B)).
Proof.
  intros since w.
  destruct (run_stamped_invariant history 0 ∅ (boot running top)) as [Hidle [now Hst]].
  { done. }
  { split; [|split; [|constructor]].
    - intros s. rewrite lookup_empty. split; [by intros [? ?]|by intros ?%elem_of_nil].
    - intros s t. by rewrite lookup_empty. }
  fold since w in Hidle, Hst.
  split; [intros s; symmetry; apply Hst|]. split; [|split].
  - intros Hpaused Hne. rewrite current_eq by done.
    unfold loop_paused in Hpaused. rewrite Hpaused.
    destruct (suspenders (g_manager w)) as [|s rest] eqn:Hreg; [done|].
    exists s. split; [done|]. by apply (stamped_head now since (s :: rest)).
  - intros Hnone. rewrite current_eq by done.
    destruct Hnone as [->|Hrun]; [by destruct (sysc_lock _)|].
    unfold loop_paused in Hrun. by destruct (sysc_lock (g_manager w)).
  - intros A B w0 HAB Hidle0 Hrun0 Hreg0 both only_b.
    assert (HA : state_after (suspend_manager.request_pause A) w0 = register A w0).
    { unfold state_after. by rewrite request_pause_eq, Hrun0. }
    assert (HB : state_after (suspend_manager.request_pause B) (register A w0)
                 = register B (register A w0)).
    { unfold state_after. rewrite request_pause_eq by done.
      change (sc_running (register A w0)) with (sc_running w0). by rewrite Hrun0. }
    assert (Hlist : suspenders (g_manager both) = [A; B]).
    { unfold both. rewrite HA, HB. cbn. rewrite Hreg0.
      rewrite (stl_add_unique_fresh [] A) by apply not_elem_of_nil.
      rewrite stl_add_unique_fresh; [done|].
      by intros ?%list_elem_of_singleton. }
    assert (Hidle1 : idle both) by (unfold both; by rewrite HA, HB).
    assert (Hpaused : sysc_lock (g_manager both) = Unlocked) by done.
    assert (Hlist' : suspenders (g_manager only_b) = [B]).
    { unfold only_b, state_after. rewrite request_resume_eq by done. cbn [snd].
      rewrite suspenders_unregister, Hlist. unfold stl_remove_erase.
      rewrite filter_cons_False by (intros ?; done).
      by rewrite filter_cons_True by done. }
    assert (Hidle2 : idle only_b).
    { unfold only_b, state_after. rewrite request_resume_eq by done.
      by apply idle_unregister. }
    assert (Hpaused' : sysc_lock (g_manager only_b) = Unlocked).
    { unfold only_b, state_after. rewrite request_resume_eq by done. cbn [snd].
      by rewrite sysc_lock_unregister. }
    unfold result_of. rewrite !current_eq by done.
    by rewrite Hpaused, Hpaused', Hlist, Hlist'.
Qed.

Lemma current_earliest_registered_witness :
  let history :=
    [ByController (Construct 1 "dbg" None); ByController (Construct 2 "gdb" None);
     ByController (Suspend 1 false); ByController (Suspend 2 false);
     LoopEnters; LoopSleeps; ByController (Resume 1)] in
  let since := (run_stamped history 0 ∅ (boot true [])).1 in
  let w := (run_stamped history 0 ∅ (boot true [])).2 in
  suspenders (g_manager w) = [2%nat]
  ∧ since !! 2%nat = Some 3%nat
  ∧ ∃ s, suspend_manager.current w = (Ok (Some s), w) ∧ earliest_registered since s.
Proof.
  intros history since w. split; [reflexivity|]. split; [reflexivity|].
  refine (proj1 (proj2 (current_earliest_registered true [] history)) _ _).
  - reflexivity.
  - vm_compute. discriminate.
Defined.

(** ** Further properties of the handle and the gate *)

(** X1: an unmatched [resume] (counter 0) is reported after the counter
    was decremented, so the handle is left at -1 and the gate untouched;
    the next [suspend] then only brings the counter back to 0: it
    neither registers the handle nor raises a report. *)
Theorem unmatched_resume_then_suspend
    (this : nat) (wait : bool) (caller : thread) (w : world) (o : suspender) :
  idle w →
  objects w !! this = Some o →
  m_pcount o = 0 →
  let after_resume := state_after (suspender.resume this) w in
  let after_suspend := state_after (suspender.suspend this wait caller) after_resume in
  suspender.resume this w =
    (Throw "unmatched resume", with_objects <[this := with_pcount (-1) o]> w)
  ∧ result_of (suspender.suspend this wait caller) after_resume = await_pause wait caller w
  ∧ m_pcount <$> objects after_suspend !! this = Some 0
  ∧ g_manager after_suspend = g_manager w.
Proof.
  intros Hidle Hobj Hzero after_resume after_suspend.
  assert (Hres : suspender.resume this w =
    (Throw "unmatched resume", with_objects <[this := with_pcount (-1) o]> w)).
  { rewrite (resume_eq this w o Hidle Hobj), Hzero. done. }
  split; [exact Hres|].
  assert (Hafter : after_resume = with_objects <[this := with_pcount (-1) o]> w).
  { unfold after_resume, state_after. by rewrite Hres. }
  assert (Hsus : suspender.suspend this wait caller after_resume =
    (await_pause wait caller w,
     with_objects <[this := with_pcount 0 (with_pcount (-1) o)]> after_resume)).
  { rewrite (suspend_eq this after_resume (with_pcount (-1) o)).
    - cbn zeta. by rewrite Hafter.
    - by rewrite Hafter.
    - rewrite Hafter. cbn. apply lookup_insert_eq. }
  unfold after_suspend, result_of, state_after. rewrite Hsus. cbn [fst snd].
  split; [done|]. split; [|by rewrite Hafter].
  cbn. by rewrite lookup_insert_eq.
Qed.

Lemma unmatched_resume_then_suspend_witness :
  let w := state_after (suspender.ctor 1 "dbg" None) (boot true []) in
  let after := state_after (suspender.suspend 1 false other_thread)
                 (state_after (suspender.resume 1) w) in
  result_of (suspender.resume 1) w = Throw "unmatched resume"
  ∧ suspenders (g_manager after) = []
  ∧ m_pcount <$> objects after !! 1%nat = Some 0.
Proof.
  intros w after.
  pose proof (unmatched_resume_then_suspend 1 false other_thread w
    {| m_pcount := 0; m_name := "dbg"; m_owner := None |}) as H.
  destruct H as (Hres & _ & Hcount & Hgate); [reflexivity..|].
  split; [unfold result_of; by rewrite Hres|].
  split; [unfold after; by rewrite Hgate|exact Hcount].
Defined.

(** X2: after [force_resume] a handle whose counter is still greater
    than 0 cannot ask for a pause: [suspend] only increments the
    counter, the registry stays empty and [is_suspending()] stays
    false. *)
Theorem suspend_after_force_resume_not_registered
    (this : nat) (wait : bool) (caller : thread) (w : world) (o : suspender) :
  idle w →
  objects w !! this = Some o →
  0 < m_pcount o →
  let cleared := state_after suspender.force_resume w in
  let again := state_after (suspender.suspend this wait caller) cleared in
  result_of (suspender.suspend this wait caller) cleared = await_pause wait caller w
  ∧ m_pcount <$> objects again !! this = Some (m_pcount o + 1)
  ∧ suspenders (g_manager again) = []
  ∧ result_of (suspender.is_suspending this) again = Ok false.
Proof.
  intros Hidle Hobj Hpos cleared again.
  assert (Hcleared : cleared = clear_all w).
  { unfold cleared, state_after, suspender.force_resume. by rewrite force_resume_eq. }
  assert (Hsus : suspender.suspend this wait caller cleared =
    (await_pause wait caller w,
     with_objects <[this := with_pcount (m_pcount o + 1) o]> cleared)).
  { rewrite (suspend_eq this cleared o); [|by rewrite Hcleared..]. cbn zeta.
    destruct (Z.eqb_spec (m_pcount o) 0) as [?|_]; [lia|]. by rewrite Hcleared. }
  unfold again, result_of, state_after. rewrite Hsus. cbn [fst snd].
  split; [done|]. split; [cbn; by rewrite lookup_insert_eq|].
  split; [by rewrite Hcleared|].
  rewrite suspender_is_suspending_eq by (by rewrite Hcleared).
  by rewrite Hcleared.
Qed.

Lemma suspend_after_force_resume_not_registered_witness :
  let w := state_after
    (suspender.ctor 1 "dbg" None ;; suspender.suspend 1 false other_thread)
    (boot true []) in
  let again := state_after (suspender.suspend 1 false other_thread)
                 (state_after suspender.force_resume w) in
  suspenders (g_manager w) = [1%nat]
  ∧ suspenders (g_manager again) = []
  ∧ m_pcount <$> objects again !! 1%nat = Some 2.
Proof.
  intros w again. split; [reflexivity|].
  pose proof (suspend_after_force_resume_not_registered 1 false other_thread w
    {| m_pcount := 1; m_name := "dbg"; m_owner := None |}) as H.
  destruct H as (_ & Hcount & Hreg & _); [reflexivity|reflexivity|cbn; lia|].
  split; [exact Hreg|exact Hcount].
Defined.

(** *** The registry in every reachable state *)

Lemma NoDup_registry_step reg reg' :
  registry_step reg reg' → NoDup reg → NoDup reg'.
Proof.
  intros [->|[[s ->]|[[s ->]| ->]]] Hnd.
  - done.
  - by apply NoDup_stl_add_unique.
  - by apply NoDup_stl_remove_erase.
  - constructor.
Qed.

Lemma reachable_registry_NoDup w :
  reachable w → NoDup (suspenders (g_manager w)).
Proof.
  induction 1 as [running top|e w Hreach IH]; [constructor|].
  eapply NoDup_registry_step; [|exact IH].
  apply do_step_registry, reachable_idle, Hreach.
Qed.

(** X3: whatever the threads do, in any order and with any refused or
    unmatched calls, no identity is ever twice in the registry, and
    [count()] is the number of distinct registered identities. *)
Theorem registry_never_duplicates (w : world) :
  reachable w →
  NoDup (suspenders (g_manager w))
  ∧ result_of suspend_manager.count w =
      Ok (size (list_to_set (C := gset nat) (suspenders (g_manager w)))).
Proof.
  intros Hreach. pose proof (reachable_registry_NoDup w Hreach) as Hnd.
  split; [exact Hnd|]. unfold result_of.
  rewrite count_eq by (by apply reachable_idle). cbn. f_equal.
  symmetry. by apply size_list_to_set.
Qed.

Lemma registry_never_duplicates_witness :
  NoDup (suspenders (g_manager
    (state_after (do_step (ByController (Suspend 1 false)))
      (state_after (do_step (ByController (Suspend 1 false)))
        (state_after (do_step (ByController (Construct 1 "dbg" None)))
          (boot true [])))))).
Proof.
  refine (proj1 (registry_never_duplicates _ _)).
  do 3 apply reachable_step. apply reachable_boot.
Defined.

Lemma reachable_releasing_reachable w : reachable_releasing w → reachable w.
Proof. induction 1; by constructor. Qed.

Lemma perform_keeps_active c w :
  idle w → releases_on_destroy (ByController c) w →
  registered_are_active w →
  registered_are_active (state_after (perform c) w).
Proof.
  intros Hidle Hrel Hact. unfold state_after.
  destruct c as [this name top|this|this wait|this|this| | | |]; cbn [perform].
  - unfold suspender.ctor. destruct (objects w !! this) eqn:Hobj; cbn; [done|].
    intros s Hs. destruct (Hact s Hs) as (o & Ho & Hpos). exists o. split; [|done].
    cbn. rewrite lookup_insert_ne; [done|congruence].
  - destruct (objects w !! this) as [o|] eqn:Hobj.
    + rewrite (dtor_eq this w o Hidle Hobj).
      destruct (stl_contains _ _) eqn:Hin; cbn zeta.
      * apply stl_contains_true in Hin. destruct (Hact this Hin) as (o' & Ho' & Hpos).
        assert (o' = o) as -> by congruence.
        specialize (Hrel o Hobj).
        destruct (Z.eqb_spec (m_pcount o - 1) 0) as [_|?]; [|lia].
        intros s Hs. cbn [snd objects with_objects g_manager] in Hs |- *.
        rewrite suspenders_unregister in Hs.
        apply elem_of_stl_remove_erase in Hs as [Hs Hne].
        destruct (Hact s Hs) as (os & Hos & Hposs). exists os. split; [|done].
        change (objects (unregister this w)) with (objects w).
        by rewrite lookup_delete_ne.
      * apply stl_contains_false in Hin. intros s Hs. cbn in Hs |- *.
        destruct (Hact s Hs) as (os & Hos & Hposs). exists os. split; [|done].
        rewrite lookup_delete_ne; [done|]. intros ->. done.
    + unfold suspender.dtor, bind. by rewrite deref_dead.
  - destruct (objects w !! this) as [o|] eqn:Hobj.
    + rewrite (suspend_eq this w o Hidle Hobj). cbn zeta.
      assert (Hkeep : ∀ s, s ∈ suspenders (g_manager w) →
        ∃ o', <[this := with_pcount (m_pcount o + 1) o]> (objects w) !! s = Some o'
              ∧ 0 < m_pcount o').
      { intros s Hs. destruct (Hact s Hs) as (os & Hos & Hposs).
        destruct (decide (s = this)) as [->|Hne].
        - exists (with_pcount (m_pcount o + 1) o). rewrite lookup_insert_eq.
          split; [done|]. assert (os = o) as -> by congruence. cbn. lia.
        - exists os. by rewrite lookup_insert_ne. }
      destruct (Z.eqb_spec (m_pcount o) 0) as [Hz|Hnz];
        [destruct (sc_running w)|]; cbn; try exact Hkeep.
      intros s [Hs| ->]%elem_of_stl_add_unique; [by apply Hkeep|].
      exists (with_pcount (m_pcount o + 1) o). split; [|cbn; lia].
      change (objects (register this ?x)) with (objects x). cbn.
      apply lookup_insert_eq.
    + unfold suspender.suspend, suspender.pcount_post_increment, bind.
      by rewrite deref_dead.
  - destruct (objects w !! this) as [o|] eqn:Hobj.
    + rewrite (resume_eq this w o Hidle Hobj). cbn zeta.
      destruct (Z.eqb_spec (m_pcount o - 1) 0) as [Hz|Hnz].
      * intros s Hs. cbn [snd] in Hs |- *. rewrite suspenders_unregister in Hs.
        apply elem_of_stl_remove_erase in Hs as [Hs Hne]. cbn in Hs.
        destruct (Hact s Hs) as (os & Hos & Hposs). exists os. split; [|done].
        change (objects (unregister this ?x)) with (objects x). cbn.
        by rewrite lookup_insert_ne.
      * assert (Hkeep : ∀ s, s ∈ suspenders (g_manager w) →
          ∃ o', <[this := with_pcount (m_pcount o - 1) o]> (objects w) !! s = Some o'
                ∧ 0 < m_pcount o').
        { intros s Hs. destruct (Hact s Hs) as (os & Hos & Hposs).
          destruct (decide (s = this)) as [->|Hne].
          - exists (with_pcount (m_pcount o - 1) o). rewrite lookup_insert_eq.
            split; [done|]. assert (os = o) as -> by congruence. cbn. lia.
          - exists os. by rewrite lookup_insert_ne. }
        destruct (_ <? 0); cbn; exact Hkeep.
    + unfold suspender.resume, suspender.pcount_pre_decrement, bind.
      by rewrite deref_dead.
  - unfold suspender.is_suspending, bind. by rewrite is_suspending_eq.
  - unfold suspender.current, bind. by rewrite current_eq.
  - unfold suspender.force_resume. rewrite force_resume_eq by done.
    intros s Hs. cbn [snd] in Hs. rewrite suspenders_clear_all in Hs.
    by apply elem_of_nil in Hs.
  - done.
  - unfold spurious_wakeup. by rewrite notify_all_eq.
Qed.

(** X4: as long as no handle is destroyed at depth 2 or more, every
    registered identity is a live handle with a counter greater than 0,
    also after [force_resume], refused calls and unmatched resumes; so
    [count()] never exceeds the number of handles with such a counter. *)
Theorem registered_handles_are_active (w : world) :
  reachable_releasing w →
  registered_are_active w
  ∧ ∃ n, result_of suspend_manager.count w = Ok n
         ∧ (n ≤ size (active_identities w))%nat.
Proof.
  intros Hreach.
  assert (Hact : registered_are_active w).
  { induction Hreach as [running top|e w Hreach IH Hrel].
    - intros s Hs. by apply elem_of_nil in Hs.
    - pose proof (reachable_idle w (reachable_releasing_reachable w Hreach)) as Hidle.
      destruct e as [c| | | | |b]; [by apply perform_keeps_active|..];
        match goal with
        | |- registered_are_active (state_after (do_step ?e) _) =>
            destruct (do_step_frame e w Hidle) as [_ [Hreg Hobjs]]
        end;
        unfold registered_are_active; by rewrite Hreg, Hobjs. }
  split; [exact Hact|].
  pose proof (reachable_releasing_reachable w Hreach) as Hr.
  exists (length (suspenders (g_manager w))). unfold result_of.
  rewrite count_eq by (by apply reachable_idle). split; [done|].
  rewrite <- (size_list_to_set (C := gset nat) _ (reachable_registry_NoDup w Hr)).
  apply subseteq_size. intros s Hs%elem_of_list_to_set.
  by apply elem_of_active_identities, Hact.
Qed.

Lemma registered_handles_are_active_witness :
  let w := state_after (do_step (ByController ForceResume))
    (state_after (do_step (ByController (Suspend 1 false)))
      (state_after (do_step (ByController (Construct 1 "dbg" None)))
        (boot true []))) in
  registered_are_active w
  ∧ ∃ n, result_of suspend_manager.count w = Ok n
         ∧ (n ≤ size (active_identities w))%nat.
Proof.
  intros w. apply registered_handles_are_active.
  unfold w. do 3 (apply releasing_step; [|exact I]). apply releasing_boot.
Defined.

(** *** [current()] between calls *)

Lemma head_registry_step reg reg' s :
  registry_step reg reg' → head reg = Some s → s ∈ reg' → head reg' = Some s.
Proof.
  intros Hstep Hhead Hin. destruct reg as [|x reg]; [done|].
  injection Hhead as ->.
  destruct Hstep as [->|[[t ->]|[[t ->]| ->]]].
  - done.
  - unfold stl_add_unique. by destruct (stl_contains _ _).
  - unfold stl_remove_erase in *. destruct (decide (s ≠ t)) as [Hne|Heq].
    + by rewrite filter_cons_True.
    + apply list_elem_of_filter in Hin as [Hne _]. done.
  - by apply elem_of_nil in Hin.
Qed.

(** X5: the identity [current()] reports stays the reported one across
    any call of a controller thread, as long as it stays registered:
    later requests queue behind it and releasing another handle does not
    move it. *)
Theorem current_stable_while_registered (c : call) (w : world) (s : nat) :
  idle w →
  result_of suspender.current w = Ok (Some s) →
  s ∈ suspenders (g_manager (state_after (perform c) w)) →
  result_of suspender.current (state_after (perform c) w) = Ok (Some s).
Proof.
  intros Hidle Hcur Hin.
  destruct (perform_effect c w Hidle) as (Hgate & _).
  destruct (gate_change_facts _ _ Hidle Hgate) as (Hidle' & Hlock & _ & _ & _ & Hshape).
  unfold result_of, suspender.current in *.
  rewrite current_eq in Hcur by done. rewrite current_eq by done. cbn in *.
  rewrite Hlock. destruct (sysc_lock (g_manager w)); [|done].
  injection Hcur as Hhead. f_equal.
  by apply (head_registry_step (suspenders (g_manager w))).
Qed.

Lemma current_stable_while_registered_witness :
  let w := state_after
    (suspender.ctor 1 "a" None ;; suspender.ctor 2 "b" None ;;
     suspender.suspend 1 false other_thread ;; cv_block) (boot true []) in
  result_of suspender.current w = Ok (Some 1%nat)
  ∧ result_of suspender.current (state_after (perform (Suspend 2 false)) w)
    = Ok (Some 1%nat).
Proof.
  intros w. split; [reflexivity|].
  apply current_stable_while_registered; [reflexivity|reflexivity|].
  vm_compute. apply list_elem_of_here.
Defined.

(** *** Waiting in [suspend] *)

(** X6: a [suspend] that is not refused blocks exactly when it is made
    with [wait] from a thread other than the SystemC thread while the
    loop-block indicator is held; from the SystemC thread it never
    blocks.  What it does to the counter and the registry does not
    depend on [wait] or on the caller: the request is placed before the
    caller blocks. *)
Theorem suspend_blocks_waiting_controller
    (this : nat) (wait : bool) (caller : thread) (w : world) (o : suspender) :
  idle w →
  objects w !! this = Some o →
  (m_pcount o = 0 → sc_running w = true) →
  (result_of (suspender.suspend this wait caller) w = Block
   ↔ wait = true ∧ caller = other_thread ∧ sysc_lock (g_manager w) = Locked)
  ∧ (result_of (suspender.suspend this wait caller) w = Block
     ∨ result_of (suspender.suspend this wait caller) w = Ok tt)
  ∧ state_after (suspender.suspend this wait caller) w
    = state_after (suspender.suspend this false sysc_thread) w.
Proof.
  intros Hidle Hobj Hrun. unfold result_of, state_after.
  rewrite !(suspend_eq this w o Hidle Hobj). cbn zeta.
  assert (Hres : (if m_pcount o =? 0
      then if sc_running w
           then (await_pause wait caller w,
                 register this (with_objects <[this:=with_pcount (m_pcount o + 1) o]> w))
           else (Throw "cannot suspend, simulation not running",
                 with_objects <[this:=with_pcount (m_pcount o + 1) o]> w)
      else (await_pause wait caller w,
            with_objects <[this:=with_pcount (m_pcount o + 1) o]> w)).1
    = await_pause wait caller w).
  { destruct (Z.eqb_spec (m_pcount o) 0) as [Hz|_]; [|done]. by rewrite (Hrun Hz). }
  rewrite Hres. split; [|split].
  - unfold await_pause.
    destruct wait, caller, (sysc_lock (g_manager w)); cbn; split;
      first [done|by intros (? & ? & ?)|tauto].
  - destruct (await_pause_cases wait caller w); auto.
  - destruct (m_pcount o =? 0); [destruct (sc_running w)|]; done.
Qed.

Lemma suspend_blocks_waiting_controller_witness :
  let w := state_after (suspender.ctor 1 "dbg" None) (boot true []) in
  result_of (suspender.suspend 1 true other_thread) w = Block
  ∧ result_of (suspender.suspend 1 true sysc_thread) w = Ok tt
  ∧ suspenders (g_manager (state_after (suspender.suspend 1 true other_thread) w))
    = [1%nat].
Proof.
  intros w.
  pose proof (suspend_blocks_waiting_controller 1 true other_thread w
    {| m_pcount := 0; m_name := "dbg"; m_owner := None |}) as H.
  destruct H as (Hblock & _ & Hstate); [reflexivity..|].
  split; [by apply Hblock|]. split; [reflexivity|]. by rewrite Hstate.
Defined.

(** *** [force_resume] and a blocked loop thread *)

Lemma concurrently_app cs cs' w :
  concurrently (by_others (cs ++ cs')) w =
  concurrently (by_others cs') (state_after (concurrently (by_others cs)) w).
Proof.
  revert w. induction cs as [|c cs IH]; intros w; [done|].
  cbn [app by_others map concurrently]. apply IH.
Qed.

Lemma concurrently_force_resume_last cs w :
  idle w →
  sysc_notify (g_manager w) = Waiting →
  ∃ w', concurrently (by_others (cs ++ [ForceResume])) w = (Ok tt, w')
        ∧ idle w'
        ∧ sysc_lock (g_manager w') = sysc_lock (g_manager w)
        ∧ is_suspended (g_manager w') = is_suspended (g_manager w)
        ∧ suspenders (g_manager w') = []
        ∧ sysc_notify (g_manager w') = Notified.
Proof.
  intros Hidle Hwait. rewrite concurrently_app.
  destruct (concurrently_calls cs w Hidle)
    as (_ & Hidle1 & Hlock1 & Hflag1 & _ & _ & _ & _ & Hwake).
  set (w1 := state_after (concurrently (by_others cs)) w) in *.
  cbn [by_others map concurrently perform]. unfold state_after at 1.
  unfold suspender.force_resume. rewrite force_resume_eq by done.
  eexists. split; [reflexivity|]. cbn [snd].
  split; [done|]. split; [done|]. split; [done|]. split; [done|].
  cbn. by destruct (Hwake Hwait) as [->|[-> _]].
Qed.

(** Blocked in the wait, the loop thread is let out by a
    [force_resume] that is the last call before it is scheduled. *)
Lemma cv_sleep_force_resume cs (rest : list (list call)) w :
  idle w →
  sysc_lock (g_manager w) = Unlocked →
  sysc_notify (g_manager w) = Waiting →
  ∃ w', cv_sleep suspend_manager.no_requests
          (map by_others ((cs ++ [ForceResume]) :: rest)) w = (Ok tt, w')
        ∧ is_suspended (g_manager w') = is_suspended (g_manager w)
        ∧ woke_on_empty w'.
Proof.
  intros Hidle Hlock Hwait. cbn [map]. rewrite cv_sleep_cons.
  destruct (concurrently_force_resume_last cs w Hidle Hwait)
    as (w1 & Hrun & Hidle1 & Hlock1 & Hflag1 & Hnil & Hnot).
  rewrite (bind_ok _ _ _ _ _ Hrun).
  rewrite (bind_ok _ _ w1 Notified w1) by (unfold gets; by rewrite Hnot).
  cbv beta iota.
  assert (Hunlocked : sysc_lock (g_manager w1) = Unlocked) by congruence.
  rewrite (bind_ok _ _ _ _ _ (cv_wake_eq w1 Hunlocked)).
  set (w2 := with_manager _ w1).
  rewrite cv_wait_eq.
  assert (Hpred : suspend_manager.no_requests w2 = (Ok true, w2)).
  { rewrite no_requests_eq by done.
    change (suspenders (g_manager w2)) with (suspenders (g_manager w1)).
    by rewrite Hnil. }
  rewrite (bind_ok _ _ _ _ _ Hpred). exists w2. by repeat split.
Qed.

(** X7: a [force_resume] made while the loop thread is blocked in the
    wait of [handle_requests] lets it out: if [force_resume] is the
    last call the other threads make before the blocked loop thread is
    scheduled for the first time, the hook returns, whatever the other
    threads did before (also between the test of the registry and the
    block) and whatever the counters of the handles are; the registry
    is then empty and the loop thread holds the loop-block indicator
    again. *)
Theorem force_resume_releases_loop
    (before gap cs : list call) (rest : list (list call)) (w : world) :
  idle w →
  sysc_lock (g_manager w) = Locked →
  sysc_notify (g_manager w) = NoWaiter →
  let hook := suspend_manager.handle_requests (by_others before)
                (map by_others (gap :: (cs ++ [ForceResume]) :: rest)) in
  result_of hook w = Ok tt
  ∧ suspenders (g_manager (state_after hook w)) = []
  ∧ sysc_lock (g_manager (state_after hook w)) = Locked.
Proof.
  intros Hidle Hlock Hnotify hook. unfold result_of, state_after.
  destruct (hook w) as [r w'] eqn:Hhook. cbn [fst snd].
  unfold hook, suspend_manager.handle_requests in Hhook.
  rewrite (bind_ok _ _ w _ w (count_eq w Hidle)) in Hhook.
  destruct (suspenders (g_manager w)) as [|s reg] eqn:Hreg.
  { cbn in Hhook. unfold ret in Hhook. injection Hhook as <- <-. by rewrite Hreg. }
  cbn [length Nat.eqb] in Hhook.
  set (w1 := with_manager (set_is_suspended true) w).
  rewrite (bind_ok _ _ w tt w1) in Hhook by done.
  rewrite (bind_ok _ _ w1 tt _ (notify_suspend_eq w1)) in Hhook.
  set (w2 := with_callbacks _ w1) in Hhook.
  assert (Hidle2 : idle w2) by done.
  destruct (concurrently_calls before w2 Hidle2) as [Hres3 Hothers].
  unfold result_of, state_after in Hres3, Hothers.
  destruct (concurrently (by_others before) w2) as [r3 w3] eqn:Hbefore.
  cbn in Hres3, Hothers. subst r3.
  rewrite (bind_ok _ _ _ _ _ Hbefore) in Hhook.
  destruct Hothers as (Hidle3 & Hlock3 & _ & _ & _ & Hnone3 & _).
  assert (Hwait : ∃ w4, cv_wait suspend_manager.no_requests
      (map by_others (gap :: (cs ++ [ForceResume]) :: rest)) w3 = (Ok tt, w4)
      ∧ woke_on_empty w4).
  { rewrite cv_wait_eq. rewrite (bind_ok _ _ _ _ _ (no_requests_eq w3 Hidle3)).
    destruct (bool_decide_reflect (suspenders (g_manager w3) = [])) as [Hnil|Hsome].
    - exists w3. split; [done|]. split; [done|]. split; [by rewrite Hlock3|].
      by apply Hnone3.
    - cbn [map].
      destruct (concurrently_calls gap w3 Hidle3) as [Hres4 Hgap].
      unfold result_of, state_after in Hres4, Hgap.
      destruct (concurrently (by_others gap) w3) as [r4 w4] eqn:Hrun4.
      cbn in Hres4, Hgap. subst r4.
      rewrite (bind_ok _ _ _ _ _ Hrun4).
      rewrite (bind_ok _ _ _ _ _ (cv_block_eq w4)).
      set (w5 := with_manager _ w4).
      destruct (cv_sleep_force_resume cs rest w5) as (w6 & Hrun6 & _ & Hwoke);
        [apply Hgap|done|done|].
      exists w6. by rewrite <- Hrun6. }
  destruct Hwait as (w4 & Hwait & Hempty & Hlocked & _).
  rewrite (bind_ok _ _ _ _ _ Hwait) in Hhook.
  rewrite (bind_ok _ _ _ _ _ (notify_resume_eq w4)) in Hhook.
  by injection Hhook as <- <-.
Qed.

Lemma force_resume_releases_loop_witness :
  let w := state_after
    (suspender.ctor 1 "dbg" None ;; suspender.suspend 1 false other_thread ;;
     suspender.suspend 1 false other_thread)
    (boot true []) in
  let hook := suspend_manager.handle_requests (by_others [])
                (map by_others ([Resume 1] :: ([Suspend 1 false] ++ [ForceResume]) :: [])) in
  suspenders (g_manager w) = [1%nat]
  ∧ result_of hook w = Ok tt
  ∧ suspenders (g_manager (state_after hook w)) = []
  ∧ sysc_lock (g_manager (state_after hook w)) = Locked.
Proof.
  intros w hook. split; [reflexivity|].
  apply (force_resume_releases_loop [] [Resume 1] [Suspend 1 false] [] w);
    reflexivity.
Defined.

(** *** The destructor at depth 1 *)

(** X8: destroying a handle that is registered with counter 1 releases
    its request: the identity leaves the registry, the others keep their
    order, the object is gone, and if it was the only one a loop thread
    sleeping in the wait is notified. *)
Theorem dtor_releases_single_request (this : nat) (w : world) (o : suspender) :
  idle w →
  objects w !! this = Some o →
  m_pcount o = 1 →
  this ∈ suspenders (g_manager w) →
  let w' := state_after (suspender.dtor this) w in
  result_of (suspender.dtor this) w = Ok tt
  ∧ objects w' = delete this (objects w)
  ∧ suspenders (g_manager w') = stl_remove_erase (suspenders (g_manager w)) this
  ∧ (this ∉ suspenders (g_manager w'))
  ∧ (suspenders (g_manager w) = [this] →
     sysc_notify (g_manager w) = Waiting →
     sysc_notify (g_manager w') = Notified).
Proof.
  intros Hidle Hobj Hone Hin w'.
  assert (Heq : suspender.dtor this w =
    (Ok tt, with_objects (delete this) (unregister this w))).
  { apply stl_contains_true in Hin.
    by rewrite (dtor_eq this w o Hidle Hobj), Hin, Hone. }
  unfold w', result_of, state_after. rewrite Heq. cbn [fst snd g_manager with_objects].
  split; [done|]. split; [done|]. rewrite suspenders_unregister.
  split; [done|]. split; [rewrite elem_of_stl_remove_erase; tauto|].
  intros Honly Hwait. unfold unregister, unregister_in, with_manager. cbn.
  rewrite Honly. unfold stl_remove_erase. rewrite filter_cons_False by tauto.
  rewrite filter_nil. cbn. by rewrite Hwait.
Qed.

Lemma dtor_releases_single_request_witness :
  let w := state_after
    (suspender.ctor 1 "dbg" None ;; suspender.suspend 1 false other_thread ;; cv_block)
    (boot true []) in
  let w' := state_after (suspender.dtor 1) w in
  suspenders (g_manager w) = [1%nat]
  ∧ suspenders (g_manager w') = []
  ∧ sysc_notify (g_manager w') = Notified.
Proof.
  intros w w'. split; [reflexivity|].
  pose proof (dtor_releases_single_request 1 w
    {| m_pcount := 1; m_name := "dbg"; m_owner := None |}) as H.
  destruct H as (_ & _ & Hreg & _ & Hwake);
    [reflexivity|reflexivity|reflexivity|vm_compute; apply list_elem_of_here|].
  split; [exact Hreg|]. apply Hwake; reflexivity.
Defined.

(** *** What the calls of a controller thread leave alone *)

Lemma perform_gate_shape c w :
  idle w → c ≠ SpuriousWakeup →
  let g := g_manager w in
  let g' := g_manager (state_after (perform c) w) in
  g' = g ∨ (∃ s, g' = register_in s g) ∨ (∃ s, g' = unregister_in s g) ∨ g' = clear_in g.
Proof.
  intros Hidle Hnot. cbn zeta. unfold state_after.
  destruct c as [this name top|this|this wait|this|this| | | |]; cbn [perform].
  - unfold suspender.ctor. destruct (objects w !! this); cbn; by left.
  - destruct (objects w !! this) as [o|] eqn:Hobj.
    + rewrite (dtor_eq this w o Hidle Hobj).
      destruct (stl_contains _ _); cbn zeta;
        [destruct (_ =? 0); [|destruct (_ <? 0)]|]; cbn;
        first [by left|right; right; left; by exists this].
    + unfold suspender.dtor, bind. rewrite deref_dead by done. by left.
  - destruct (objects w !! this) as [o|] eqn:Hobj.
    + rewrite (suspend_eq this w o Hidle Hobj). cbn zeta.
      destruct (_ =? 0); [destruct (sc_running w) eqn:Hrun|]; cbn;
        first [by left|right; left; by exists this].
    + unfold suspender.suspend, suspender.pcount_post_increment, bind.
      rewrite deref_dead by done. by left.
  - destruct (objects w !! this) as [o|] eqn:Hobj.
    + rewrite (resume_eq this w o Hidle Hobj). cbn zeta.
      destruct (_ =? 0); [|destruct (_ <? 0)]; cbn;
        first [by left|right; right; left; by exists this].
    + unfold suspender.resume, suspender.pcount_pre_decrement, bind.
      rewrite deref_dead by done. by left.
  - unfold suspender.is_suspending, bind. rewrite is_suspending_eq by done. by left.
  - unfold suspender.current, bind. rewrite current_eq by done. by left.
  - unfold suspender.force_resume. rewrite force_resume_eq by done.
    by right; right; right.
  - by left.
  - done.
Qed.

(** X9: one call on a handle changes the condition variable only if it
    leaves the registry empty: whenever the registry is not empty after
    the call, [sysc_notify] is as it was before that call.  (A
    notification made by an earlier call stays, so the loop thread can
    still be woken on a registry that has been filled again since.) *)
Theorem notified_only_on_empty_registry (c : call) (w : world) :
  idle w →
  c ≠ SpuriousWakeup →
  suspenders (g_manager (state_after (perform c) w)) ≠ [] →
  sysc_notify (g_manager (state_after (perform c) w)) = sysc_notify (g_manager w).
Proof.
  intros Hidle Hnot Hne.
  destruct (perform_gate_shape c w Hidle Hnot) as [Heq|[[s Heq]|[[s Heq]|Heq]]];
    rewrite Heq in Hne |- *; try done.
  unfold unregister_in in *.
  by destruct (stl_remove_erase (suspenders (g_manager w)) s).
Qed.

Lemma notified_only_on_empty_registry_witness :
  let w := state_after
    (suspender.ctor 1 "a" None ;; suspender.ctor 2 "b" None ;;
     suspender.suspend 1 false other_thread ;;
     suspender.suspend 2 false other_thread ;; cv_block) (boot true []) in
  sysc_notify (g_manager w) = Waiting
  ∧ sysc_notify (g_manager (state_after (perform (Resume 1)) w)) = Waiting.
Proof.
  intros w. split; [reflexivity|].
  rewrite (notified_only_on_empty_registry (Resume 1) w); [reflexivity..|done| ].
  vm_compute. done.
Defined.



(** X11: no call on a handle, accepted or refused, touches what belongs
    to the loop thread: the loop-block indicator is left as found (the
    probes of [current()] and of a waiting [suspend] are undone), the
    paused flag is unchanged, no notification callback is made, and
    [suspender_lock] is free again afterwards. *)
Theorem controller_calls_keep_loop_state (c : call) (w : world) :
  idle w →
  let w' := state_after (perform c) w in
  idle w'
  ∧ sysc_lock (g_manager w') = sysc_lock (g_manager w)
  ∧ is_suspended (g_manager w') = is_suspended (g_manager w)
  ∧ callbacks w' = callbacks w
  ∧ sc_running w' = sc_running w.
Proof.
  intros Hidle w'.
  destruct (perform_effect c w Hidle) as (Hgate & Hrun & _ & Hcalls).
  destruct (gate_change_facts _ _ Hidle Hgate) as (Hidle' & Hlock & Hflag & _).
  done.
Qed.

Lemma controller_calls_keep_loop_state_witness :
  let w := state_after (suspender.ctor 1 "a" None ;; cv_block) (boot true []) in
  let w' := state_after (perform (Suspend 1 true)) w in
  sysc_lock (g_manager w) = Unlocked
  ∧ sysc_lock (g_manager w') = Unlocked
  ∧ is_suspended (g_manager w') = false.
Proof.
  intros w w'. split; [reflexivity|].
  destruct (controller_calls_keep_loop_state (Suspend 1 true) w) as (_ & Hlock & Hflag & _);
    [reflexivity|].
  split; [exact Hlock|exact Hflag].
Defined.

(** *** Counter and registry out of step *)

(** X12: the registry holds addresses.  When a handle is destroyed at
    depth 2 or more its address stays registered, and a handle
    constructed later at the same address is reported as suspending
    from the start, with counter 0; destroying that handle raises
    "unmatched resume" and the address is still registered. *)
Theorem stale_registration_captures_new_handle
    (this : nat) (name : string) (top : option string) (w : world) (o : suspender) :
  idle w →
  objects w !! this = Some o →
  2 ≤ m_pcount o →
  this ∈ suspenders (g_manager w) →
  let w1 := state_after (suspender.dtor this) w in
  let w2 := state_after (suspender.ctor this name top) w1 in
  result_of (suspender.ctor this name top) w1 = Ok tt
  ∧ m_pcount <$> objects w2 !! this = Some 0
  ∧ result_of (suspender.is_suspending this) w2 = Ok true
  ∧ result_of (suspender.dtor this) w2 = Throw "unmatched resume"
  ∧ this ∈ suspenders (g_manager (state_after (suspender.dtor this) w2)).
Proof.
  intros Hidle Hobj Hdeep Hin w1 w2.
  pose proof (proj2 (stl_contains_true _ _) Hin) as Hcontains.
  assert (Hw1 : w1 = with_objects (delete this) w).
  { unfold w1, state_after. rewrite (dtor_eq this w o Hidle Hobj), Hcontains. cbn zeta.
    destruct (Z.eqb_spec (m_pcount o - 1) 0) as [?|_]; [lia|].
    destruct (Z.ltb_spec (m_pcount o - 1) 0) as [?|_]; [lia|]. done. }
  set (fresh := {| m_pcount := 0;
                   m_name := match top with
                             | Some owner => (owner +:+ SC_HIERARCHY_CHAR) +:+ name
                             | None => name
                             end;
                   m_owner := top |}).
  assert (Hctor : suspender.ctor this name top w1 =
    (Ok tt, with_objects <[this := fresh]> w1)).
  { unfold suspender.ctor. rewrite Hw1. cbn [objects with_objects].
    by rewrite lookup_delete_eq. }
  assert (Hw2 : w2 = with_objects <[this := fresh]> w1).
  { unfold w2, state_after. by rewrite Hctor. }
  assert (Hidle2 : idle w2) by (by rewrite Hw2, Hw1).
  assert (Hobj2 : objects w2 !! this = Some fresh).
  { rewrite Hw2. cbn. apply lookup_insert_eq. }
  assert (Hreg2 : suspenders (g_manager w2) = suspenders (g_manager w)).
  { by rewrite Hw2, Hw1. }
  split; [unfold result_of; by rewrite Hctor|].
  split; [by rewrite Hobj2|].
  split.
  { unfold result_of. rewrite suspender_is_suspending_eq by done.
    by rewrite Hreg2, Hcontains. }
  unfold result_of, state_after.
  rewrite (dtor_eq this w2 fresh Hidle2 Hobj2), Hreg2, Hcontains.
  change (m_pcount fresh - 1 =? 0) with false.
  change (m_pcount fresh - 1 <? 0) with true.
  cbn [fst snd g_manager with_objects]. by rewrite Hreg2.
Qed.

Lemma stale_registration_captures_new_handle_witness :
  let w := state_after
    (suspender.ctor 1 "dbg" None ;; suspender.suspend 1 false other_thread ;;
     suspender.suspend 1 false other_thread) (boot true []) in
  let w2 := state_after (suspender.dtor 1 ;; suspender.ctor 1 "gdb" None) w in
  objects w2 !! 1%nat = Some {| m_pcount := 0; m_name := "gdb"; m_owner := None |}
  ∧ result_of (suspender.is_suspending 1) w2 = Ok true.
Proof.
  intros w w2. split; [reflexivity|].
  pose proof (stale_registration_captures_new_handle 1 "gdb" None w
    {| m_pcount := 2; m_name := "dbg"; m_owner := None |}) as H.
  destruct H as (_ & _ & Hsus & _);
    [reflexivity|reflexivity|cbn; lia|vm_compute; apply list_elem_of_here|].
  exact Hsus.
Defined.

(** X13: a [suspend] refused because the simulation is not running
    leaves the counter at 1, so once the simulation runs a further
    [suspend] of the same handle is accepted without being registered:
    the handle asks for no pause until it has been resumed down to 0. *)
Theorem refused_suspend_disarms_handle
    (this : nat) (wait : bool) (caller : thread) (w : world) (o : suspender) :
  idle w →
  objects w !! this = Some o →
  m_pcount o = 0 →
  sc_running w = false →
  let w1 := state_after (suspender.suspend this wait caller) w in
  let w2 := state_after (do_step (Kernel true)) w1 in
  let w3 := state_after (suspender.suspend this wait caller) w2 in
  result_of (suspender.suspend this wait caller) w
    = Throw "cannot suspend, simulation not running"
  ∧ sc_running w2 = true
  ∧ result_of (suspender.suspend this wait caller) w2 = await_pause wait caller w
  ∧ suspenders (g_manager w3) = suspenders (g_manager w)
  ∧ m_pcount <$> objects w3 !! this = Some 2.
Proof.
  intros Hidle Hobj Hzero Hstopped w1 w2 w3.
  assert (Hsus : suspender.suspend this wait caller w =
    (Throw "cannot suspend, simulation not running",
     with_objects <[this := with_pcount 1 o]> w)).
  { rewrite (suspend_eq this w o Hidle Hobj). cbn zeta. by rewrite Hzero, Hstopped. }
  assert (Hw2 : w2 = with_running true (with_objects <[this := with_pcount 1 o]> w)).
  { unfold w2, w1, state_after. by rewrite Hsus. }
  assert (Hagain : suspender.suspend this wait caller w2 =
    (await_pause wait caller w,
     with_objects <[this := with_pcount 2 (with_pcount 1 o)]> w2)).
  { rewrite (suspend_eq this w2 (with_pcount 1 o)).
    - cbn zeta. by rewrite Hw2.
    - by rewrite Hw2.
    - rewrite Hw2. cbn. apply lookup_insert_eq. }
  split; [unfold result_of; by rewrite Hsus|].
  split; [by rewrite Hw2|].
  split; [unfold result_of; by rewrite Hagain|].
  unfold w3, state_after. rewrite Hagain. cbn [snd].
  split; [by rewrite Hw2|]. cbn. by rewrite lookup_insert_eq.
Qed.

Lemma refused_suspend_disarms_handle_witness :
  let w := state_after (suspender.ctor 1 "dbg" None) (boot false []) in
  let w3 := state_after
    (suspender.suspend 1 false other_thread)
    (state_after (do_step (Kernel true))
       (state_after (suspender.suspend 1 false other_thread) w)) in
  suspenders (g_manager w3) = []
  ∧ m_pcount <$> objects w3 !! 1%nat = Some 2.
Proof.
  intros w w3.
  pose proof (refused_suspend_disarms_handle 1 false other_thread w
    {| m_pcount := 0; m_name := "dbg"; m_owner := None |}) as H.
  destruct H as (_ & _ & _ & Hreg & Hcount); [reflexivity..|].
  split; [exact Hreg|exact Hcount].
Defined.

(** *** The phases of [handle_requests] *)



(** * vcml/common/bitops.cpp *)

(** ** Bit operations on bounded values *)

Lemma mod_lxor n a b :
  0 ≤ n → Z.lxor a b mod 2 ^ n = Z.lxor (a mod 2 ^ n) (b mod 2 ^ n).
Proof.
  intros Hn. apply Z.bits_inj'. intros k Hk. rewrite Z.lxor_spec.
  destruct (Z.lt_ge_cases k n).
  - rewrite !Z.mod_pow2_bits_low by lia. apply Z.lxor_spec.
  - by rewrite !Z.mod_pow2_bits_high by lia.
Qed.

Lemma lxor_range n a b :
  0 ≤ n → 0 ≤ a < 2 ^ n → 0 ≤ b < 2 ^ n → 0 ≤ Z.lxor a b < 2 ^ n.
Proof.
  intros Hn Ha Hb. split; [apply Z.lxor_nonneg; lia|].
  assert (Heq : Z.lxor a b = Z.lxor a b mod 2 ^ n).
  { rewrite mod_lxor by done. by rewrite !Z.mod_small. }
  rewrite Heq. apply Z.mod_pos_bound. lia.
Qed.

Lemma lxor_cancel_r a a' b : Z.lxor a b = Z.lxor a' b → a = a'.
Proof.
  intros H. apply (f_equal (λ x, Z.lxor x b)) in H.
  by rewrite !Z.lxor_assoc, !Z.lxor_nilpotent, !Z.lxor_0_r in H.
Qed.

Lemma lxor_cancel_l a b b' : Z.lxor a b = Z.lxor a b' → b = b'.
Proof. rewrite !(Z.lxor_comm a). apply lxor_cancel_r. Qed.

Lemma lxor_swap a b c d :
  Z.lxor (Z.lxor a b) (Z.lxor c d) = Z.lxor (Z.lxor a c) (Z.lxor b d).
Proof.
  rewrite !Z.lxor_assoc. f_equal. rewrite <- !Z.lxor_assoc. f_equal.
  apply Z.lxor_comm.
Qed.

Lemma is_u8_lxor a b : bitops.is_u8 a → bitops.is_u8 b → bitops.is_u8 (Z.lxor a b).
Proof. apply (lxor_range 8). lia. Qed.

Lemma forall_u8 (P : Z → bool) :
  forallb P (seqZ 0 256) = true → ∀ x, bitops.is_u8 x → P x = true.
Proof.
  intros H x Hx. rewrite forallb_forall in H. apply H.
  apply list_elem_of_In, elem_of_seqZ. unfold bitops.is_u8 in Hx. lia.
Qed.

Lemma table_at_lookup table i :
  0 ≤ i < Z.of_nat (length table) →
  table !! Z.to_nat i = Some (bitops.table_at table i).
Proof.
  intros Hi. unfold bitops.table_at.
  destruct (lookup_lt_is_Some_2 table (Z.to_nat i)) as [x Hx]; [lia|].
  rewrite Hx. f_equal. symmetry. by apply nth_lookup_Some.
Qed.

Lemma table_at_inj table i j :
  NoDup table →
  0 ≤ i < Z.of_nat (length table) → 0 ≤ j < Z.of_nat (length table) →
  bitops.table_at table i = bitops.table_at table j → i = j.
Proof.
  intros Hnd Hi Hj Heq.
  pose proof (table_at_lookup table i Hi) as Hli.
  pose proof (table_at_lookup table j Hj) as Hlj. rewrite <- Heq in Hlj.
  pose proof (NoDup_lookup _ _ _ _ Hnd Hli Hlj). lia.
Qed.

(** ** The table of reversed bytes *)

(** X14: [bitrev_table[i]] is the byte [i] with its 8 bits in reverse
    order, for every byte [i]; looking a byte up twice gives it
    back. *)
Theorem bitrev_table_reverses (i : Z) :
  bitops.is_u8 i →
  bitops.is_u8 (bitops.table_at bitops.bitrev_table i)
  ∧ (∀ k, 0 ≤ k < 8 →
       Z.testbit (bitops.table_at bitops.bitrev_table i) k = Z.testbit i (7 - k))
  ∧ bitops.table_at bitops.bitrev_table (bitops.table_at bitops.bitrev_table i) = i.
Proof.
  intros Hi.
  assert (Hcheck : forallb (λ i,
      let r := bitops.table_at bitops.bitrev_table i in
      (0 <=? r) && (r <? 256)
      && forallb (λ k, Bool.eqb (Z.testbit r k) (Z.testbit i (7 - k))) (seqZ 0 8)
      && (bitops.table_at bitops.bitrev_table r =? i)) (seqZ 0 256) = true).
  { vm_compute. reflexivity. }
  pose proof (forall_u8 _ Hcheck i Hi) as H. cbn zeta in H.
  apply andb_prop in H as [H Hinv]. apply andb_prop in H as [H Hbits].
  apply andb_prop in H as [Hlo Hhi].
  split; [unfold bitops.is_u8; lia|]. split; [|lia].
  intros k Hk. rewrite forallb_forall in Hbits.
  apply Bool.eqb_prop, Hbits, list_elem_of_In, elem_of_seqZ. lia.
Qed.

Lemma bitrev_table_reverses_witness :
  bitops.table_at bitops.bitrev_table 0x1d = 0xb8
  ∧ bitops.table_at bitops.bitrev_table 0xb8 = 0x1d.
Proof.
  destruct (bitrev_table_reverses 0x1d) as (_ & _ & Hinv);
    [unfold bitops.is_u8; lia|].
  split; [reflexivity|]. exact Hinv.
Defined.

Lemma table_at_inj_on (f : Z → Z) table n i j :
  NoDup (f <$> take n table) →
  (n ≤ length table)%nat →
  0 ≤ i < Z.of_nat n → 0 ≤ j < Z.of_nat n →
  f (bitops.table_at table i) = f (bitops.table_at table j) → i = j.
Proof.
  intros Hnd Hn Hi Hj Heq.
  assert (Hl : ∀ k, 0 ≤ k < Z.of_nat n →
    (f <$> take n table) !! Z.to_nat k = Some (f (bitops.table_at table k))).
  { intros k Hk. rewrite list_lookup_fmap, lookup_take_lt by lia.
    rewrite table_at_lookup by lia. done. }
  pose proof (Hl i Hi) as Hli. pose proof (Hl j Hj) as Hlj. rewrite <- Heq in Hlj.
  pose proof (NoDup_lookup _ _ _ _ Hnd Hli Hlj). lia.
Qed.

(** ** One corrupted byte in a buffer *)

Section corrupted_byte.
Variable step : Z → Z → Z.
Variables ran good : Z → Prop.
Hypothesis good_ran : ∀ s, good s → ran s.
Hypothesis step_good : ∀ s b, ran s → bitops.is_u8 b → good (step s b).
Hypothesis step_inj :
  ∀ s s' b, good s → good s' → bitops.is_u8 b → step s b = step s' b → s = s'.

Lemma foldl_ran pre :
  Forall bitops.is_u8 pre → ∀ s, ran s → ran (foldl step s pre).
Proof using good_ran step_good.
  induction 1 as [|b pre Hb _ IH]; intros s Hs; [done|].
  cbn. by apply IH, good_ran, step_good.
Qed.

Lemma foldl_inj post :
  Forall bitops.is_u8 post →
  ∀ s s', good s → good s' → foldl step s post = foldl step s' post → s = s'.
Proof using good_ran step_good step_inj.
  induction 1 as [|b post Hb _ IH]; intros s s' Hs Hs' Heq; [done|].
  cbn in Heq. apply IH in Heq.
  - by apply (step_inj s s' b).
  - by apply step_good; [apply good_ran|].
  - by apply step_good; [apply good_ran|].
Qed.

Lemma corrupted_byte_detected pre post b b' s0 :
  Forall bitops.is_u8 pre → Forall bitops.is_u8 post →
  bitops.is_u8 b → bitops.is_u8 b' → ran s0 →
  foldl step s0 (pre ++ b :: post) = foldl step s0 (pre ++ b' :: post)
  ↔ step (foldl step s0 pre) b = step (foldl step s0 pre) b'.
Proof using good_ran step_good step_inj.
  intros Hpre Hpost Hb Hb' Hs0. rewrite !foldl_app. cbn.
  pose proof (foldl_ran pre Hpre s0 Hs0) as Hs.
  split; [|by intros ->].
  apply foldl_inj; [done|by apply step_good..].
Qed.

End corrupted_byte.

(** ** [crc7] *)

Lemma crc7_foldl buffer crc :
  bitops.crc7 buffer crc =
  foldl (λ s b, bitops.table_at bitops.crc7_table (Z.lxor s b)) crc buffer.
Proof. revert crc. induction buffer as [|b rest IH]; intros crc; [done|]. apply IH. Qed.

Lemma crc7_table_even x :
  bitops.is_u8 x →
  bitops.is_u8 (bitops.table_at bitops.crc7_table x)
  ∧ Z.odd (bitops.table_at bitops.crc7_table x) = false.
Proof.
  intros Hx.
  assert (Hcheck : forallb (λ x,
      let r := bitops.table_at bitops.crc7_table x in
      (0 <=? r) && (r <? 256) && negb (Z.odd r)) (seqZ 0 256) = true).
  { vm_compute. reflexivity. }
  pose proof (forall_u8 _ Hcheck x Hx) as H. cbn zeta in H.
  apply andb_prop in H as [H Hodd]. apply andb_prop in H as [Hlo Hhi].
  split; [unfold bitops.is_u8; lia|]. by apply negb_true_iff.
Qed.

Lemma crc7_table_generator x :
  bitops.is_u8 x →
  bitops.table_at bitops.crc7_table (Z.lxor x 0x89) = bitops.table_at bitops.crc7_table x
  ∧ (128 ≤ x → Z.lxor x 0x89 < 128).
Proof.
  intros Hx.
  assert (Hcheck : forallb (λ x,
      (bitops.table_at bitops.crc7_table (Z.lxor x 0x89)
         =? bitops.table_at bitops.crc7_table x)
      && implb (128 <=? x) (Z.lxor x 0x89 <? 128)) (seqZ 0 256) = true).
  { vm_compute. reflexivity. }
  pose proof (forall_u8 _ Hcheck x Hx) as H.
  apply andb_prop in H as [Heq Hlt]. split; [lia|].
  intros Hge. destruct (Z.leb_spec 128 x); [|lia]. cbn in Hlt. lia.
Qed.

Lemma crc7_table_collisions x y :
  bitops.is_u8 x → bitops.is_u8 y →
  bitops.table_at bitops.crc7_table x = bitops.table_at bitops.crc7_table y →
  x = y ∨ Z.lxor x y = 0x89.
Proof.
  intros Hx Hy Heq.
  assert (Hnd : NoDup (id <$> take 128 bitops.crc7_table)).
  { refine (bool_decide_unpack _ _). vm_compute. exact I. }
  assert (Hlow : ∀ a b, 0 ≤ a < 128 → 0 ≤ b < 128 →
    bitops.table_at bitops.crc7_table a = bitops.table_at bitops.crc7_table b → a = b).
  { intros a b Ha Hb. apply (table_at_inj_on id _ 128); [done|cbn; lia|lia..]. }
  destruct (crc7_table_generator x Hx) as [Hgx Hlx].
  destruct (crc7_table_generator y Hy) as [Hgy Hly].
  pose proof (is_u8_lxor x 0x89 Hx) as Hrx.
  pose proof (is_u8_lxor y 0x89 Hy) as Hry.
  unfold bitops.is_u8 in *.
  destruct (Z.lt_ge_cases x 128) as [Hxs|Hxb], (Z.lt_ge_cases y 128) as [Hys|Hyb].
  - left. apply Hlow; [lia..|done].
  - right. rewrite <- Hgy in Heq. apply Hlow in Heq; [|lia..].
    rewrite Heq, (Z.lxor_comm y), Z.lxor_assoc, Z.lxor_nilpotent. apply Z.lxor_0_r.
  - right. rewrite <- Hgx in Heq. apply Hlow in Heq; [|lia..].
    rewrite <- Heq, <- Z.lxor_assoc, Z.lxor_nilpotent. apply Z.lxor_0_l.
  - left. rewrite <- Hgx, <- Hgy in Heq. apply Hlow in Heq; [|lia..].
    by apply lxor_cancel_r in Heq.
Qed.

(** X15: [crc7] notices one corrupted byte of a buffer, wherever it is,
    unless the corrupted byte differs from the original by exactly the
    generator pattern 0x89: then, and only then, the checksum is the
    same. *)
Theorem crc7_detects_corrupted_byte (pre post : list Z) (b b' crc : Z) :
  Forall bitops.is_u8 pre → Forall bitops.is_u8 post →
  bitops.is_u8 b → bitops.is_u8 b' → bitops.is_u8 crc →
  bitops.crc7 (pre ++ b :: post) crc = bitops.crc7 (pre ++ b' :: post) crc
  ↔ b = b' ∨ Z.lxor b b' = 0x89.
Proof.
  intros Hpre Hpost Hb Hb' Hcrc. rewrite !crc7_foldl.
  set (step := λ s b, bitops.table_at bitops.crc7_table (Z.lxor s b)).
  set (good := λ s, bitops.is_u8 s ∧ Z.odd s = false).
  assert (Hgood : ∀ s b, bitops.is_u8 s → bitops.is_u8 b → good (step s b)).
  { intros s c Hs Hc. by apply crc7_table_even, is_u8_lxor. }
  assert (Hinj : ∀ s s' c, good s → good s' → bitops.is_u8 c →
    step s c = step s' c → s = s').
  { intros s s' c [Hs Hes] [Hs' Hes'] Hc Heq.
    apply crc7_table_collisions in Heq; [|by apply is_u8_lxor..].
    destruct Heq as [Heq|Heq].
    - by apply lxor_cancel_r in Heq.
    - rewrite lxor_swap, Z.lxor_nilpotent, Z.lxor_0_r in Heq.
      apply (f_equal Z.odd) in Heq.
      rewrite <- !Z.bit0_odd, Z.lxor_spec, !Z.bit0_odd, Hes, Hes' in Heq.
      discriminate. }
  rewrite (corrupted_byte_detected step bitops.is_u8 good); try done;
    [|by intros s [? _]].
  set (s := foldl step crc pre).
  assert (Hs : bitops.is_u8 s).
  { apply (foldl_ran step bitops.is_u8 good); try done. by intros ? [? _]. }
  unfold step. split.
  - intros Heq. apply crc7_table_collisions in Heq; [|by apply is_u8_lxor..].
    destruct Heq as [Heq|Heq].
    + left. by apply lxor_cancel_l in Heq.
    + right. by rewrite lxor_swap, Z.lxor_nilpotent, Z.lxor_0_l in Heq.
  - intros [->|Hgen]; [done|].
    assert (Hb'eq : b' = Z.lxor b 0x89).
    { rewrite <- Hgen, <- Z.lxor_assoc, Z.lxor_nilpotent. by rewrite Z.lxor_0_l. }
    rewrite Hb'eq, <- Z.lxor_assoc.
    symmetry. by apply crc7_table_generator, is_u8_lxor.
Qed.

Lemma crc7_detects_corrupted_byte_witness :
  bitops.crc7 ([0x40; 0x00] ++ 0x12 :: [0x34; 0x95]) 0
  = bitops.crc7 ([0x40; 0x00] ++ 0x9b :: [0x34; 0x95]) 0.
Proof.
  apply crc7_detects_corrupted_byte;
    [repeat constructor; unfold bitops.is_u8; lia..
    |unfold bitops.is_u8; lia|unfold bitops.is_u8; lia|unfold bitops.is_u8; lia|].
  right. reflexivity.
Defined.

(** ** [crc16] *)

Lemma crc16_foldl buffer crc :
  bitops.crc16 buffer crc =
  foldl (λ s b, bitops.u16 (Z.lxor (Z.shiftl s 8)
                  (bitops.table_at bitops.crc16_table
                     (Z.land (Z.lxor (Z.shiftr s 8) b) 0xff)))) crc buffer.
Proof. revert crc. induction buffer as [|b rest IH]; intros crc; [done|]. apply IH. Qed.

Lemma crc16_table_range x :
  bitops.is_u8 x → 0 ≤ bitops.table_at bitops.crc16_table x < 65536.
Proof.
  intros Hx.
  assert (Hcheck : forallb (λ x,
      let r := bitops.table_at bitops.crc16_table x in
      (0 <=? r) && (r <? 65536)) (seqZ 0 256) = true).
  { vm_compute. reflexivity. }
  pose proof (forall_u8 _ Hcheck x Hx) as H. cbn zeta in H.
  apply andb_prop in H as [Hlo Hhi]. lia.
Qed.

Lemma crc16_table_low_bytes x y :
  bitops.is_u8 x → bitops.is_u8 y →
  bitops.table_at bitops.crc16_table x mod 256
    = bitops.table_at bitops.crc16_table y mod 256 →
  x = y.
Proof.
  intros Hx Hy.
  assert (Hnd : NoDup ((λ t, t mod 256) <$> take 256 bitops.crc16_table)).
  { refine (bool_decide_unpack _ _). vm_compute. exact I. }
  unfold bitops.is_u8 in *.
  apply (table_at_inj_on (λ t, t mod 256) _ 256); [done|cbn; lia|lia..].
Qed.

(** One step of [crc16] on a 16-bit checksum: the low byte moves up and
    the table entry selected by the high byte and the input is added. *)
Lemma crc16_step_eq s b :
  0 ≤ s < 65536 → bitops.is_u8 b →
  bitops.u16 (Z.lxor (Z.shiftl s 8)
    (bitops.table_at bitops.crc16_table (Z.land (Z.lxor (Z.shiftr s 8) b) 0xff)))
  = Z.lxor (256 * (s mod 256))
      (bitops.table_at bitops.crc16_table (Z.lxor (s / 256) b))
  ∧ bitops.is_u8 (Z.lxor (s / 256) b).
Proof.
  intros Hs Hb.
  assert (Hh : bitops.is_u8 (s / 256)).
  { unfold bitops.is_u8. split; [apply Z.div_pos; lia|].
    apply Z.div_lt_upper_bound; lia. }
  pose proof (is_u8_lxor _ _ Hh Hb) as Hidx. split; [|done].
  rewrite Z.shiftr_div_pow2 by lia. change (2 ^ 8) with 256.
  change 0xff with (Z.ones 8). rewrite Z.land_ones by lia. change (2 ^ 8) with 256.
  rewrite (Z.mod_small (Z.lxor (s / 256) b)) by exact Hidx.
  unfold bitops.u16. rewrite mod_lxor by lia. change (2 ^ 16) with 65536.
  rewrite (Z.mod_small (bitops.table_at _ _)) by (by apply crc16_table_range).
  f_equal. rewrite Z.shiftl_mul_pow2 by lia. change (2 ^ 8) with 256.
  change 65536 with (256 * 256). rewrite Z.mul_mod_distr_r by lia. lia.
Qed.

Lemma crc16_step_low l t : Z.lxor (256 * l) t mod 256 = t mod 256.
Proof.
  change 256 with (2 ^ 8) at 2 3. rewrite mod_lxor by lia. change (2 ^ 8) with 256.
  rewrite Z.mul_comm, Z.mod_mul by lia. apply Z.lxor_0_l.
Qed.

(** X16: [crc16] notices every corruption confined to one byte of a
    buffer: two buffers that differ in exactly one byte never have the
    same checksum. *)
Theorem crc16_detects_corrupted_byte (pre post : list Z) (b b' crc : Z) :
  Forall bitops.is_u8 pre → Forall bitops.is_u8 post →
  bitops.is_u8 b → bitops.is_u8 b' → 0 ≤ crc < 65536 →
  bitops.crc16 (pre ++ b :: post) crc = bitops.crc16 (pre ++ b' :: post) crc
  ↔ b = b'.
Proof.
  intros Hpre Hpost Hb Hb' Hcrc. rewrite !crc16_foldl.
  set (step := λ s b, bitops.u16 (Z.lxor (Z.shiftl s 8)
    (bitops.table_at bitops.crc16_table (Z.land (Z.lxor (Z.shiftr s 8) b) 0xff)))).
  set (ran := λ s, 0 ≤ s < 65536).
  assert (Hran : ∀ s b, ran s → bitops.is_u8 b → ran (step s b)).
  { intros s c _ _. unfold ran, step, bitops.u16. apply Z.mod_pos_bound. lia. }
  assert (Hinj : ∀ s s' c, ran s → ran s' → bitops.is_u8 c →
    step s c = step s' c → s = s').
  { intros s s' c Hs Hs' Hc Heq. unfold step in Heq.
    destruct (crc16_step_eq s c Hs Hc) as [Hes Hidx].
    destruct (crc16_step_eq s' c Hs' Hc) as [Hes' Hidx'].
    rewrite Hes, Hes' in Heq.
    assert (Hhigh : s / 256 = s' / 256).
    { apply (f_equal (λ x, x mod 256)) in Heq. rewrite !crc16_step_low in Heq.
      apply crc16_table_low_bytes in Heq; [|done..]. by apply lxor_cancel_r in Heq. }
    rewrite Hhigh in Heq. apply lxor_cancel_r in Heq.
    rewrite (Z.div_mod s 256), (Z.div_mod s' 256) by lia. lia. }
  rewrite (corrupted_byte_detected step ran ran); try done.
  set (s := foldl step crc pre).
  assert (Hs : ran s) by (by apply (foldl_ran step ran ran)).
  split; [|by intros ->].
  intros Heq. unfold step in Heq.
  destruct (crc16_step_eq s b Hs Hb) as [Hes Hidx].
  destruct (crc16_step_eq s b' Hs Hb') as [Hes' Hidx'].
  rewrite Hes, Hes' in Heq. apply lxor_cancel_l in Heq.
  apply (f_equal (λ x, x mod 256)), crc16_table_low_bytes in Heq; [|done..].
  by apply lxor_cancel_l in Heq.
Qed.

Lemma crc16_detects_corrupted_byte_witness :
  bitops.crc16 ([0x31; 0x32] ++ 0x33 :: [0x34]) 0
  ≠ bitops.crc16 ([0x31; 0x32] ++ 0x73 :: [0x34]) 0.
Proof.
  intros Heq. apply crc16_detects_corrupted_byte in Heq;
    [discriminate|repeat constructor; unfold bitops.is_u8; lia..
    |unfold bitops.is_u8; lia|unfold bitops.is_u8; lia|lia].
Defined.

(** ** [crc32] *)

Lemma crc32_cons b rest crc :
  bitops.crc32 (b :: rest) crc = bitops.crc32 rest (bitops.crc32_byte 8 crc b).
Proof. unfold bitops.crc32. reflexivity. Qed.

Lemma crc32_foldl buffer crc :
  bitops.crc32 buffer crc = foldl (bitops.crc32_byte 8) crc buffer.
Proof.
  revert crc. induction buffer as [|b rest IH]; intros crc; [reflexivity|].
  rewrite crc32_cons. apply IH.
Qed.

(** The inner loop adds the polynomial when the top bit of the
    checksum and the input bit differ. *)
Lemma crc32_bit_eq s b :
  bitops.crc32_bit s b =
  Z.lxor (bitops.u32 (Z.shiftl s 1))
    (if xorb (Z.testbit s 31) (Z.odd b) then bitops.CRC32_POLY else 0).
Proof.
  unfold bitops.crc32_bit.
  assert (Hbit : (Z.land (Z.lxor (Z.shiftr s 31) b) 1 =? 0)
                 = negb (xorb (Z.testbit s 31) (Z.odd b))).
  { change 1 with (Z.ones 1) at 1. rewrite Z.land_ones by lia.
    change (2 ^ 1) with 2.
    rewrite <- Z.bit0_mod, Z.lxor_spec, Z.shiftr_spec, Z.bit0_odd by lia.
    change (0 + 31) with 31.
    by destruct (Z.testbit s 31), (Z.odd b). }
  rewrite Hbit, negb_involutive.
  destruct (xorb _ _); [done|]. by rewrite Z.lxor_0_r.
Qed.

Lemma crc32_bit_lxor s s' b b' :
  bitops.crc32_bit (Z.lxor s s') (Z.lxor b b')
  = Z.lxor (bitops.crc32_bit s b) (bitops.crc32_bit s' b').
Proof.
  rewrite !crc32_bit_eq. rewrite lxor_swap. f_equal.
  - unfold bitops.u32. by rewrite Z.shiftl_lxor, mod_lxor.
  - rewrite Z.lxor_spec, <- !Z.bit0_odd, Z.lxor_spec.
    by destruct (Z.testbit s 31), (Z.testbit s' 31), (Z.testbit b 0), (Z.testbit b' 0).
Qed.

Lemma crc32_bit_range s b : 0 ≤ bitops.crc32_bit s b < 2 ^ 32.
Proof.
  rewrite crc32_bit_eq. apply lxor_range; [lia| |].
  - unfold bitops.u32. apply Z.mod_pos_bound. lia.
  - destruct (xorb _ _); unfold bitops.CRC32_POLY; lia.
Qed.

Lemma crc32_bit_zero d :
  0 ≤ d < 2 ^ 32 → bitops.crc32_bit d 0 = 0 → d = 0.
Proof.
  intros Hd Hz. rewrite crc32_bit_eq in Hz. cbn [Z.odd] in Hz.
  rewrite xorb_false_r in Hz.
  destruct (Z.testbit d 31) eqn:Htop.
  - apply Z.lxor_eq in Hz. apply (f_equal Z.odd) in Hz.
    rewrite <- (Z.bit0_odd (bitops.u32 _)) in Hz. unfold bitops.u32 in Hz.
    rewrite Z.mod_pow2_bits_low, Z.shiftl_spec_low in Hz by lia. discriminate.
  - rewrite Z.lxor_0_r in Hz. apply Z.testbit_false in Htop; [|lia].
    assert (Hq : 0 ≤ d / 2 ^ 31 < 2).
    { split; [apply Z.div_pos; lia|]. apply Z.div_lt_upper_bound; lia. }
    assert (Hsmall : d / 2 ^ 31 = 0).
    { pose proof (Z.mod_small (d / 2 ^ 31) 2 Hq). lia. }
    apply Z.div_small_iff in Hsmall; [|lia].
    unfold bitops.u32 in Hz. rewrite Z.shiftl_mul_pow2, Z.mod_small in Hz by lia.
    lia.
Qed.

Lemma crc32_byte_lxor n : ∀ s s' b b',
  bitops.crc32_byte n (Z.lxor s s') (Z.lxor b b')
  = Z.lxor (bitops.crc32_byte n s b) (bitops.crc32_byte n s' b').
Proof.
  induction n as [|n IH]; intros s s' b b'; [done|].
  cbn [bitops.crc32_byte]. by rewrite <- IH, crc32_bit_lxor, Z.shiftr_lxor.
Qed.

Lemma crc32_byte_range n : ∀ s b,
  0 ≤ s < 2 ^ 32 → 0 ≤ bitops.crc32_byte n s b < 2 ^ 32.
Proof.
  induction n as [|n IH]; intros s b Hs; [done|].
  cbn [bitops.crc32_byte]. apply IH, crc32_bit_range.
Qed.

Lemma crc32_byte_zero n : ∀ d,
  0 ≤ d < 2 ^ 32 → bitops.crc32_byte n d 0 = 0 → d = 0.
Proof.
  induction n as [|n IH]; intros d Hd Hz; [done|].
  cbn [bitops.crc32_byte] in Hz. change (Z.shiftr 0 1) with 0 in Hz.
  apply IH in Hz; [|apply crc32_bit_range]. by apply crc32_bit_zero.
Qed.

Lemma crc32_byte_input e :
  bitops.is_u8 e → bitops.crc32_byte 8 0 e = 0 → e = 0.
Proof.
  intros He Hz.
  assert (Hcheck : forallb (λ e,
      implb (bitops.crc32_byte 8 0 e =? 0) (e =? 0)) (seqZ 0 256) = true).
  { vm_compute. reflexivity. }
  pose proof (forall_u8 _ Hcheck e He) as H. cbv beta in H.
  rewrite Hz in H. cbn in H. lia.
Qed.

(** X17: [crc32] notices every corruption confined to one byte of a
    buffer: two buffers that differ in exactly one byte never have the
    same checksum. *)
Theorem crc32_detects_corrupted_byte (pre post : list Z) (b b' crc : Z) :
  Forall bitops.is_u8 pre → Forall bitops.is_u8 post →
  bitops.is_u8 b → bitops.is_u8 b' → 0 ≤ crc < 2 ^ 32 →
  bitops.crc32 (pre ++ b :: post) crc = bitops.crc32 (pre ++ b' :: post) crc
  ↔ b = b'.
Proof.
  intros Hpre Hpost Hb Hb' Hcrc. rewrite !crc32_foldl.
  set (ran := λ s, 0 ≤ s < 2 ^ 32).
  assert (Hran : ∀ s b, ran s → bitops.is_u8 b → ran (bitops.crc32_byte 8 s b)).
  { intros s c Hs _. by apply crc32_byte_range. }
  assert (Hinj : ∀ s s' c, ran s → ran s' → bitops.is_u8 c →
    bitops.crc32_byte 8 s c = bitops.crc32_byte 8 s' c → s = s').
  { intros s s' c Hs Hs' Hc Heq. apply Z.lxor_eq.
    apply (crc32_byte_zero 8); [by apply lxor_range|].
    transitivity (bitops.crc32_byte 8 (Z.lxor s s') (Z.lxor c c));
      [by rewrite Z.lxor_nilpotent|].
    rewrite crc32_byte_lxor, Heq. apply Z.lxor_nilpotent. }
  pose proof (corrupted_byte_detected (bitops.crc32_byte 8) ran ran
    (λ s Hs, Hs) Hran Hinj pre post b b' crc Hpre Hpost Hb Hb' Hcrc) as Hdetected.
  split; [|intros ->; reflexivity].
  intros Heq. apply Hdetected in Heq. clear Hdetected.
  apply Z.lxor_eq. apply crc32_byte_input; [by apply is_u8_lxor|].
  set (s := foldl (bitops.crc32_byte 8) crc pre) in *.
  transitivity (bitops.crc32_byte 8 (Z.lxor s s) (Z.lxor b b'));
    [by rewrite Z.lxor_nilpotent|].
  rewrite crc32_byte_lxor, Heq. apply Z.lxor_nilpotent.
Qed.

Lemma crc32_detects_corrupted_byte_witness :
  bitops.crc32 ([0xde; 0xad] ++ 0xbe :: [0xef]) 0xffffffff
  ≠ bitops.crc32 ([0xde; 0xad] ++ 0xbf :: [0xef]) 0xffffffff.
Proof.
  intros Heq. apply crc32_detects_corrupted_byte in Heq;
    [discriminate|repeat constructor; unfold bitops.is_u8; lia..
    |unfold bitops.is_u8; lia|unfold bitops.is_u8; lia|lia].
Defined.

(** X18: [crc32] is linear over exclusive or: the checksum of the
    bytewise exclusive or of two buffers of the same length, started
    from the exclusive or of two start values, is the exclusive or of
    the two checksums.  So the effect of an error pattern on the
    checksum does not depend on the data it hits. *)
Theorem crc32_linear (a a' : list Z) (crc crc' : Z) :
  length a = length a' →
  bitops.crc32 (zip_with Z.lxor a a') (Z.lxor crc crc')
  = Z.lxor (bitops.crc32 a crc) (bitops.crc32 a' crc').
Proof.
  revert a' crc crc'. induction a as [|b a IH]; intros [|b' a'] crc crc' Hlen;
    [reflexivity|discriminate|discriminate|].
  cbn [zip_with]. rewrite !crc32_cons, crc32_byte_lxor.
  apply IH. by injection Hlen.
Qed.

Lemma crc32_linear_witness :
  bitops.crc32 (zip_with Z.lxor [0x01; 0x02; 0x03] [0x10; 0x00; 0x80]) (Z.lxor 0xffffffff 0)
  = Z.lxor (bitops.crc32 [0x01; 0x02; 0x03] 0xffffffff)
           (bitops.crc32 [0x10; 0x00; 0x80] 0).
Proof. apply crc32_linear. reflexivity. Defined.

(** X19: the three checksums can be computed piecewise: the checksum
    of a buffer made of two parts is the checksum of the second part
    started from the checksum of the first. *)
Theorem crc_of_parts (pre post : list Z) (crc : Z) :
  bitops.crc7 (pre ++ post) crc = bitops.crc7 post (bitops.crc7 pre crc)
  ∧ bitops.crc16 (pre ++ post) crc = bitops.crc16 post (bitops.crc16 pre crc)
  ∧ bitops.crc32 (pre ++ post) crc = bitops.crc32 post (bitops.crc32 pre crc).
Proof.
  rewrite !crc7_foldl, !crc16_foldl, !crc32_foldl, !foldl_app. done.
Qed.

(** * vcml/protocols/eth.h *)

(** X20: [mac_addr(pkt, offset)] guards its read only when
    [6 + offset] does not wrap: then it raises "packet too small"
    exactly when fewer than [offset + 6] bytes are there, and otherwise
    gives the 6 bytes of the packet from [offset] on.  For the six
    largest offsets the sum wraps: the check compares the size of the
    packet with [offset + 6 - 2 ^ 64], so it passes on every packet of
    at least that many bytes, and the copy then reads beyond the
    packet. *)
Theorem mac_addr_of_bounds (pkt : list Z) (offset : Z) :
  0 ≤ offset < 2 ^ 64 →
  Z.of_nat (length pkt) < 2 ^ 64 →
  (offset + 6 < 2 ^ 64 →
   (eth.mac_addr_of pkt offset = Throw "packet too small"
    ↔ Z.of_nat (length pkt) < offset + 6)
   ∧ (offset + 6 ≤ Z.of_nat (length pkt) →
      ∃ a, eth.mac_addr_of pkt offset = Ok a
           ∧ length (eth.bytes a) = 6%nat
           ∧ ∀ i, (i < 6)%nat → eth.bytes a !! i = pkt !! (Z.to_nat offset + i)%nat))
  ∧ (2 ^ 64 ≤ offset + 6 →
     (eth.mac_addr_of pkt offset = Throw "packet too small"
      ↔ Z.of_nat (length pkt) < offset + 6 - 2 ^ 64)
     ∧ (offset + 6 - 2 ^ 64 ≤ Z.of_nat (length pkt) →
        eth.mac_addr_of pkt offset = Undef)).
Proof.
  intros Hoffset Hsize. unfold eth.mac_addr_of, eth.size_t. split.
  - intros Hhi. rewrite Z.mod_small by lia.
    replace (6 + offset) with (offset + 6) by lia.
    destruct (Z.gtb_spec (offset + 6) (Z.of_nat (length pkt))) as [Hshort|Hfits].
    + split; [done|lia].
    + split; [split; [done|lia]|]. intros _. eexists. split; [done|]. cbn. split.
      * rewrite length_take, length_drop. lia.
      * intros i Hi. by rewrite lookup_take_lt, lookup_drop.
  - intros Hwrap.
    assert (Hmod : (6 + offset) mod 2 ^ 64 = offset + 6 - 2 ^ 64).
    { symmetry. apply (Z.mod_unique _ _ 1); lia. }
    rewrite Hmod.
    destruct (Z.gtb_spec (offset + 6 - 2 ^ 64) (Z.of_nat (length pkt))) as [Hshort|Hpass].
    + split; [done|lia].
    + destruct (Z.gtb_spec (offset + 6) (Z.of_nat (length pkt))); [|lia].
      split; [split; [done|lia]|done].
Qed.

Lemma mac_addr_of_bounds_witness :
  eth.mac_addr_of [1; 2; 3; 4; 5; 6; 7] 2 = Throw "packet too small"
  ∧ (∃ a, eth.mac_addr_of [1; 2; 3; 4; 5; 6; 7] 1 = Ok a
          ∧ length (eth.bytes a) = 6%nat)
  ∧ eth.mac_addr_of [1; 2; 3; 4; 5] (2 ^ 64 - 1) = Undef.
Proof.
  split; [|split].
  - destruct (mac_addr_of_bounds [1; 2; 3; 4; 5; 6; 7] 2) as [H _];
      [lia|vm_compute; reflexivity|].
    destruct H as [H _]; [lia|]. apply H. vm_compute. reflexivity.
  - destruct (mac_addr_of_bounds [1; 2; 3; 4; 5; 6; 7] 1) as [H _];
      [lia|vm_compute; reflexivity|].
    destruct H as [_ H]; [lia|].
    destruct H as (a & Ha & Hlen & _); [vm_compute; discriminate|]. by exists a.
  - destruct (mac_addr_of_bounds [1; 2; 3; 4; 5] (2 ^ 64 - 1)) as [_ H];
      [lia|vm_compute; reflexivity|].
    destruct H as [_ H]; [lia|]. apply H. vm_compute. discriminate.
Defined.

Lemma broadcast_is_multicast a :
  eth.bytes a ≠ [] → eth.is_broadcast a = true → eth.is_multicast a = true.
Proof.
  unfold eth.is_broadcast, eth.is_multicast.
  destruct (eth.bytes a) as [|val rest]; [done|]. intros _. cbn [nth].
  destruct (Z.eqb_spec val 0xff) as [->|_]; [done|]. cbn. discriminate.
Qed.

(** X21: a valid frame (64 to 1522 bytes) always has its two addresses:
    [destination()] and [source()] raise nothing, they are the first
    and the second 6 bytes of the frame, and [payload_size()] bytes
    follow the 2 bytes after them.  A broadcast frame is also reported
    as multicast. *)
Theorem valid_frame_addresses (frame : list Z) :
  eth.valid frame = true →
  ∃ dst src rest,
    eth.destination frame = Ok dst
    ∧ eth.source frame = Ok src
    ∧ frame = eth.bytes dst ++ eth.bytes src ++ rest
    ∧ length (eth.bytes dst) = 6%nat
    ∧ length (eth.bytes src) = 6%nat
    ∧ Z.of_nat (length rest) = 2 + eth.payload_size frame
    ∧ (eth.frame_is_broadcast frame = Ok true → eth.frame_is_multicast frame = Ok true).
Proof.
  unfold eth.valid, eth.size, eth.FRAME_MIN_SIZE, eth.FRAME_MAX_SIZE.
  intros [Hmin Hmax]%andb_prop.
  assert (Hlen : 64 ≤ Z.of_nat (length frame) ≤ 1522) by lia.
  exists {| eth.bytes := take 6 (drop 0 frame) |},
         {| eth.bytes := take 6 (drop 6 frame) |}, (drop 12 frame).
  assert (Hdst : eth.destination frame = Ok {| eth.bytes := take 6 (drop 0 frame) |}).
  { unfold eth.destination, eth.mac_addr_of, eth.size_t.
    rewrite Z.mod_small by lia.
    destruct (Z.gtb_spec (6 + 0) (Z.of_nat (length frame))); [lia|].
    destruct (Z.gtb_spec (0 + 6) (Z.of_nat (length frame))); [lia|]. done. }
  assert (Hsrc : eth.source frame = Ok {| eth.bytes := take 6 (drop 6 frame) |}).
  { unfold eth.source, eth.mac_addr_of, eth.size_t.
    rewrite Z.mod_small by lia.
    destruct (Z.gtb_spec (6 + 6) (Z.of_nat (length frame))); [lia|].
    destruct (Z.gtb_spec (6 + 6) (Z.of_nat (length frame))); [lia|]. done. }
  split; [exact Hdst|]. split; [exact Hsrc|]. cbn [eth.bytes]. split.
  { rewrite drop_0. rewrite <- (take_drop 6 frame) at 1. f_equal.
    rewrite <- (take_drop 6 (drop 6 frame)) at 1. f_equal.
    by rewrite drop_drop. }
  split; [rewrite length_take, length_drop; lia|].
  split; [rewrite length_take, length_drop; lia|].
  split.
  { rewrite length_drop. unfold eth.payload_size, eth.size_t, eth.size,
      eth.FRAME_HEADER_SIZE. rewrite Z.mod_small by lia. lia. }
  unfold eth.frame_is_broadcast, eth.frame_is_multicast. rewrite Hdst. cbn [eth.of_address].
  intros [= Hb]. f_equal. apply broadcast_is_multicast; [|done].
  cbn. rewrite drop_0. destruct frame; [cbn in Hlen; lia|done].
Qed.

Lemma valid_frame_addresses_witness :
  let frame := replicate 6 0xff ++ [0x52; 0x54; 0x00; 0x12; 0x34; 0x56]
               ++ [0x08; 0x06] ++ replicate 50 0 in
  eth.payload_size frame = 50
  ∧ eth.frame_is_multicast frame = Ok true.
Proof.
  intros frame. split; [reflexivity|].
  destruct (valid_frame_addresses frame) as (dst & src & rest & _ & _ & _ & _ & _ & _ & H);
    [reflexivity|].
  apply H. reflexivity.
Defined.

(** * vcml/models/generic/memory.cpp *)

Lemma memcpy_into_Some dest off src n :
  0 ≤ off → 0 ≤ n →
  off + n ≤ Z.of_nat (length dest) → n ≤ Z.of_nat (length src) →
  memory.memcpy_into dest off src n =
  Some (take (Z.to_nat off) dest ++ take (Z.to_nat n) src
        ++ drop (Z.to_nat (off + n)) dest).
Proof.
  intros Hoff Hn Hdest Hsrc. unfold memory.memcpy_into.
  destruct (Z.leb_spec 0 off); [|lia]. destruct (Z.leb_spec 0 n); [|lia].
  destruct (Z.leb_spec (off + n) (Z.of_nat (length dest))); [|lia].
  destruct (Z.leb_spec n (Z.of_nat (length src))); [|lia]. done.
Qed.

Lemma memcpy_into_length dest off src n contents :
  memory.memcpy_into dest off src n = Some contents →
  length contents = length dest.
Proof.
  unfold memory.memcpy_into.
  destruct (Z.leb_spec 0 off); [|done]. destruct (Z.leb_spec 0 n); [|done].
  destruct (Z.leb_spec (off + n) (Z.of_nat (length dest))); [|done].
  destruct (Z.leb_spec n (Z.of_nat (length src))); [|done]. cbn.
  intros [= <-]. rewrite !length_app, !length_take, length_drop. lia.
Qed.

(** X22: [write] leaves the size and the flags of the memory alone and
    never changes the number of bytes; the contents can change only
    when it answers [TLM_OK_RESPONSE] for a range that ends inside the
    memory, and then only for a debug access or when the memory is
    neither read-only nor discarding writes. *)
Theorem write_changes_only_writable
    (m m' : memory.memory) (addr : memory.range) (data : list Z)
    (info : memory.tlm_sbi) (status : memory.tlm_response_status) :
  memory.write m addr data info = Ok (status, m') →
  memory.size m' = memory.size m
  ∧ memory.discard_writes m' = memory.discard_writes m
  ∧ memory.readonly m' = memory.readonly m
  ∧ length (memory.m_memory m') = length (memory.m_memory m)
  ∧ (memory.m_memory m' ≠ memory.m_memory m →
     status = memory.TLM_OK_RESPONSE
     ∧ memory.end_ addr < memory.size m
     ∧ (memory.is_debug info = true
        ∨ (memory.discard_writes m = false ∧ memory.readonly m = false))).
Proof.
  unfold memory.write.
  destruct (Z.geb_spec (memory.end_ addr) (memory.size m)) as [Hout|Hin];
    [by intros [= <- <-]|].
  destruct (memory.is_debug info) eqn:Hdebug; cbn [negb andb].
  - destruct (memory.memcpy_into _ _ _ _) as [contents|] eqn:Hcopy; [|done].
    intros [= <- <-]. cbn. apply memcpy_into_length in Hcopy. auto 10.
  - destruct (memory.discard_writes m) eqn:Hdiscard; [by intros [= <- <-]|].
    destruct (memory.readonly m) eqn:Hro; [by intros [= <- <-]|].
    destruct (memory.memcpy_into _ _ _ _) as [contents|] eqn:Hcopy; [|done].
    intros [= <- <-]. cbn. apply memcpy_into_length in Hcopy. auto 10.
Qed.

Lemma write_changes_only_writable_witness :
  let rom := {| memory.m_memory := [1; 2; 3; 4]; memory.size := 4;
                memory.discard_writes := false; memory.readonly := true |} in
  let addr := {| memory.start := 1; memory.end_ := 2; memory.length := 2 |} in
  memory.write rom addr [9; 9] {| memory.is_debug := false |}
    = Ok (memory.TLM_COMMAND_ERROR_RESPONSE, rom)
  ∧ length (memory.m_memory rom) = 4%nat.
Proof.
  intros rom addr. split; [reflexivity|].
  destruct (write_changes_only_writable rom
    (memory.with_memory [1; 9; 9; 4] rom) addr [9; 9]
    {| memory.is_debug := true |} memory.TLM_OK_RESPONSE) as (_ & _ & _ & Hlen & _);
    [reflexivity|].
  rewrite <- Hlen. reflexivity.
Defined.

Lemma store_read_back m addr data buffer info :
  memory.allocated m →
  memory.covers addr →
  memory.end_ addr < memory.size m →
  Z.of_nat (length data) = memory.length addr →
  Z.of_nat (length buffer) = memory.length addr →
  ∃ contents,
    memory.memcpy_into (memory.m_memory m) (memory.start addr) data
      (memory.length addr) = Some contents
    ∧ memory.read (memory.with_memory contents m) addr buffer info
      = Ok (memory.TLM_OK_RESPONSE, data)
    ∧ ∀ i : nat,
        Z.of_nat i < memory.start addr ∨ memory.end_ addr < Z.of_nat i →
        contents !! i = memory.m_memory m !! i.
Proof.
  unfold memory.allocated, memory.covers.
  intros Halloc [Hrange Hlen] Hin Hdata Hbuffer.
  set (contents := take (Z.to_nat (memory.start addr)) (memory.m_memory m)
    ++ take (Z.to_nat (memory.length addr)) data
    ++ drop (Z.to_nat (memory.start addr + memory.length addr)) (memory.m_memory m)).
  exists contents. split; [apply memcpy_into_Some; lia|]. split.
  - unfold memory.read. cbn [memory.size memory.with_memory memory.m_memory].
    destruct (Z.geb_spec (memory.end_ addr) (memory.size m)); [lia|].
    assert (Hstored : take (Z.to_nat (memory.length addr))
        (drop (Z.to_nat (memory.start addr)) contents) = data).
    { unfold contents. rewrite drop_app_length'; [|rewrite length_take; lia].
      rewrite take_app_length'; [|rewrite length_take; lia].
      apply take_ge. lia. }
    rewrite memcpy_into_Some; [|lia|lia|lia|].
    + change (Z.to_nat 0) with 0%nat. rewrite take_0, app_nil_l.
      rewrite Hstored. rewrite drop_ge by lia. by rewrite app_nil_r.
    + rewrite length_drop. unfold contents.
      rewrite !length_app, !length_take, length_drop. lia.
  - intros i Hi. unfold contents.
    destruct Hi as [Hbefore|Hafter].
    + rewrite lookup_app_l by (rewrite length_take; lia).
      apply lookup_take_lt. lia.
    + rewrite lookup_app_r by (rewrite length_take; lia).
      rewrite lookup_app_r by (rewrite !length_take; lia).
      rewrite lookup_drop, !length_take. f_equal. lia.
Qed.

(** X23: what [write] stores, [read] gives back: after a write that is
    allowed (a debug access, or a memory that is neither read-only nor
    discarding) over a range inside the memory, reading the same range
    answers [TLM_OK_RESPONSE] with the data written, and every byte
    outside the range is as before. *)
Theorem write_read_round_trip
    (m : memory.memory) (addr : memory.range) (data buffer : list Z)
    (info info' : memory.tlm_sbi) :
  memory.allocated m →
  memory.covers addr →
  memory.end_ addr < memory.size m →
  Z.of_nat (length data) = memory.length addr →
  Z.of_nat (length buffer) = memory.length addr →
  memory.is_debug info = true
    ∨ (memory.discard_writes m = false ∧ memory.readonly m = false) →
  ∃ m',
    memory.write m addr data info = Ok (memory.TLM_OK_RESPONSE, m')
    ∧ memory.read m' addr buffer info' = Ok (memory.TLM_OK_RESPONSE, data)
    ∧ ∀ i : nat,
        Z.of_nat i < memory.start addr ∨ memory.end_ addr < Z.of_nat i →
        memory.m_memory m' !! i = memory.m_memory m !! i.
Proof.
  intros Halloc Hcovers Hin Hdata Hbuffer Hallowed.
  destruct (store_read_back m addr data buffer info' Halloc Hcovers Hin Hdata Hbuffer)
    as (contents & Hcopy & Hread & Hframe).
  exists (memory.with_memory contents m). split; [|by split].
  unfold memory.write.
  destruct (Z.geb_spec (memory.end_ addr) (memory.size m)); [lia|].
  rewrite Hcopy.
  destruct Hallowed as [->|[-> ->]]; [done|]. by destruct (memory.is_debug info).
Qed.

Lemma write_read_round_trip_witness :
  let m := {| memory.m_memory := [1; 2; 3; 4]; memory.size := 4;
              memory.discard_writes := false; memory.readonly := true |} in
  let addr := {| memory.start := 1; memory.end_ := 2; memory.length := 2 |} in
  ∃ m',
    memory.write m addr [8; 9] {| memory.is_debug := true |}
      = Ok (memory.TLM_OK_RESPONSE, m')
    ∧ memory.read m' addr [0; 0] {| memory.is_debug := false |}
      = Ok (memory.TLM_OK_RESPONSE, [8; 9]).
Proof.
  intros m addr.
  destruct (write_read_round_trip m addr [8; 9] [0; 0]
    {| memory.is_debug := true |} {| memory.is_debug := false |})
    as (m' & Hwrite & Hread & _).
  - reflexivity.
  - unfold memory.covers. cbn. lia.
  - cbn. lia.
  - reflexivity.
  - reflexivity.
  - by left.
  - by exists m'.
Defined.

Lemma memcpy_into_frame dest off src n contents :
  memory.memcpy_into dest off src n = Some contents →
  ∀ i : nat, Z.of_nat i < off ∨ off + n ≤ Z.of_nat i → contents !! i = dest !! i.
Proof.
  unfold memory.memcpy_into.
  destruct (Z.leb_spec 0 off); [|done]. destruct (Z.leb_spec 0 n); [|done].
  destruct (Z.leb_spec (off + n) (Z.of_nat (length dest))); [|done].
  destruct (Z.leb_spec n (Z.of_nat (length src))); [|done]. cbn.
  intros [= <-] i [Hbefore|Hafter].
  - rewrite lookup_app_l by (rewrite length_take; lia).
    apply lookup_take_lt. lia.
  - rewrite lookup_app_r by (rewrite length_take; lia).
    rewrite lookup_app_r by (rewrite !length_take; lia).
    rewrite lookup_drop, !length_take. f_equal. lia.
Qed.

(** X24: [copy_image] accepts an image exactly when [off] lies inside
    the memory and the image ends inside it ([off < size] and
    [sz + off <= size], for sums that do not wrap); so an empty image
    at [off = size] is refused.  An offset beyond the memory is
    reported before an image that is too big.  An accepted image
    leaves the bytes outside it as they were and, when it is not empty,
    is what [read] then returns for the bytes from [off] on. *)
Theorem copy_image_read_back
    (m : memory.memory) (image buffer : list Z) (sz off : Z)
    (info : memory.tlm_sbi) :
  memory.allocated m →
  0 ≤ off → 0 ≤ sz → sz + off < 2 ^ 64 →
  Z.of_nat (length image) = sz →
  Z.of_nat (length buffer) = sz →
  (memory.copy_image m image sz off = Throw "offset 0x%lx exceeds memory size"
   ↔ memory.size m ≤ off)
  ∧ (memory.copy_image m image sz off = Throw "image too big for memory"
     ↔ off < memory.size m < sz + off)
  ∧ ((∃ m', memory.copy_image m image sz off = Ok m')
     ↔ off < memory.size m ∧ sz + off ≤ memory.size m)
  ∧ (∀ m', memory.copy_image m image sz off = Ok m' →
       (∀ i : nat, Z.of_nat i < off ∨ off + sz ≤ Z.of_nat i →
                   memory.m_memory m' !! i = memory.m_memory m !! i)
       ∧ (0 < sz →
          memory.read m'
            {| memory.start := off; memory.end_ := off + sz - 1;
               memory.length := sz |} buffer info
          = Ok (memory.TLM_OK_RESPONSE, image))).
Proof.
  intros Halloc Hoff Hsz Hwrap Himage Hbuffer. unfold memory.copy_image, memory.u64.
  rewrite Z.mod_small by lia.
  destruct (Z.geb_spec off (memory.size m)) as [Hout|Hin].
  { split; [split; [lia|done]|]. split; [split; [done|lia]|].
    split; [split; [by intros [? ?]|lia]|done]. }
  destruct (Z.gtb_spec (sz + off) (memory.size m)) as [Hbig|Hfits].
  { split; [split; [done|lia]|]. split; [split; [lia|done]|].
    split; [split; [by intros [? ?]|lia]|done]. }
  assert (Hcopy : memory.memcpy_into (memory.m_memory m) off image sz =
    Some (take (Z.to_nat off) (memory.m_memory m) ++ take (Z.to_nat sz) image
          ++ drop (Z.to_nat (off + sz)) (memory.m_memory m))).
  { unfold memory.allocated in Halloc. apply memcpy_into_Some; lia. }
  rewrite Hcopy.
  split; [split; [done|lia]|]. split; [split; [done|lia]|].
  split; [split; [lia|by eexists]|].
  intros m' [= <-]. split.
  - cbn [memory.m_memory memory.with_memory]. by apply (memcpy_into_frame _ _ _ _ _ Hcopy).
  - intros Hpos.
    destruct (store_read_back m
      {| memory.start := off; memory.end_ := off + sz - 1; memory.length := sz |}
      image buffer info) as (contents & Hcopy' & Hread & _); try done.
    + unfold memory.covers. cbn. lia.
    + cbn. lia.
    + cbn [memory.start memory.length] in Hcopy'. rewrite Hcopy in Hcopy'.
      by injection Hcopy' as <-.
Qed.

Lemma copy_image_read_back_witness :
  let m := {| memory.m_memory := [0; 0; 0; 0]; memory.size := 4;
              memory.discard_writes := false; memory.readonly := true |} in
  memory.copy_image m [7; 8; 9] 3 2 = Throw "image too big for memory"
  ∧ memory.copy_image m [] 0 4 = Throw "offset 0x%lx exceeds memory size"
  ∧ ∃ m', memory.copy_image m [7; 8; 9] 3 1 = Ok m'
          ∧ memory.m_memory m' = [0; 7; 8; 9].
Proof.
  intros m. split; [|split].
  - apply (copy_image_read_back m [7; 8; 9] [0; 0; 0] 3 2 {| memory.is_debug := false |});
      [reflexivity|lia|lia|lia|reflexivity|reflexivity|cbn; lia].
  - apply (copy_image_read_back m [] [] 0 4 {| memory.is_debug := false |});
      [reflexivity|lia|lia|lia|reflexivity|reflexivity|cbn; lia].
  - eexists. split; reflexivity.
Defined.

Lemma align_down x a :
  0 ≤ a < 64 → 0 ≤ x < 2 ^ 64 →
  Z.land x (memory.u64 (Z.lnot (2 ^ a - 1))) = x / 2 ^ a * 2 ^ a.
Proof.
  intros Ha Hx. unfold memory.u64.
  rewrite <- (Z.land_ones (Z.lnot _)) by lia.
  rewrite (Z.land_comm (Z.lnot _)), Z.land_assoc, Z.land_ones by lia.
  rewrite (Z.mod_small x) by lia.
  replace (2 ^ a - 1) with (Z.ones a) by (rewrite Z.ones_equiv; lia).
  rewrite <- Z.ldiff_land, Z.ldiff_ones_r by lia.
  by rewrite Z.shiftl_mul_pow2, Z.shiftr_div_pow2 by lia.
Qed.

(** X25: the constructor refuses a size of 0 and, for any other size,
    an alignment of 64 or more; so when it succeeds the size is not 0
    and the alignment is below 64.  Then, for a request that does not
    wrap and a mapping that lies in the address space, [m_memory] is a
    multiple of [2 ^ align] and the [size] bytes from [m_memory] on lie
    inside the [size + 2 ^ align - 1] bytes mapped at [m_base]. *)
Theorem ctor_aligns_inside_mapping (sz alignment : Z) (mmap : Z → option Z) :
  0 ≤ sz → 0 ≤ alignment →
  (sz = 0 → memory.ctor sz alignment mmap = Throw "memory size cannot be 0")
  ∧ (sz ≠ 0 → 64 ≤ alignment →
     memory.ctor sz alignment mmap = Throw "requested alignment too big")
  ∧ (∀ mp, memory.ctor sz alignment mmap = Ok mp →
       0 < sz ∧ alignment < 64
       ∧ (sz + 2 ^ alignment - 1 < 2 ^ 64 →
          0 ≤ memory.m_base mp →
          memory.m_base mp + memory.mapped mp ≤ 2 ^ 64 →
          memory.mapped mp = sz + 2 ^ alignment - 1
          ∧ memory.m_memory_at mp mod 2 ^ alignment = 0
          ∧ memory.m_base mp ≤ memory.m_memory_at mp
          ∧ memory.m_memory_at mp + sz ≤ memory.m_base mp + memory.mapped mp)).
Proof.
  intros Hsz Halign. unfold memory.ctor.
  destruct (Z.eqb_spec sz 0) as [Hz|Hnz].
  { split; [done|]. split; [done|]. by intros mp. }
  split; [done|].
  destruct (Z.geb_spec alignment 64) as [Hbig|Hsmall].
  { split; [done|]. by intros mp. }
  split; [lia|]. intros mp Hok. split; [lia|]. split; [lia|].
  intros Hroom.
  assert (Hpow : 0 < 2 ^ alignment) by (apply Z.pow_pos_nonneg; lia).
  assert (Hpow64 : 2 ^ alignment < 2 ^ 64) by (apply Z.pow_lt_mono_r; lia).
  assert (Hextra : memory.u64 (memory.u64 (Z.shiftl 1 alignment) - 1) = 2 ^ alignment - 1).
  { unfold memory.u64. rewrite Z.shiftl_mul_pow2, Z.mul_1_l by lia.
    rewrite (Z.mod_small (2 ^ alignment)) by lia. apply Z.mod_small. lia. }
  cbn zeta in Hok. rewrite Hextra in Hok.
  destruct (mmap _) as [base|]; [|done]. injection Hok as <-. cbn.
  intros Hbase Hspace.
  assert (Hmapped : memory.u64 (sz + (2 ^ alignment - 1)) = sz + 2 ^ alignment - 1).
  { unfold memory.u64. rewrite Z.mod_small by lia. lia. }
  rewrite Hmapped in Hspace |- *.
  assert (Hsum : memory.u64 (base + (2 ^ alignment - 1)) = base + 2 ^ alignment - 1).
  { unfold memory.u64. rewrite Z.mod_small by lia. lia. }
  rewrite Hsum, align_down by lia.
  pose proof (Z.div_mod (base + 2 ^ alignment - 1) (2 ^ alignment)).
  pose proof (Z.mod_pos_bound (base + 2 ^ alignment - 1) (2 ^ alignment)).
  split; [done|]. split; [apply Z.mod_mul; lia|]. nia.
Qed.

Lemma ctor_aligns_inside_mapping_witness :
  memory.ctor 0x1000 64 (λ _, Some 0x7f0000000010)
    = Throw "requested alignment too big"
  ∧ memory.ctor 0 12 (λ _, Some 0x7f0000000010) = Throw "memory size cannot be 0"
  ∧ ∃ mp, memory.ctor 0x1000 12 (λ _, Some 0x7f0000000010) = Ok mp
          ∧ memory.m_memory_at mp = 0x7f0000001000
          ∧ memory.m_memory_at mp mod 2 ^ 12 = 0.
Proof.
  split; [|split].
  - apply (ctor_aligns_inside_mapping 0x1000 64 (λ _, Some 0x7f0000000010)); lia.
  - apply (ctor_aligns_inside_mapping 0 12 (λ _, Some 0x7f0000000010)); lia.
  - eexists. split; [reflexivity|]. split; [reflexivity|].
    destruct (ctor_aligns_inside_mapping 0x1000 12 (λ _, Some 0x7f0000000010))
      as (_ & _ & H); [lia|lia|].
    destruct (H _ eq_refl) as (_ & _ & Hin).
    refine (proj1 (proj2 (Hin _ _ _))); vm_compute; first [reflexivity|discriminate].
Defined.
